(** * simpleRealtorAssistant: the query pipeline of [main.py]

    A shallow embedding of the methods of class [Chat] ([split_on_parts],
    [split_fields], [fix_search_fields], [fix_insertion_fields],
    [make_query], [format_response]) and the properties of the
    specification that concern them.

    Conventions.
    - A Python [str] is a list of Unicode code points ([N]); the regular
      expression engine counts and classifies code points, not bytes.
    - A Python [dict] is a key-unique association list in insertion order
      (the order in which Python iterates it).
    - An exception is a value of [error], named after the place that
      raises it; a method that can raise returns a [result].
    - What the repository does not contain is a parameter: the catalog
      [patterns.json], the Unicode tables behind [\w], [\s] and [\d], the
      limit of the interpreter on the digits that [int()] converts, the
      spaCy normalizer, the clock and the MongoDB database.  The database
      is taken to answer every call. *)

From Stdlib Require Import List NArith ZArith Bool Lia String Ascii.
From Stdlib.Strings Require Import Byte.
Import ListNotations.

Set Implicit Arguments.

(* ================================================================== *)
(** * Python strings *)

Module Str.

Definition char := N.
Definition str := list char.

(** The separator of [" ".join] and [.split(" ")]: U+0020. *)
Definition space : char := 32%N.

Fixpoint eqb (a b : str) : bool :=
  match a, b with
  | [], [] => true
  | x :: a', y :: b' => N.eqb x y && eqb a' b'
  | _, _ => false
  end.

(** [w in l] for a list of strings. *)
Definition mem (w : str) (l : list str) : bool := existsb (eqb w) l.

(** [sep.join(l)]. *)
Fixpoint join (sep : str) (l : list str) : str :=
  match l with
  | [] => []
  | [w] => w
  | w :: rest => w ++ sep ++ join sep rest
  end.

(** [s.split(c)] for a one-character separator: every separator cuts,
    empty pieces are kept, the result is never empty. *)
Fixpoint split (c : char) (s : str) : list str :=
  match s with
  | [] => [[]]
  | x :: t =>
      if N.eqb x c then [] :: split c t
      else match split c t with
           | w :: ws => (x :: w) :: ws
           | [] => [[x]]
           end
  end.

(** [old] is a prefix of [s]. *)
Fixpoint prefixb (old s : str) : bool :=
  match old, s with
  | [], _ => true
  | x :: old', y :: s' => N.eqb x y && prefixb old' s'
  | _ :: _, [] => false
  end.

(** The scan of [s.replace(old, new)] for a non-empty [old]: left to
    right, an occurrence found is replaced and the scan resumes behind
    it.  [skip] counts the characters of the occurrence still to pass. *)
Fixpoint replace_scan (old new : str) (skip : nat) (s : str) : str :=
  match s with
  | [] => []
  | x :: t =>
      match skip with
      | S k => replace_scan old new k t
      | O =>
          if prefixb old s
          then new ++ replace_scan old new (List.length old - 1) t
          else x :: replace_scan old new 0 t
      end
  end.

(** [s.replace(old, new)].  With an empty [old] Python puts [new] before
    every character and at the end. *)
Definition replace (old new s : str) : str :=
  match old with
  | [] => flat_map (fun x => new ++ [x]) s ++ new
  | _ :: _ => replace_scan old new 0 s
  end.

(** [list(filter(lambda v: v, l))]: the empty strings are dropped. *)
Definition nonempty (w : str) : bool :=
  match w with [] => false | _ :: _ => true end.

(** Decoding of the UTF-8 bytes of a literal into code points. *)
Fixpoint utf8 (bs : list N) : str :=
  match bs with
  | [] => []
  | b :: t =>
      if (b <? 128)%N then b :: utf8 t
      else if (b <? 224)%N then
        match t with
        | c1 :: t1 => ((b - 192) * 64 + (c1 - 128))%N :: utf8 t1
        | [] => []
        end
      else if (b <? 240)%N then
        match t with
        | c1 :: c2 :: t2 =>
            ((b - 224) * 4096 + (c1 - 128) * 64 + (c2 - 128))%N :: utf8 t2
        | _ => []
        end
      else
        match t with
        | c1 :: c2 :: c3 :: t3 =>
            ((b - 240) * 262144 + (c1 - 128) * 4096
             + (c2 - 128) * 64 + (c3 - 128))%N :: utf8 t3
        | _ => []
        end
  end.

(** A string literal of the source. *)
Definition lit (s : string) : str :=
  utf8 (map Byte.to_N (list_byte_of_string s)).

(** The decimal digits of [n], as [%d] prints them; [fuel] bounds the
    number of digits. *)
Fixpoint of_nat_fuel (fuel n : nat) : str :=
  match fuel with
  | O => []
  | S fuel' =>
      if Nat.ltb n 10 then [N.of_nat (48 + n)]
      else of_nat_fuel fuel' (n / 10) ++ [N.of_nat (48 + n mod 10)]
  end.

Definition of_nat (n : nat) : str := of_nat_fuel (S n) n.

End Str.

Import Str.

(* ================================================================== *)
(** * The part of Python's [re] that the program uses *)

Module Re.

(** Parsed patterns.  The two patterns of the source, [[\w\s]{0,20}] and
    [\d+], repeat a character class; the fragments of the catalog are
    taken as parsed, self-delimited patterns over the same constructors
    (a group of literal alternatives, for instance), so that joining the
    fragments textually is concatenation of patterns. *)
Inductive regex : Type :=
| Eps
| Chr (c : char)
| Cls (f : char -> bool)
| Seq (a b : regex)
| Alt (a b : regex)
| Rep (f : char -> bool) (lo hi : nat).

(** A literal word. *)
Fixpoint Word (w : str) : regex :=
  match w with
  | [] => Eps
  | [c] => Chr c
  | c :: w' => Seq (Chr c) (Word w')
  end.

(** A group of alternatives [(a|b|...)]. *)
Fixpoint Group (l : list regex) : regex :=
  match l with
  | [] => Cls (fun _ => false)
  | [a] => a
  | a :: l' => Alt a (Group l')
  end.

(** Length of the longest prefix of [s] made of characters of class [f],
    [hi] at most. *)
Fixpoint run (f : char -> bool) (hi : nat) (s : str) : nat :=
  match hi, s with
  | S h, x :: t => if f x then S (run f h t) else 0
  | _, _ => 0
  end.

(** The backtracking matcher: the lengths of the prefixes of [s] that
    the pattern accepts, in the order in which the engine tries them
    (left alternative first, greedy repetition longest first). *)
Fixpoint ends (r : regex) (s : str) : list nat :=
  match r with
  | Eps => [0]
  | Chr c =>
      match s with
      | x :: _ => if N.eqb x c then [1] else []
      | [] => []
      end
  | Cls f =>
      match s with
      | x :: _ => if f x then [1] else []
      | [] => []
      end
  | Seq a b =>
      flat_map (fun n => map (Nat.add n) (ends b (skipn n s))) (ends a s)
  | Alt a b => ends a s ++ ends b s
  | Rep f lo hi => rev (seq lo (S (run f hi s) - lo))
  end.

(** [re.search]: the first position, from the left, at which the
    matcher succeeds, with the length of its first success. *)
Fixpoint search_from (r : regex) (i : nat) (s : str) : option (nat * nat) :=
  match ends r s with
  | n :: _ => Some (i, n)
  | [] =>
      match s with
      | [] => None
      | _ :: t => search_from r (S i) t
      end
  end.

Definition search (r : regex) (s : str) : option (nat * nat) :=
  search_from r 0 s.

(** [m.group(0)] of a match at [start] of length [len]. *)
Definition group0 (s : str) (m : nat * nat) : str :=
  firstn (snd m) (skipn (fst m) s).

(** The language of a pattern: the strings it matches as a whole. *)
Fixpoint matches (r : regex) (w : str) : Prop :=
  match r with
  | Eps => w = []
  | Chr c => w = [c]
  | Cls f => exists x, w = [x] /\ f x = true
  | Seq a b => exists u v, w = u ++ v /\ matches a u /\ matches b v
  | Alt a b => matches a w \/ matches b w
  | Rep f lo hi => lo <= List.length w <= hi /\ forallb f w = true
  end.

(** [re.findall] of a one-or-more repetition of the class [f]: the
    maximal runs of characters of the class, left to right.  [cur] is
    the run being read. *)
Fixpoint findall_runs (f : char -> bool) (cur : str) (s : str) : list str :=
  match s with
  | [] => if nonempty cur then [cur] else []
  | x :: t =>
      if f x then findall_runs f (cur ++ [x]) t
      else (if nonempty cur then [cur] else []) ++ findall_runs f [] t
  end.

Definition findall_class_plus (f : char -> bool) (s : str) : list str :=
  findall_runs f [] s.

End Re.

(* ================================================================== *)
(** * Python dictionaries *)

Module Dict.

Section Dict.
Variable V : Type.

Definition dict := list (str * V).

(** [d.get(k)] *)
Fixpoint get (k : str) (d : dict) : option V :=
  match d with
  | [] => None
  | (k', v) :: d' => if Str.eqb k k' then Some v else get k d'
  end.

(** [d |= {k: v}]: the value of an existing key is replaced where the
    key stands, a new key goes to the end. *)
Fixpoint update (k : str) (v : V) (d : dict) : dict :=
  match d with
  | [] => [(k, v)]
  | (k', v') :: d' =>
      if Str.eqb k k' then (k', v) :: d' else (k', v') :: update k v d'
  end.

(** [del d[k]] guarded by [try/except] in the source: no effect when
    the key is missing. *)
Fixpoint remove (k : str) (d : dict) : dict :=
  match d with
  | [] => []
  | (k', v') :: d' =>
      if Str.eqb k k' then d' else (k', v') :: remove k d'
  end.

(** [d.keys()] *)
Definition keys (d : dict) : list str := map fst d.

(** [k in d] *)
Definition has (k : str) (d : dict) : bool := Str.mem k (keys d).

End Dict.

End Dict.

Import Dict.

(* ================================================================== *)
(** * Exceptions *)

(** Exceptions raised by Python itself. *)
Inductive builtin_exception : Type :=
| EmptySequence      (* ValueError: min() arg is an empty sequence *)
| IntegerStringLimit (limit digits : nat)
                     (* ValueError: int() of [digits] digits, more than
                        sys.get_int_max_str_digits() = [limit] *)
| TypeError
| KeyError
| AttributeError.

Inductive required_field : Type := PriceAndAddress | FullName.

Inductive render_target : Type := UnknownCollection | UnknownOperation.

(** The [ValueError]s of the program, one name for each [raise]. *)
Inductive error : Type :=
| PatternNotFoundError
| MalformedQueryError
| UnknownTargetError
| UnknownVerbError
| PermissionDeniedError
| MissingRequiredFieldError (what : required_field)
| UnknownRenderTargetError (what : render_target)
| Builtin (e : builtin_exception).

Inductive result (A : Type) : Type :=
| Ok (a : A)
| Err (e : error).

Arguments Ok {A} a.
Arguments Err {A} e.

Definition bind {A B : Type} (m : result A) (k : A -> result B) : result B :=
  match m with
  | Ok a => k a
  | Err e => Err e
  end.

Notation "x <- m ;; k" := (bind m (fun x => k))
  (at level 61, m at next level, right associativity).

(* ================================================================== *)
(** * The values the program stores in dictionaries *)

Inductive value : Type :=
| VList (ws : list str)            (* a list of words *)
| VStr (s : str)
| VInt (z : Z)
| VElemMatchIn (ws : list str)     (* {"$elemMatch": {"$in": ws}} *)
| VRegexI (pattern : str)          (* {"$regex": pattern, "$options": "i"} *)
| VIn (v : value)                  (* {"$in": v} *)
| VRange (gte lte : Z).            (* {"$gte": gte, "$lte": lte} *)

(** Truth value of [v] in [v or ...]. *)
Definition truthy (v : value) : bool :=
  match v with
  | VList ws => match ws with [] => false | _ :: _ => true end
  | VStr s => nonempty s
  | VInt z => negb (Z.eqb z 0)
  | _ => true
  end.

(** [o or []] where [o] is the result of [d.get(k)] on a dictionary
    whose entry for [k] is a bucket. *)
Definition or_empty (o : option value) : list str :=
  match o with
  | Some (VList ws) => ws
  | _ => []
  end.

(** [d[k]] used as a list of words. *)
Definition item_list (k : str) (d : dict value) : result (list str) :=
  match get k d with
  | Some (VList ws) => Ok ws
  | Some _ => Err (Builtin TypeError)
  | None => Err (Builtin KeyError)
  end.

(** [d[k]] *)
Definition item (k : str) (d : dict value) : result value :=
  match get k d with
  | Some v => Ok v
  | None => Err (Builtin KeyError)
  end.

(** [fields.copy()] of a bucket map. *)
Definition copy (fields : dict (list str)) : dict value :=
  map (fun kv => (fst kv, VList (snd kv))) fields.

(** [min(values)] and [max(values)]. *)
Definition py_min (values : list Z) : result Z :=
  match values with
  | [] => Err (Builtin EmptySequence)
  | x :: t => Ok (fold_left Z.min t x)
  end.

Definition py_max (values : list Z) : result Z :=
  match values with
  | [] => Err (Builtin EmptySequence)
  | x :: t => Ok (fold_left Z.max t x)
  end.

(* ================================================================== *)
(** * What the program takes from outside *)

(** The catalog [patterns.json].  [field_names] holds the top-level
    entries [self._patterns[word]] of the field keywords, each a
    canonical field name. *)
Record patterns : Type := {
  rverbs : Re.regex;
  raction_words : Re.regex;
  rquit_verbs : Re.regex;
  field_words : list str;
  field_names : dict str;
  get_verbs : list str;
  insert_verbs : list str;
  realty : list str;
  worker : list str;
  request : list str
}.

(** Python and its surroundings: the Unicode classes of [re], the
    values of the decimal digits, the limit
    [sys.get_int_max_str_digits()] on the digits [int()] converts
    (4300 unless configured, 0 for no limit, as it is on an interpreter
    older than the limit), [str()] of a value inside an f-string, and
    the date [datetime.now().strftime("%d.%m.%y")]. *)
Record python : Type := {
  word_char : char -> bool;
  space_char : char -> bool;
  decimal : char -> option N;
  int_max_str_digits : nat;
  format : value -> str;
  today : str
}.

(** An instance of [Chat]: the catalog and the spaCy pipeline behind
    [Chat.normalize]. *)
Record Chat : Type := {
  _patterns : patterns;
  normalize : str -> list str
}.

(** A [pymongo] database, by collection name. *)
Record Database : Type := {
  find : str -> dict value -> list (dict value);
  insert_one : str -> dict value -> value
}.

(** What a storage call returns: a cursor over documents, or the
    acknowledgment of an insertion with its [inserted_id]. *)
Inductive db_result : Type :=
| Cursor (docs : list (dict value))
| InsertOneResult (inserted_id : value).

(* ================================================================== *)
(** * String constants of the source *)

Definition nl : str := [10%N].

Definition s_description := lit "description".
Definition s_norm_description := lit "norm_description".
Definition s_fullname := lit "fullname".
Definition s_address := lit "address".
Definition s_norm_address := lit "norm_address".
Definition s_timestamp := lit "timestamp".
Definition s_level := lit "level".
Definition s_price := lit "price".
Definition s_tags := lit "tags".
Definition s_appartments := lit "appartments".
Definition s_workers := lit "workers".
Definition s_requests := lit "requests".
Definition s_select := lit "select".
Definition s_insert := lit "insert".
Definition s_customer := lit "customer".
Definition s_realtor := lit "realtor".
Definition s_dash := lit "-".

(** The text of each [ValueError]. *)
Definition message (e : error) : str :=
  match e with
  | PatternNotFoundError =>
      lit "Не вдалось знайти патерн за вашим запитом"
  | MalformedQueryError =>
      lit "На жаль, не можемо обробити ваш запити. Будь ласка, перепишіть його"
  | UnknownTargetError | UnknownVerbError | PermissionDeniedError =>
      lit "Не було знайдено патерну, який би відповідав вашому запиту"
  | MissingRequiredFieldError PriceAndAddress =>
      lit "Для додавання нової нерухомості необхідно вказати ціну й адресу"
  | MissingRequiredFieldError FullName =>
      lit "Для запиту рієлтору необхідно обов'язково внести свій ПІБ"
  | UnknownRenderTargetError UnknownCollection =>
      lit "Не було знайдено подібної колекції"
  | UnknownRenderTargetError UnknownOperation =>
      lit "Не було знайдено подібної дії"
  | Builtin EmptySequence => lit "min() arg is an empty sequence"
  | Builtin (IntegerStringLimit limit digits) =>
      lit "Exceeds the limit (" ++ Str.of_nat limit
      ++ lit " digits) for integer string conversion: value has "
      ++ Str.of_nat digits
      ++ lit " digits; use sys.set_int_max_str_digits() to increase the limit"
  | Builtin _ => []
  end.

(* ================================================================== *)
(** * Class [Chat] *)

(** [self._search_action]: the verb fragment, at most twenty word or
    whitespace characters, the action-word fragment. *)
Definition _search_action (py : python) (self : Chat) : Re.regex :=
  Re.Seq (rverbs (_patterns self))
    (Re.Seq (Re.Rep (fun c => word_char py c || space_char py c) 0 20)
            (raction_words (_patterns self))).

(** [Chat.split_on_parts] *)
Definition split_on_parts (py : python) (self : Chat)
    (splited_sentence : list str) : result (list str * (str * str)) :=
  let joined_sentence := join [space] splited_sentence in
  match Re.search (_search_action py self) joined_sentence with
  | None => Err PatternNotFoundError
  | Some m =>
      let action_words := Re.group0 joined_sentence m in
      let fields := split space (replace action_words [] joined_sentence) in
      let action_words := split space action_words in
      Ok (filter nonempty fields,
          (hd [] action_words, last action_words []))
  end.

(** The commit inside the loop of [Chat.split_fields], for an open
    bucket [row = [name, words]]:
    [ins = fields.get(row[0]) or []; fields |= {row[0]: row[1] + ins}]. *)
Definition commit (row : str * list str) (fields : dict (list str))
    : dict (list str) :=
  let ins := match get (fst row) fields with
             | Some l => l
             | None => []
             end in
  update (fst row) (snd row ++ ins) fields.

(** The loop of [Chat.split_fields].  [row] is the open bucket: [None]
    for the empty list [[]], [Some (name, words)] for [[name, words]].
    Every exception inside the loop is turned into the error of the
    [except] clause: indexing the empty [row], and a keyword without a
    top-level entry in the catalog. *)
Fixpoint split_fields_loop (self : Chat) (query : list str)
    (fields : dict (list str)) (row : option (str * list str))
    : result (dict (list str) * option (str * list str)) :=
  match query with
  | [] => Ok (fields, row)
  | word :: rest =>
      if mem word (field_words (_patterns self)) then
        let fields :=
          match row with
          | Some r => commit r fields
          | None => fields
          end in
        match get word (field_names (_patterns self)) with
        | Some name => split_fields_loop self rest fields (Some (name, []))
        | None => Err MalformedQueryError
        end
      else
        match row with
        | Some r =>
            split_fields_loop self rest fields (Some (fst r, snd r ++ [word]))
        | None => Err MalformedQueryError
        end
  end.

(** [Chat.split_fields] *)
Definition split_fields (self : Chat) (query : list str)
    : result (dict (list str)) :=
  st <- split_fields_loop self query [] None ;;
  match snd st with
  | Some r => Ok (update (fst r) (snd r) (fst st))
  | None => Ok (fst st)
  end.

(** The number a run of decimal digits denotes. *)
Definition int_value (py : python) (value : str) : Z :=
  fold_left
    (fun acc c =>
       (acc * 10 + match decimal py c with
                   | Some d => Z.of_N d
                   | None => 0
                   end)%Z)
    value 0%Z.

(** The guard of [int()] on the length of a decimal string: the
    conversion is refused when the string has more digits than the
    limit of the interpreter.  The guard is only consulted above 640
    digits, the least limit that can be configured, and a limit of 0
    switches it off. *)
Definition over_digit_limit (py : python) (value : str) : bool :=
  (640 <? List.length value) && (0 <? int_max_str_digits py)
  && (int_max_str_digits py <? List.length value).

(** [int(value)] for a run of decimal digits. *)
Definition int (py : python) (value : str) : result Z :=
  if over_digit_limit py value then
    Err (Builtin (IntegerStringLimit (int_max_str_digits py)
                    (List.length value)))
  else Ok (int_value py value).

(** [[f(x) for x in l]]: the first exception ends the comprehension. *)
Fixpoint comprehension {A B : Type} (f : A -> result B) (l : list A)
    : result (list B) :=
  match l with
  | [] => Ok []
  | x :: t =>
      y <- f x ;;
      ys <- comprehension f t ;;
      Ok (y :: ys)
  end.

(** [\d] *)
Definition digit_char (py : python) (c : char) : bool :=
  match decimal py c with Some _ => true | None => false end.

(** One turn of the loop of [Chat.fix_search_fields], for the key [k]. *)
Definition search_step (py : python) (k : str) (nfields : dict value)
    : result (dict value) :=
  if Str.eqb k s_description then
    let ins := or_empty (get s_norm_description nfields) in
    ws <- item_list k nfields ;;
    Ok (remove k (update s_norm_description (VElemMatchIn (ws ++ ins)) nfields))
  else if Str.eqb k s_fullname then
    ws <- item_list k nfields ;;
    Ok (update k (VRegexI (join [space] ws)) nfields)
  else if Str.eqb k s_address then
    let ins := or_empty (get s_norm_address nfields) in
    ws <- item_list k nfields ;;
    Ok (remove k (update s_norm_address (VElemMatchIn (ws ++ ins)) nfields))
  else if mem k [s_timestamp; s_level] then
    v <- item k nfields ;;
    Ok (update k (VIn v) nfields)
  else if Str.eqb k s_price then
    ws <- item_list k nfields ;;
    let joined_price := join [space] ws in
    let values := Re.findall_class_plus (digit_char py) joined_price in
    values <- comprehension (int py) values ;;
    lo <- py_min values ;;
    hi <- py_max values ;;
    Ok (update k (VRange lo hi) nfields)
  else Ok nfields.

Fixpoint search_loop (py : python) (ks : list str) (nfields : dict value)
    : result (dict value) :=
  match ks with
  | [] => Ok nfields
  | k :: ks' =>
      nfields <- search_step py k nfields ;;
      search_loop py ks' nfields
  end.

(** [Chat.fix_search_fields] *)
Definition fix_search_fields (py : python) (self : Chat)
    (fields : dict (list str)) : result (dict value) :=
  search_loop py (keys fields) (copy fields).

(** The two blocks of [Chat.fix_insertion_fields] that normalize a
    bucket: [x = nfields.get(bucket) or []], and when [x] is not empty
    [x = self.normalize(" ".join(x))] stored under [norm_description].
    Returns the new [x] and the new [nfields]. *)
Definition store_normalized (self : Chat) (bucket : str)
    (nfields : dict value) : list str * dict value :=
  let x := or_empty (get bucket nfields) in
  match x with
  | [] => (x, nfields)
  | _ :: _ =>
      let x := normalize self (join [space] x) in
      (x, update s_norm_description (VList x) nfields)
  end.

(** [len({...}.intersection(fields.keys()))] *)
Definition count_present (names : list str) (fields : dict (list str)) : nat :=
  List.length (filter (fun k => has k fields) names).

(** [Chat.fix_insertion_fields] *)
Definition fix_insertion_fields (py : python) (self : Chat)
    (fields : dict (list str)) (collection : str) : result (dict value) :=
  if Str.eqb collection s_appartments
     && negb (Nat.eqb (count_present [s_address; s_price] fields) 2)
  then Err (MissingRequiredFieldError PriceAndAddress)
  else if Str.eqb collection s_requests
          && negb (Nat.eqb (count_present [s_fullname] fields) 1)
  then Err (MissingRequiredFieldError FullName)
  else
    let nfields := copy fields in
    let (description, nfields) := store_normalized self s_description nfields in
    let (address, nfields) := store_normalized self s_address nfields in
    let tags := description ++ address in
    let nfields :=
      match tags with
      | [] => nfields
      | _ :: _ => update s_tags (VList tags) nfields
      end in
    Ok (update s_timestamp (VStr (today py)) nfields).

(** The first chain of [Chat.make_query]: the collection named by the
    target word. *)
Definition classify_collection (self : Chat) (word : str) : result str :=
  if mem word (realty (_patterns self)) then Ok s_appartments
  else if mem word (worker (_patterns self)) then Ok s_workers
  else if mem word (request (_patterns self)) then Ok s_requests
  else Err UnknownTargetError.

(** The second chain of [Chat.make_query]: the operation named by the
    verb. *)
Definition classify_operation (self : Chat) (verb : str) : result str :=
  if mem verb (get_verbs (_patterns self)) then Ok s_select
  else if mem verb (insert_verbs (_patterns self)) then Ok s_insert
  else Err UnknownVerbError.

(** [Chat.make_query] *)
Definition make_query (py : python) (self : Chat) (db : Database)
    (status verb word : str) (fields : dict (list str))
    : result (db_result * str * str) :=
  collection <- classify_collection self word ;;
  func <- classify_operation self verb ;;
  if Str.eqb status s_customer && Str.eqb func s_select
     && mem collection [s_appartments; s_workers] then
    fields <- fix_search_fields py self fields ;;
    Ok (Cursor (find db collection fields), collection, func)
  else if Str.eqb status s_customer && Str.eqb func s_insert
          && Str.eqb collection s_requests then
    fields <- fix_insertion_fields py self fields collection ;;
    Ok (InsertOneResult (insert_one db collection fields), collection, func)
  else if Str.eqb status s_realtor && Str.eqb func s_select
          && mem collection [s_requests; s_appartments] then
    fields <- fix_search_fields py self fields ;;
    Ok (Cursor (find db collection fields), collection, func)
  else if Str.eqb status s_realtor && Str.eqb func s_insert
          && Str.eqb collection s_appartments then
    fields <- fix_insertion_fields py self fields collection ;;
    Ok (InsertOneResult (insert_one db collection fields), collection, func)
  else Err PermissionDeniedError.

(** [Chat.is_quit] *)
Definition is_quit (self : Chat) (query : list str) : bool :=
  match Re.search (rquit_verbs (_patterns self)) (join [space] query) with
  | Some _ => true
  | None => false
  end.

(** [{x or '-'}] inside an f-string, for [x = data.get(k)]. *)
Definition or_dash (py : python) (o : option value) : str :=
  match o with
  | Some v => if truthy v then format py v else s_dash
  | None => s_dash
  end.

(** The block that [Chat.format_response] adds for the document [data]
    at index [i] of a selection. *)
Definition render_document (py : python) (collection : str) (i : nat)
    (data : dict value) : result str :=
  let number := format py (VInt (Z.of_nat (i + 1))) ++ lit "." ++ nl in
  if Str.eqb collection s_appartments then
    Ok (number
        ++ lit "Адреса: " ++ or_dash py (get s_address data) ++ nl
        ++ lit "Ціна: " ++ or_dash py (get s_price data) ++ nl
        ++ lit "Опис: " ++ or_dash py (get s_description data) ++ nl
        ++ lit "Рієлтор: " ++ or_dash py (get s_fullname data) ++ nl
        ++ lit "Час публікації: " ++ or_dash py (get s_timestamp data)
        ++ nl ++ nl)
  else if Str.eqb collection s_workers then
    Ok (number
        ++ lit "Рієлтор: " ++ or_dash py (get s_fullname data) ++ nl
        ++ lit "Опис: " ++ or_dash py (get s_description data) ++ nl
        ++ lit "Рейтинг: " ++ or_dash py (get s_level data) ++ nl ++ nl)
  else if Str.eqb collection s_requests then
    Ok (number
        ++ lit "Адреса: " ++ or_dash py (get s_address data) ++ nl
        ++ lit "Ціна: " ++ or_dash py (get s_price data) ++ nl
        ++ lit "Опис: " ++ or_dash py (get s_description data) ++ nl
        ++ lit "Замовник: " ++ or_dash py (get s_fullname data) ++ nl
        ++ lit "Час запиту: " ++ or_dash py (get s_timestamp data)
        ++ nl ++ nl)
  else Err (UnknownRenderTargetError UnknownCollection).

(** The loop [for i, data in enumerate(result)] over the documents still
    to render, [text] being the text so far. *)
Fixpoint render_loop (py : python) (collection : str) (i : nat)
    (docs : list (dict value)) (text : str) : result str :=
  match docs with
  | [] => Ok text
  | data :: docs' =>
      block <- render_document py collection i data ;;
      render_loop py collection (S i) docs' (text ++ block)
  end.

(** [Chat.format_response].  A result of the wrong shape fails where
    Python fails: a selection iterates over [result], an insertion
    outside [requests] reads [result.inserted_id]. *)
Definition format_response (py : python) (res : db_result)
    (collection func : str) : result str :=
  if Str.eqb func s_select then
    match res with
    | Cursor docs =>
        render_loop py collection 0 docs
          (lit "Було знайдено наступні дані:" ++ nl ++ nl)
    | InsertOneResult _ => Err (Builtin TypeError)
    end
  else if Str.eqb func s_insert then
    if Str.eqb collection s_requests then
      Ok (lit "Ваш запит було успішно опрацьовано! З вами зв'яжуться протягом робочого дня."
          ++ nl)
    else
      match res with
      | InsertOneResult inserted_id =>
          Ok (lit "Було успішно внесено запит у колекцію " ++ collection
              ++ lit " з ідентифікатором " ++ format py inserted_id ++ nl)
      | Cursor _ => Err (Builtin AttributeError)
      end
  else Err (UnknownRenderTargetError UnknownOperation).

(** The body of the [try] block of [main] for one normalized query. *)
Definition answer (py : python) (self : Chat) (db : Database)
    (role : str) (normalized : list str) : result str :=
  parts <- split_on_parts py self normalized ;;
  let fields := fst parts in
  let verb := fst (snd parts) in
  let search_word := snd (snd parts) in
  fields <- split_fields self fields ;;
  r <- make_query py self db role verb search_word fields ;;
  format_response py (fst (fst r)) (snd (fst r)) (snd r).

(* ================================================================== *)
(** * Function [main] *)

(** What [main] does at the terminal, in order: a call of [input] with
    its prompt, a call of [print] with its text. *)
Inductive event : Type :=
| Input (prompt : str)
| Print (text : str).

(** How [main] ends: it returns after a quit query, the role check
    raises its [ValueError], or [input] raises [EOFError] because no
    line is left to read. *)
Inductive ending : Type :=
| Finished
| RoleError
| EndOfInput.

Definition s_prompt := lit "Введіть запит: ".
Definition s_goodbye := lit "До побачення!".
Definition s_greeting :=
  lit "Вітаємо в тестовому боті для операцій з нерухомістю".
Definition s_error := lit "Помилка: ".

(** The text printed for a query that is not a quit query: the [try]
    block with its [except] clause. *)
Definition respond (py : python) (self : Chat) (db : Database)
    (role : str) (normalized : list str) : str :=
  match answer py self db role normalized with
  | Ok text => text
  | Err ex_ => s_error ++ message ex_
  end.

(** The [while True] loop of [main] over the lines that [input] will
    return. *)
Fixpoint main_loop (py : python) (self : Chat) (db : Database)
    (role : str) (lines : list str) : list event * ending :=
  match lines with
  | [] => ([Input s_prompt], EndOfInput)
  | text :: rest =>
      let normalized := normalize self text in
      if is_quit self normalized
      then ([Input s_prompt; Print s_goodbye], Finished)
      else
        let (events, e) := main_loop py self db role rest in
        (Input s_prompt :: Print (respond py self db role normalized)
           :: events, e)
  end.

(** [main], for the role given on the command line. *)
Definition main (py : python) (self : Chat) (db : Database)
    (role : str) (lines : list str) : list event * ending :=
  if negb (mem role [s_customer; s_realtor]) then ([], RoleError)
  else
    let (events, e) := main_loop py self db role lines in
    (Print s_greeting :: events, e).

(* ================================================================== *)
(** * Notions used to state the properties *)

(** [old] occurs in [s]. *)
Fixpoint occurs (old s : str) : bool :=
  prefixb old s
  || match s with
     | [] => false
     | _ :: t => occurs old t
     end.

(** The positions at which [old] occurs in [s], counted from [i]. *)
Fixpoint positions (old s : str) (i : nat) : list nat :=
  (if prefixb old s then [i] else [])
  ++ match s with
     | [] => []
     | _ :: t => positions old t (S i)
     end.

(** The substring that [split_on_parts] takes as the action phrase:
    [re.search(self._search_action, joined_sentence).group(0)]. *)
Definition action_phrase (py : python) (self : Chat)
    (splited_sentence : list str) : option str :=
  let joined_sentence := join [space] splited_sentence in
  option_map (Re.group0 joined_sentence)
    (Re.search (_search_action py self) joined_sentence).

(** The whitespace-delimited tokens of [s], as the specification words
    them: the maximal stretches of [s] without a whitespace character
    ([s.split()]). *)
Definition whitespace_tokens (py : python) (s : str) : list str :=
  Re.findall_class_plus (fun c => negb (space_char py c)) s.

(** [f] can stand between the verb and the action word: at most twenty
    word or whitespace characters. *)
Definition filler (py : python) (f : str) : Prop :=
  List.length f <= 20
  /\ forallb (fun c => word_char py c || space_char py c) f = true.

(** Behind a match of the verb fragment, [s] completes a match of
    [self._search_action]: it begins with a filler and a match of the
    action-word fragment. *)
Definition completes (py : python) (self : Chat) (s : str) : Prop :=
  exists f a post,
    s = f ++ a ++ post
    /\ filler py f
    /\ Re.matches (raction_words (_patterns self)) a.

(** The sentence [pre ++ (v ++ f ++ a) ++ post] is cut at the first
    match of [self._search_action]: [v] matches the verb fragment, [f] is
    a filler and [a] matches the action-word fragment; no match starts
    further left; at that position [v] is the first match of the verb
    fragment, in the order in which the engine tries them, that can be
    completed; behind it the filler is the longest that an action word
    can follow; and [a] is the first match of the action-word fragment
    behind the filler. *)
Definition first_match (py : python) (self : Chat) (pre v f a post : str)
    : Prop :=
  Re.matches (rverbs (_patterns self)) v
  /\ filler py f
  /\ Re.matches (raction_words (_patterns self)) a
  /\ (forall pre' m' post',
        pre ++ (v ++ f ++ a) ++ post = pre' ++ m' ++ post' ->
        Re.matches (_search_action py self) m' ->
        List.length pre <= List.length pre')
  /\ (exists earlier later,
        Re.ends (rverbs (_patterns self)) (v ++ f ++ a ++ post)
        = earlier ++ List.length v :: later
        /\ forall n, In n earlier ->
                     ~ completes py self (skipn n (v ++ f ++ a ++ post)))
  /\ (forall f' a' post',
        f ++ a ++ post = f' ++ a' ++ post' ->
        filler py f' ->
        Re.matches (raction_words (_patterns self)) a' ->
        List.length f' <= List.length f)
  /\ (exists later,
        Re.ends (raction_words (_patterns self)) (a ++ post)
        = List.length a :: later).

(** [pieces] are the pieces of [s] between its spaces, the empty ones
    among them. *)
Definition space_pieces (s : str) (pieces : list str) : Prop :=
  pieces <> []
  /\ join [space] pieces = s
  /\ Forall (fun t => ~ In space t) pieces.

(** [gaps] are the stretches of [s] that [s.replace(m, '')] keeps: [s]
    is the stretches joined by copies of [m]; for an [m] that is not
    empty no stretch holds [m], and each deleted copy is the first one
    behind the copy deleted before it.  Nothing is deleted for an empty
    [m] when nothing is put in. *)
Definition deleted_copies (m s : str) (gaps : list str) : Prop :=
  s = join m gaps
  /\ gaps <> []
  /\ (m = [] -> gaps = [s])
  /\ (m <> [] ->
      Forall (fun g => occurs m g = false) gaps
      /\ forall gs1 g gs2,
           gaps = gs1 ++ g :: gs2 -> gs2 <> [] ->
           forall a b, g ++ m = a ++ m ++ b -> b = []).

(** The canonical field name of a field keyword. *)
Definition field_name (self : Chat) (word : str) : str :=
  match get word (field_names (_patterns self)) with
  | Some name => name
  | None => []
  end.

(** The runs of a field-word sequence: each field keyword opens a run
    under its field name, the words up to the next keyword are the run's
    words.  [cur] is the run being read. *)
Fixpoint runs_from (self : Chat) (cur : str * list str) (query : list str)
    : list (str * list str) :=
  match query with
  | [] => [cur]
  | word :: rest =>
      if mem word (field_words (_patterns self))
      then cur :: runs_from self (field_name self word, []) rest
      else runs_from self (fst cur, snd cur ++ [word]) rest
  end.

Definition runs (self : Chat) (query : list str) : list (str * list str) :=
  match query with
  | [] => []
  | word :: rest => runs_from self (field_name self word, []) rest
  end.

(** The words of the runs of field [k], run by run. *)
Definition runs_of (k : str) (rs : list (str * list str)) : list (list str) :=
  map snd (filter (fun r => Str.eqb (fst r) k) rs).

(** The bucket of [k] as the specification words it: every run of [k]
    appended to the bucket, words in input order. *)
Definition appended_in_order (k : str) (rs : list (str * list str))
    : option (list str) :=
  match runs_of k rs with
  | [] => None
  | l => Some (List.concat l)
  end.

(** The bucket of [k] with every later run put in front of the earlier
    ones. *)
Definition later_run_first (k : str) (rs : list (str * list str))
    : option (list str) :=
  match runs_of k rs with
  | [] => None
  | l => Some (List.concat (rev l))
  end.

(** The field of the run that is open at the end of the input. *)
Definition last_field (rs : list (str * list str)) : str :=
  fst (last rs ([], [])).

(** The keys that have a branch of their own in the loop of
    [fix_search_fields]. *)
Definition transformed (k : str) : bool :=
  mem k [s_description; s_fullname; s_address; s_timestamp; s_level;
         s_price].

(** The integers read from the runs of digits of a price bucket. *)
Definition price_runs (py : python) (ws : list str) : list str :=
  Re.findall_class_plus (digit_char py) (join [space] ws).

Definition price_values (py : python) (ws : list str) : list Z :=
  map (int_value py) (price_runs py ws).

(** When the price bucket [ws] is refused with the exception [e]: it
    holds no digit and [min] raises on the empty list, or [int()] raises
    on the first run of digits that is over its limit. *)
Definition price_refused (py : python) (ws : list str) (e : error) : Prop :=
  (price_runs py ws = [] /\ e = Builtin EmptySequence)
  \/ exists before r after,
       price_runs py ws = before ++ r :: after
       /\ (forall r', In r' before -> over_digit_limit py r' = false)
       /\ over_digit_limit py r = true
       /\ e = Builtin (IntegerStringLimit (int_max_str_digits py)
                         (List.length r)).

(** The permission matrix of the specification: the six allowed
    triples of role, operation and collection. *)
Definition permission_matrix : list (str * str * str) :=
  [ (s_customer, s_select, s_appartments);
    (s_customer, s_select, s_workers);
    (s_customer, s_insert, s_requests);
    (s_realtor, s_select, s_requests);
    (s_realtor, s_select, s_appartments);
    (s_realtor, s_insert, s_appartments) ].

Definition allowed (status func collection : str) : bool :=
  existsb
    (fun t => Str.eqb status (fst (fst t)) && Str.eqb func (snd (fst t))
              && Str.eqb collection (snd t))
    permission_matrix.

(** The required field that an insertion into [collection] misses, if
    any: [appartments] needs [address] and [price], [requests] needs
    [fullname]. *)
Definition missing_required (fields : dict (list str)) (collection : str)
    : option required_field :=
  if Str.eqb collection s_appartments
  then if has s_address fields && has s_price fields
       then None else Some PriceAndAddress
  else if Str.eqb collection s_requests
  then if has s_fullname fields then None else Some FullName
  else None.

(** The normalized word list of a bucket as [fix_insertion_fields]
    takes it: nothing for a missing or empty bucket, the normalizer's
    output on the joined words otherwise. *)
Definition normalized_bucket (self : Chat) (k : str)
    (fields : dict (list str)) : list str :=
  match get k fields with
  | Some (w :: ws) => normalize self (join [space] (w :: ws))
  | _ => []
  end.

(* ================================================================== *)
(** * A small instance, for the examples *)

Module Demo.

Definition digit_value (c : char) : option N :=
  if ((48 <=? c) && (c <=? 57))%N then Some (c - 48)%N else None.

(** Latin and Cyrillic letters, digits and the underscore. *)
Definition is_word (c : char) : bool :=
  ((48 <=? c) && (c <=? 57) || (65 <=? c) && (c <=? 90)
   || (97 <=? c) && (c <=? 122) || (c =? 95)
   || (1024 <=? c) && (c <=? 1153) || (1162 <=? c) && (c <=? 1279))%N.

(** The ASCII whitespace and the no-break space U+00A0. *)
Definition is_space (c : char) : bool :=
  ((c =? 32) || (9 <=? c) && (c <=? 13) || (c =? 160))%N.

(** A stand-in for [str()]: words joined by spaces, digits for a
    non-negative number. *)
Definition digits (n : nat) : str :=
  if Nat.ltb n 10 then [N.of_nat (48 + n)]
  else [N.of_nat (48 + n / 10); N.of_nat (48 + n mod 10)].

Definition show (v : value) : str :=
  match v with
  | VList ws => join [space] ws
  | VStr s => s
  | VInt z => digits (Z.to_nat z)
  | _ => lit "{...}"
  end.

Definition py : python := {|
  word_char := is_word;
  space_char := is_space;
  decimal := digit_value;
  int_max_str_digits := 4300;
  format := show;
  today := lit "03.11.26"
|}.

Definition catalog : patterns := {|
  rverbs := Re.Group [Re.Word (lit "показати"); Re.Word (lit "знайти");
                      Re.Word (lit "додати")];
  raction_words := Re.Group [Re.Word (lit "нерухомість");
                             Re.Word (lit "рієлтор"); Re.Word (lit "запит")];
  rquit_verbs := Re.Group [Re.Word (lit "вийти"); Re.Word (lit "завершити")];
  field_words := [lit "ціна"; lit "адреса"; lit "опис"; lit "піб"];
  field_names := [(lit "ціна", s_price); (lit "адреса", s_address);
                  (lit "опис", s_description); (lit "піб", s_fullname)];
  get_verbs := [lit "показати"; lit "знайти"];
  insert_verbs := [lit "додати"];
  realty := [lit "нерухомість"];
  worker := [lit "рієлтор"];
  request := [lit "запит"]
|}.

(** A stand-in for the normalizer: the words of the text. *)
Definition chat : Chat := {|
  _patterns := catalog;
  normalize := fun query => filter nonempty (split space query)
|}.

(** An empty database. *)
Definition db : Database := {|
  find := fun _ _ => [];
  insert_one := fun _ _ => VStr (lit "id1")
|}.

End Demo.

(* ================================================================== *)
(** * Strings and dictionaries: basic facts *)

Lemma eqb_eq (a b : str) : Str.eqb a b = true <-> a = b.
Proof.
  revert b; induction a as [|x a IH]; intros [|y b]; simpl;
    try (split; intro H; [discriminate H || reflexivity | discriminate H || reflexivity]).
  rewrite andb_true_iff, N.eqb_eq, IH. split.
  - intros [-> ->]; reflexivity.
  - intros H; injection H; auto.
Qed.

Lemma eqb_refl (a : str) : Str.eqb a a = true.
Proof. apply eqb_eq; reflexivity. Qed.

Lemma eqb_neq (a b : str) : Str.eqb a b = false <-> a <> b.
Proof.
  split.
  - intros H E. apply eqb_eq in E. congruence.
  - intros H. destruct (Str.eqb a b) eqn:E; [|reflexivity].
    apply eqb_eq in E. contradiction.
Qed.

Lemma eqb_sym (a b : str) : Str.eqb a b = Str.eqb b a.
Proof.
  destruct (Str.eqb b a) eqn:E.
  - apply eqb_eq in E; subst; apply eqb_refl.
  - apply eqb_neq. apply eqb_neq in E. congruence.
Qed.

Lemma mem_In (w : str) (l : list str) : mem w l = true <-> In w l.
Proof.
  unfold mem. rewrite existsb_exists. split.
  - intros [x [Hx E]]. apply eqb_eq in E. subst; assumption.
  - intros H. exists w. split; [assumption | apply eqb_refl].
Qed.

Lemma mem_not_In (w : str) (l : list str) : mem w l = false <-> ~ In w l.
Proof.
  rewrite <- mem_In. destruct (mem w l); split; congruence.
Qed.

Section DictFacts.
Variable V : Type.
Implicit Types (d : dict V) (k : str) (v : V).

Lemma get_update_same k v d : get k (update k v d) = Some v.
Proof.
  induction d as [|[k' v'] d IH]; simpl.
  - rewrite eqb_refl; reflexivity.
  - destruct (Str.eqb k k') eqn:E; simpl; rewrite E; auto.
Qed.

Lemma get_update_other k k' v d :
  k <> k' -> get k' (update k v d) = get k' d.
Proof.
  intros N. induction d as [|[k0 v0] d IH]; simpl.
  - apply eqb_neq in N. rewrite eqb_sym, N. reflexivity.
  - destruct (Str.eqb k k0) eqn:E; simpl.
    + apply eqb_eq in E; subst k0. apply eqb_neq in N.
      rewrite eqb_sym, N. reflexivity.
    + rewrite IH; reflexivity.
Qed.

Lemma get_update k k' v d :
  get k' (update k v d) = if Str.eqb k k' then Some v else get k' d.
Proof.
  destruct (Str.eqb k k') eqn:E.
  - apply eqb_eq in E; subst. apply get_update_same.
  - apply eqb_neq in E. apply get_update_other; assumption.
Qed.

Lemma has_get k d :
  has k d = match get k d with Some _ => true | None => false end.
Proof.
  unfold has, keys, mem. induction d as [|[k' v'] d IH]; simpl.
  - reflexivity.
  - destruct (Str.eqb k k'); simpl; auto.
Qed.

Lemma get_None_keys k d : get k d = None <-> ~ In k (keys d).
Proof.
  rewrite <- mem_not_In. fold (has k d). rewrite has_get.
  destruct (get k d); split; congruence.
Qed.

Lemma keys_update k v d :
  keys (update k v d) = if has k d then keys d else keys d ++ [k].
Proof.
  unfold has, mem, keys. induction d as [|[k' v'] d IH]; simpl.
  - reflexivity.
  - destruct (Str.eqb k k') eqn:E; simpl.
    + reflexivity.
    + rewrite IH. destruct (existsb (Str.eqb k) (map fst d)); reflexivity.
Qed.

Lemma NoDup_update k v d : NoDup (keys d) -> NoDup (keys (update k v d)).
Proof.
  intros H. rewrite keys_update. destruct (has k d) eqn:E.
  - assumption.
  - apply mem_not_In in E.
    apply NoDup_rev in H. rewrite <- (rev_involutive (keys d ++ [k])).
    apply NoDup_rev. rewrite rev_app_distr. simpl. constructor.
    + rewrite <- in_rev. assumption.
    + assumption.
Qed.

Lemma get_remove_other k k' d : k <> k' -> get k' (remove k d) = get k' d.
Proof.
  intros N. induction d as [|[k0 v0] d IH]; simpl.
  - reflexivity.
  - destruct (Str.eqb k k0) eqn:E; simpl.
    + apply eqb_eq in E; subst k0. apply eqb_neq in N.
      rewrite eqb_sym, N. reflexivity.
    + rewrite IH. reflexivity.
Qed.

End DictFacts.

Lemma get_copy (k : str) (fields : dict (list str)) :
  get k (copy fields) = option_map VList (get k fields).
Proof.
  induction fields as [|[k' ws] fields IH]; simpl.
  - reflexivity.
  - destruct (Str.eqb k k'); auto.
Qed.

Lemma keys_copy (fields : dict (list str)) : keys (copy fields) = keys fields.
Proof.
  unfold keys, copy. rewrite map_map. reflexivity.
Qed.

Lemma bind_Ok (A B : Type) (m : result A) (k : A -> result B) (b : B) :
  bind m k = Ok b -> exists a, m = Ok a /\ k a = Ok b.
Proof.
  destruct m as [a|e]; simpl; intros H; [eauto | discriminate].
Qed.

(** Closed boolean tests on the constants of the source are decided by
    evaluation. *)
Ltac eval_tests :=
  repeat match goal with
         | |- context [if ?c then _ else _] =>
             let v := eval vm_compute in c in
             match v with
             | true => change c with true
             | false => change c with false
             end; cbv iota
         end.

(* ================================================================== *)
(** * The Field Classifier: the order of the words *)

(** C9.  [split_fields] raises [MalformedQueryError] on every non-empty
    sequence whose first word is not a field keyword: the word would go
    into the open bucket, and no bucket is open.  On the empty sequence
    it returns the empty bucket map. *)
Theorem split_fields_needs_keyword_first
    (self : Chat) (word : str) (rest : list str) :
  mem word (field_words (_patterns self)) = false ->
  split_fields self (word :: rest) = Err MalformedQueryError
  /\ split_fields self [] = Ok [].
Proof.
  intros H. split.
  - unfold split_fields. simpl. rewrite H. reflexivity.
  - reflexivity.
Qed.

Lemma split_fields_needs_keyword_first_witness :
  split_fields Demo.chat [lit "вулиця"; lit "ціна"; lit "100"]
    = Err MalformedQueryError
  /\ split_fields Demo.chat [] = Ok [].
Proof.
  apply (split_fields_needs_keyword_first Demo.chat (lit "вулиця")
           [lit "ціна"; lit "100"]).
  vm_compute. reflexivity.
Defined.

(** The loop reads the runs: it ends with the last run open and the
    runs before it committed, in order. *)
Lemma split_fields_loop_runs (self : Chat) (query : list str) :
  forall fields cur st,
    split_fields_loop self query fields (Some cur) = Ok st ->
    exists done open,
      runs_from self cur query = done ++ [open]
      /\ snd st = Some open
      /\ fst st = fold_left (fun f r => commit r f) done fields.
Proof.
  induction query as [|word rest IH]; intros fields cur st H; simpl in H.
  - injection H as <-. exists [], cur. simpl. auto.
  - simpl. unfold field_name.
    destruct (mem word (field_words (_patterns self))).
    + destruct (get word (field_names (_patterns self))) as [name|];
        [|discriminate H].
      destruct (IH _ _ _ H) as (done & open & E1 & E2 & E3).
      exists (cur :: done), open. rewrite E1. simpl. auto.
    + destruct (IH _ _ _ H) as (done & open & E1 & E2 & E3).
      exists done, open. auto.
Qed.

Lemma runs_of_cons (k : str) (r : str * list str) (rs : list (str * list str)) :
  runs_of k (r :: rs)
  = if Str.eqb (fst r) k then snd r :: runs_of k rs else runs_of k rs.
Proof.
  unfold runs_of. simpl. destruct (Str.eqb (fst r) k); reflexivity.
Qed.

Lemma runs_of_app (k : str) (rs rs' : list (str * list str)) :
  runs_of k (rs ++ rs') = runs_of k rs ++ runs_of k rs'.
Proof.
  unfold runs_of. rewrite filter_app, map_app. reflexivity.
Qed.

(** A bucket after the commit of a list of runs: the runs of its field,
    the latest first, in front of what the bucket held before. *)
Lemma get_commit_all (k : str) (done : list (str * list str)) :
  forall fields,
    get k (fold_left (fun f r => commit r f) done fields)
    = match runs_of k done with
      | [] => get k fields
      | l => Some (List.concat (rev l)
                   ++ match get k fields with Some b => b | None => [] end)
      end.
Proof.
  induction done as [|r done IH]; intros fields; simpl.
  - reflexivity.
  - rewrite IH, runs_of_cons. unfold commit. rewrite get_update.
    destruct (Str.eqb (fst r) k) eqn:E.
    + apply eqb_eq in E. subst k.
      destruct (runs_of (fst r) done) as [|l0 l]; simpl.
      * rewrite app_nil_r. reflexivity.
      * rewrite !concat_app. simpl. rewrite app_nil_r, <- !app_assoc.
        reflexivity.
    + reflexivity.
Qed.

Lemma NoDup_commit_all (done : list (str * list str)) :
  forall fields,
    NoDup (keys fields) ->
    NoDup (keys (fold_left (fun f r => commit r f) done fields)).
Proof.
  induction done as [|r done IH]; intros fields H; simpl.
  - assumption.
  - apply IH. unfold commit. apply NoDup_update. assumption.
Qed.

(** What an accepted sequence leaves: the runs before the last one
    committed, and the last run written over its field. *)
Lemma split_fields_runs (self : Chat) (query : list str) (fields : dict (list str)) :
  split_fields self query = Ok fields ->
  query = [] /\ fields = []
  \/ exists done open,
       runs self query = done ++ [open]
       /\ fields = update (fst open) (snd open)
                     (fold_left (fun f r => commit r f) done []).
Proof.
  unfold split_fields. intros H.
  destruct query as [|word rest].
  - left. simpl in H. injection H as <-. auto.
  - right. apply bind_Ok in H. destruct H as (st & H & E).
    simpl in H.
    destruct (mem word (field_words (_patterns self))); [|discriminate H].
    simpl. unfold field_name.
    destruct (get word (field_names (_patterns self))) as [name|];
      [|discriminate H].
    destruct (split_fields_loop_runs _ _ _ _ H) as (done & open & E1 & E2 & E3).
    exists done, open. split; [assumption|].
    rewrite E2 in E. injection E as <-. rewrite E3. reflexivity.
Qed.

(** C2, as the code has it.  In the map that [split_fields] returns
    every field name occurs once.  A bucket committed at a later field
    keyword is merged with the bucket the map already holds for that
    name, the words of the later run in front: every bucket whose field
    is not the one open at the end of the input, or has no run before
    the last one, holds all the words of all its runs, the runs from the
    last to the first and the words of each run in input order; a field
    without a run has no bucket.  The bucket of the field open at the
    end of the input begins with the words of its last run, in input
    order. *)
Theorem split_fields_buckets
    (self : Chat) (query : list str) (fields : dict (list str)) :
  split_fields self query = Ok fields ->
  NoDup (keys fields)
  /\ (forall k,
        k <> last_field (runs self query)
        \/ runs_of k (removelast (runs self query)) = [] ->
        get k fields = later_run_first k (runs self query))
  /\ (query <> [] ->
      exists rest,
        get (last_field (runs self query)) fields
        = Some (snd (last (runs self query) ([], [])) ++ rest)).
Proof.
  intros H. apply split_fields_runs in H.
  destruct H as [[-> ->] | (done & open & E & ->)].
  - split; [constructor|]. split; [reflexivity | congruence].
  - rewrite E. unfold last_field. rewrite last_last, removelast_last.
    split; [|split].
    + apply NoDup_update, NoDup_commit_all. constructor.
    + intros k Hk. unfold later_run_first.
      rewrite runs_of_app, runs_of_cons.
      destruct (Str.eqb (fst open) k) eqn:Ek.
      * apply eqb_eq in Ek. subst k.
        destruct Hk as [Hk | Hk]; [congruence|].
        rewrite Hk, get_update_same. simpl. rewrite app_nil_r.
        reflexivity.
      * apply eqb_neq in Ek.
        rewrite get_update_other by congruence.
        rewrite get_commit_all. simpl. rewrite app_nil_r.
        destruct (runs_of k done); [reflexivity|].
        rewrite app_nil_r. reflexivity.
    + intros _. exists []. rewrite app_nil_r. apply get_update_same.
Qed.

Lemma split_fields_buckets_witness :
  let query := [lit "ціна"; lit "100"; lit "адреса"; lit "вул";
                lit "ціна"; lit "200"; lit "опис"; lit "x"; lit "y"] in
  exists fields,
    split_fields Demo.chat query = Ok fields
    /\ NoDup (keys fields)
    /\ get s_price fields = Some [lit "200"; lit "100"]
    /\ get s_description fields = Some [lit "x"; lit "y"].
Proof.
  intros query.
  eexists. split; [vm_compute; reflexivity|].
  match goal with
  | |- NoDup (keys ?f) /\ _ =>
      destruct (@split_fields_buckets Demo.chat query f eq_refl)
        as (H1 & H2 & H3)
  end.
  split; [exact H1|]. split.
  - rewrite H2.
    + vm_compute. reflexivity.
    + left. vm_compute. discriminate.
  - rewrite H2.
    + vm_compute. reflexivity.
    + right. vm_compute. reflexivity.
Defined.

(** C2, as the claim words it, fails: a run met again is not appended
    behind the bucket.  With [price] given twice and another field
    after it, the second number comes first. *)
Lemma split_fields_not_appended_in_order :
  ~ (forall query fields k,
        split_fields Demo.chat query = Ok fields ->
        get k fields = appended_in_order k (runs Demo.chat query)).
Proof.
  intros H.
  specialize (H [lit "ціна"; lit "100"; lit "адреса"; lit "вул";
                 lit "ціна"; lit "200"; lit "опис"; lit "x"]
                _ s_price eq_refl).
  vm_compute in H. discriminate H.
Qed.

(** The bucket of the field open at the end of the input holds the last
    run alone: the final commit writes the run over the bucket. *)
Lemma split_fields_last_bucket
    (self : Chat) (query : list str) (fields : dict (list str)) :
  split_fields self query = Ok fields -> query <> [] ->
  get (last_field (runs self query)) fields
  = Some (snd (last (runs self query) ([], []))).
Proof.
  intros H Hq. apply split_fields_runs in H.
  destruct H as [[-> ->] | (done & open & E & ->)]; [congruence|].
  unfold last_field. rewrite E, last_last. apply get_update_same.
Qed.

Example split_fields_last_run_overwrites :
  split_fields Demo.chat
    [lit "ціна"; lit "100"; lit "адреса"; lit "вул"; lit "ціна"; lit "200"]
  = Ok [(s_price, [lit "200"]); (s_address, [lit "вул"])].
Proof. vm_compute. reflexivity. Qed.

(* ================================================================== *)
(** * The Field Transformer, insertion mode *)

(** Two constants of the source differ. *)
Ltac differ := let H := fresh in intro H; vm_compute in H; discriminate H.

(** A lookup behind updates under constant keys. *)
Ltac lookup := repeat (rewrite get_update; eval_tests); rewrite ?get_copy.

Lemma count_present_two (a b : str) (fields : dict (list str)) :
  Nat.eqb (count_present [a; b] fields) 2 = has a fields && has b fields.
Proof.
  unfold count_present. simpl.
  destruct (has a fields), (has b fields); reflexivity.
Qed.

Lemma count_present_one (a : str) (fields : dict (list str)) :
  Nat.eqb (count_present [a] fields) 1 = has a fields.
Proof.
  unfold count_present. simpl. destruct (has a fields); reflexivity.
Qed.

(** C4.  [fix_insertion_fields] raises [MissingRequiredFieldError] and
    builds no document when the collection is [appartments] and
    [address] or [price] is not a key of the field map, and when the
    collection is [requests] and [fullname] is not a key; in every other
    case it returns a document. *)
Theorem fix_insertion_fields_required
    (py : python) (self : Chat) (fields : dict (list str)) (collection : str) :
  match missing_required fields collection with
  | Some what =>
      fix_insertion_fields py self fields collection
      = Err (MissingRequiredFieldError what)
  | None =>
      exists doc, fix_insertion_fields py self fields collection = Ok doc
  end.
Proof.
  unfold missing_required, fix_insertion_fields.
  rewrite count_present_two, count_present_one.
  destruct (Str.eqb collection s_appartments) eqn:Ea.
  - apply eqb_eq in Ea. subst collection.
    destruct (has s_address fields && has s_price fields); simpl.
    + eval_tests.
      destruct (store_normalized self s_description (copy fields)) as [d nf].
      destruct (store_normalized self s_address nf) as [a nf'].
      eexists. reflexivity.
    + reflexivity.
  - simpl. destruct (Str.eqb collection s_requests); simpl.
    + destruct (has s_fullname fields); simpl.
      * destruct (store_normalized self s_description (copy fields)) as [d nf].
        destruct (store_normalized self s_address nf) as [a nf'].
        eexists. reflexivity.
      * reflexivity.
    + destruct (store_normalized self s_description (copy fields)) as [d nf].
      destruct (store_normalized self s_address nf) as [a nf'].
      eexists. reflexivity.
Qed.

Example fix_insertion_fields_without_price :
  fix_insertion_fields Demo.py Demo.chat
    [(s_address, [lit "вулиця"; lit "шевченка"])] s_appartments
  = Err (MissingRequiredFieldError PriceAndAddress).
Proof. vm_compute. reflexivity. Qed.

Example fix_insertion_fields_without_fullname :
  fix_insertion_fields Demo.py Demo.chat
    [(s_address, [lit "вулиця"])] s_requests
  = Err (MissingRequiredFieldError FullName).
Proof. vm_compute. reflexivity. Qed.

(** The document of a successful insertion-mode transformation. *)
Lemma fix_insertion_fields_Ok
    (py : python) (self : Chat) (fields : dict (list str)) (collection : str)
    (doc : dict value) :
  fix_insertion_fields py self fields collection = Ok doc ->
  doc =
    let (description, nfields) :=
      store_normalized self s_description (copy fields) in
    let (address, nfields) := store_normalized self s_address nfields in
    update s_timestamp (VStr (today py))
      match description ++ address with
      | [] => nfields
      | _ :: _ => update s_tags (VList (description ++ address)) nfields
      end.
Proof.
  unfold fix_insertion_fields. intros H.
  destruct (Str.eqb collection s_appartments
            && negb (Nat.eqb (count_present [s_address; s_price] fields) 2));
    [discriminate H|].
  destruct (Str.eqb collection s_requests
            && negb (Nat.eqb (count_present [s_fullname] fields) 1));
    [discriminate H|].
  destruct (store_normalized self s_description (copy fields)) as [d nf].
  destruct (store_normalized self s_address nf) as [a nf'].
  injection H as <-. reflexivity.
Qed.

(** C6, as the code has it.  When the description bucket and the
    address bucket both hold words, the normalized description is
    stored under [norm_description] first, the normalized address is
    stored under the same key after it, and the document carries the
    normalized address there. *)
Theorem fix_insertion_fields_norm_description
    (py : python) (self : Chat) (fields : dict (list str)) (collection : str)
    (doc : dict value) (d a : list str) :
  get s_description fields = Some d -> d <> [] ->
  get s_address fields = Some a -> a <> [] ->
  fix_insertion_fields py self fields collection = Ok doc ->
  get s_norm_description
      (snd (store_normalized self s_description (copy fields)))
    = Some (VList (normalize self (join [space] d)))
  /\ get s_norm_description doc
     = Some (VList (normalize self (join [space] a))).
Proof.
  intros Hd Nd Ha Na H. apply fix_insertion_fields_Ok in H. subst doc.
  unfold store_normalized. rewrite get_copy, Hd.
  destruct d as [|d0 d]; [congruence|].
  cbn [option_map or_empty snd].
  set (nd := normalize self (join [space] (d0 :: d))).
  split; [apply get_update_same|].
  rewrite get_update; eval_tests. rewrite get_copy, Ha.
  destruct a as [|a0 a]; [congruence|].
  cbn [option_map or_empty].
  set (na := normalize self (join [space] (a0 :: a))).
  destruct (nd ++ na); lookup; reflexivity.
Qed.

Lemma fix_insertion_fields_norm_description_witness :
  let d := [lit "гарна"; lit "квартира"] in
  let a := [lit "вулиця"; lit "шевченка"] in
  let fields := [(s_address, a); (s_price, [lit "100"]); (s_description, d)] in
  exists doc,
    fix_insertion_fields Demo.py Demo.chat fields s_appartments = Ok doc
    /\ get s_norm_description doc
       = Some (VList (normalize Demo.chat (join [space] a))).
Proof.
  intros d a fields. eexists. split; [vm_compute; reflexivity|].
  apply (fun p1 p2 p3 p4 p5 =>
           proj2 (@fix_insertion_fields_norm_description Demo.py Demo.chat
                    fields s_appartments _ d a p1 p2 p3 p4 p5)).
  - vm_compute. reflexivity.
  - discriminate.
  - vm_compute. reflexivity.
  - discriminate.
  - vm_compute. reflexivity.
Defined.

(** C6, as the claim words it, fails: an address bucket that is present
    and empty is skipped, and the normalized description stays under
    [norm_description]. *)
Lemma norm_description_not_address_when_empty :
  ~ (forall fields collection doc d a,
        get s_description fields = Some d ->
        get s_address fields = Some a ->
        fix_insertion_fields Demo.py Demo.chat fields collection = Ok doc ->
        get s_norm_description doc
        = Some (VList (normalize Demo.chat (join [space] a)))).
Proof.
  intros H.
  specialize (H [(s_address, []); (s_price, [lit "100"]);
                 (s_description, [lit "гарна"])]
                s_appartments _ [lit "гарна"] []
                eq_refl eq_refl eq_refl).
  vm_compute in H. discriminate H.
Qed.

(** The field words that leave an empty address bucket. *)
Example split_fields_empty_bucket :
  split_fields Demo.chat
    [lit "адреса"; lit "ціна"; lit "100"; lit "опис"; lit "гарна"]
  = Ok [(s_address, []); (s_price, [lit "100"]);
        (s_description, [lit "гарна"])].
Proof. vm_compute. reflexivity. Qed.

Lemma get_normalized (self : Chat) (k : str) (nfields : dict value)
    (fields : dict (list str)) :
  get k nfields = option_map VList (get k fields) ->
  store_normalized self k nfields
  = match get k fields with
    | Some (_ :: _) =>
        (normalized_bucket self k fields,
         update s_norm_description
           (VList (normalized_bucket self k fields)) nfields)
    | _ => ([], nfields)
    end.
Proof.
  intros E. unfold store_normalized, normalized_bucket. rewrite E.
  destruct (get k fields) as [[|w ws]|]; reflexivity.
Qed.

(** C7, as the code has it.  The document's [tags] field is the
    normalized description words followed by the normalized address
    words whenever this list is not empty; when it is empty no [tags]
    field is written, and the document has one only if the field map
    brought a [tags] bucket of its own, which is kept. *)
Theorem fix_insertion_fields_tags
    (py : python) (self : Chat) (fields : dict (list str)) (collection : str)
    (doc : dict value) :
  fix_insertion_fields py self fields collection = Ok doc ->
  get s_tags doc
  = match normalized_bucket self s_description fields
          ++ normalized_bucket self s_address fields with
    | [] => option_map VList (get s_tags fields)
    | tags => Some (VList tags)
    end.
Proof.
  intros H. apply fix_insertion_fields_Ok in H. subst doc.
  assert (forall (nd : list str) (nf : dict value),
             get s_address nf = option_map VList (get s_address fields) ->
             get s_tags nf = option_map VList (get s_tags fields) ->
             get s_tags
               (let (address, nfields) := store_normalized self s_address nf in
                update s_timestamp (VStr (today py))
                  match nd ++ address with
                  | [] => nfields
                  | _ :: _ => update s_tags (VList (nd ++ address)) nfields
                  end)
             = match nd ++ normalized_bucket self s_address fields with
               | [] => option_map VList (get s_tags fields)
               | tags => Some (VList tags)
               end) as Step.
  { intros nd nf Ea Et. rewrite (@get_normalized self s_address nf fields Ea).
    unfold normalized_bucket.
    destruct (get s_address fields) as [[|w ws]|].
    - rewrite app_nil_r. destruct nd; lookup; auto.
    - set (na := normalize self (join [space] (w :: ws))).
      destruct (nd ++ na); lookup; auto.
    - rewrite app_nil_r. destruct nd; lookup; auto. }
  rewrite (@get_normalized self s_description (copy fields) fields)
    by apply get_copy.
  destruct (get s_description fields) as [[|w ws]|] eqn:Ed.
  - assert (normalized_bucket self s_description fields = []) as ->
        by (unfold normalized_bucket; rewrite Ed; reflexivity).
    apply Step; apply get_copy.
  - apply Step; lookup; reflexivity.
  - assert (normalized_bucket self s_description fields = []) as ->
        by (unfold normalized_bucket; rewrite Ed; reflexivity).
    apply Step; apply get_copy.
Qed.

Lemma fix_insertion_fields_tags_witness :
  let fields := [(s_address, [lit "вулиця"; lit "шевченка"]);
                 (s_price, [lit "100"]);
                 (s_description, [lit "гарна"; lit "квартира"])] in
  exists doc,
    fix_insertion_fields Demo.py Demo.chat fields s_appartments = Ok doc
    /\ get s_tags doc
       = Some (VList [lit "гарна"; lit "квартира";
                      lit "вулиця"; lit "шевченка"]).
Proof.
  intros fields. eexists. split; [vm_compute; reflexivity|].
  match goal with
  | |- get _ ?doc = _ =>
      rewrite (@fix_insertion_fields_tags Demo.py Demo.chat
                 fields s_appartments doc eq_refl)
  end.
  vm_compute. reflexivity.
Defined.

(** C7, as the claim words it, fails where the field map holds a
    [tags] bucket: with nothing to normalize the bucket is passed on,
    and the document has a [tags] field. *)
Lemma tags_not_omitted_when_supplied :
  ~ (forall fields collection doc,
        fix_insertion_fields Demo.py Demo.chat fields collection = Ok doc ->
        get s_tags doc
        = match normalized_bucket Demo.chat s_description fields
                ++ normalized_bucket Demo.chat s_address fields with
          | [] => None
          | tags => Some (VList tags)
          end).
Proof.
  intros H.
  specialize (H [(s_fullname, [lit "іван"]); (s_tags, [lit "терміново"])]
                s_requests _ eq_refl).
  vm_compute in H. discriminate H.
Qed.

(* ================================================================== *)
(** * The Intent Resolver *)

(** The transformers raise their own errors only. *)
Lemma bind_builtin (A B : Type) (m : result A) (k : A -> result B) (e : error) :
  (forall e', m = Err e' -> exists b, e' = Builtin b) ->
  (forall a e', k a = Err e' -> exists b, e' = Builtin b) ->
  bind m k = Err e -> exists b, e = Builtin b.
Proof.
  destruct m as [a|e0]; simpl; intros H1 H2 H.
  - eapply H2. eassumption.
  - injection H as <-. eapply H1. reflexivity.
Qed.

Lemma item_list_error (k : str) (d : dict value) (e : error) :
  item_list k d = Err e -> exists b, e = Builtin b.
Proof.
  unfold item_list. destruct (get k d) as [[]|]; intros H;
    try discriminate H; injection H as <-; eauto.
Qed.

Lemma item_error (k : str) (d : dict value) (e : error) :
  item k d = Err e -> exists b, e = Builtin b.
Proof.
  unfold item. destruct (get k d); intros H;
    try discriminate H; injection H as <-; eauto.
Qed.

Lemma py_min_error (l : list Z) (e : error) :
  py_min l = Err e -> exists b, e = Builtin b.
Proof.
  destruct l; simpl; intros H; try discriminate H; injection H as <-; eauto.
Qed.

Lemma py_max_error (l : list Z) (e : error) :
  py_max l = Err e -> exists b, e = Builtin b.
Proof.
  destruct l; simpl; intros H; try discriminate H; injection H as <-; eauto.
Qed.

(** [int()] on a run of digits: the guard on its length, or the number. *)
Lemma int_within (py : python) (r : str) :
  over_digit_limit py r = false -> int py r = Ok (int_value py r).
Proof.
  unfold int. intros ->. reflexivity.
Qed.

Lemma int_over (py : python) (r : str) :
  over_digit_limit py r = true ->
  int py r = Err (Builtin (IntegerStringLimit (int_max_str_digits py)
                             (List.length r))).
Proof.
  unfold int. intros ->. reflexivity.
Qed.

Lemma int_Ok (py : python) (r : str) (z : Z) :
  int py r = Ok z -> over_digit_limit py r = false /\ z = int_value py r.
Proof.
  unfold int. destruct (over_digit_limit py r); intros H.
  - discriminate H.
  - injection H as <-. split; reflexivity.
Qed.

Lemma int_Err (py : python) (r : str) (e : error) :
  int py r = Err e ->
  over_digit_limit py r = true
  /\ e = Builtin (IntegerStringLimit (int_max_str_digits py) (List.length r)).
Proof.
  unfold int. destruct (over_digit_limit py r); intros H.
  - injection H as <-. split; reflexivity.
  - discriminate H.
Qed.

(** The comprehension over the digit runs converts every run, or stops
    at the first run over the limit. *)
Lemma comprehension_int_within (py : python) (l : list str) :
  (forall r, In r l -> over_digit_limit py r = false) ->
  comprehension (int py) l = Ok (map (int_value py) l).
Proof.
  induction l as [|r l IH]; intros H; simpl.
  - reflexivity.
  - rewrite (@int_within py r) by (apply H; left; reflexivity).
    simpl. rewrite IH by (intros r' I; apply H; right; exact I).
    reflexivity.
Qed.

Lemma comprehension_int_Ok (py : python) (l : list str) :
  forall vs, comprehension (int py) l = Ok vs ->
    vs = map (int_value py) l
    /\ (forall r, In r l -> over_digit_limit py r = false).
Proof.
  induction l as [|r l IH]; intros vs H; simpl in H.
  - injection H as <-. split; [reflexivity | intros r []].
  - destruct (int py r) as [z|e] eqn:E; simpl in H; [|discriminate H].
    destruct (comprehension (int py) l) as [zs|e] eqn:E';
      simpl in H; [|discriminate H].
    injection H as <-. apply int_Ok in E. destruct E as [Ho ->].
    destruct (IH zs eq_refl) as [-> Hl]. split; [reflexivity|].
    intros r' [<-|I]; [exact Ho | apply Hl; exact I].
Qed.

Lemma comprehension_int_Err (py : python) (l : list str) (e : error) :
  comprehension (int py) l = Err e <->
  exists before r after,
    l = before ++ r :: after
    /\ (forall r', In r' before -> over_digit_limit py r' = false)
    /\ over_digit_limit py r = true
    /\ e = Builtin (IntegerStringLimit (int_max_str_digits py)
                      (List.length r)).
Proof.
  split.
  - induction l as [|r l IH]; intros H; simpl in H.
    + discriminate H.
    + destruct (int py r) as [z|e'] eqn:E; simpl in H.
      * destruct (comprehension (int py) l) as [zs|e''] eqn:E';
          simpl in H; [discriminate H|].
        injection H as <-. apply int_Ok in E. destruct E as [Ho _].
        destruct (IH eq_refl) as (before & r' & after & -> & Hb & Hr & He).
        exists (r :: before), r', after. repeat split; try assumption.
        intros x [<-|I]; [exact Ho | apply Hb; exact I].
      * injection H as <-. apply int_Err in E. destruct E as [Ho ->].
        exists [], r, l. repeat split; try assumption. intros x [].
  - intros (before & r & after & -> & Hb & Hr & ->).
    induction before as [|b before IH]; simpl.
    + rewrite (@int_over py r Hr). reflexivity.
    + rewrite (@int_within py b) by (apply Hb; left; reflexivity).
      simpl. rewrite IH by (intros x I; apply Hb; right; exact I).
      reflexivity.
Qed.

Lemma comprehension_int_error (py : python) (l : list str) (e : error) :
  comprehension (int py) l = Err e -> exists b, e = Builtin b.
Proof.
  intros H. apply comprehension_int_Err in H.
  destruct H as (_ & r & _ & _ & _ & _ & ->). eauto.
Qed.

Lemma search_step_error (py : python) (k : str) (nfields : dict value) (e : error) :
  search_step py k nfields = Err e -> exists b, e = Builtin b.
Proof.
  unfold search_step. cbv zeta.
  destruct (Str.eqb k s_description).
  { eapply bind_builtin; [apply item_list_error | discriminate]. }
  destruct (Str.eqb k s_fullname).
  { eapply bind_builtin; [apply item_list_error | discriminate]. }
  destruct (Str.eqb k s_address).
  { eapply bind_builtin; [apply item_list_error | discriminate]. }
  destruct (mem k [s_timestamp; s_level]).
  { eapply bind_builtin; [apply item_error | discriminate]. }
  destruct (Str.eqb k s_price).
  { eapply bind_builtin; [apply item_list_error|]. intros ws e'.
    eapply bind_builtin; [apply comprehension_int_error|]. intros values e0.
    eapply bind_builtin; [apply py_min_error|]. intros lo e''.
    eapply bind_builtin; [apply py_max_error | discriminate]. }
  discriminate.
Qed.

Lemma search_loop_error (py : python) (ks : list str) :
  forall (nfields : dict value) (e : error),
    search_loop py ks nfields = Err e -> exists b, e = Builtin b.
Proof.
  induction ks as [|k ks IH]; intros nfields e H; simpl in H.
  - discriminate H.
  - destruct (search_step py k nfields) as [nf|e'] eqn:E; simpl in H.
    + eapply IH; eassumption.
    + injection H as <-. eapply search_step_error; eassumption.
Qed.

Lemma fix_insertion_fields_error
    (py : python) (self : Chat) (fields : dict (list str)) (collection : str)
    (e : error) :
  fix_insertion_fields py self fields collection = Err e ->
  exists what, e = MissingRequiredFieldError what.
Proof.
  unfold fix_insertion_fields.
  repeat match goal with
         | |- context [if ?c then _ else _] => destruct c
         end;
    try (intros H; injection H as <-; eauto).
  destruct (store_normalized self s_description (copy fields)) as [d nf].
  destruct (store_normalized self s_address nf) as [a nf'].
  discriminate.
Qed.

Lemma bind_not_denied (A B : Type) (m : result A) (k : A -> B) :
  (forall e, m = Err e -> e <> PermissionDeniedError) ->
  (x <- m ;; Ok (k x)) <> Err PermissionDeniedError.
Proof.
  intros Hm. destruct m as [x|e]; simpl.
  - discriminate.
  - intros H. injection H as ->. eapply Hm; reflexivity.
Qed.

(** C1.  For a role among customer and realtor, and a verb and a target
    word that name an operation and a collection, [make_query] goes on
    to the transformer of the operation and to the storage call on its
    output exactly when the triple is one of the six of the permission
    matrix, and raises [PermissionDeniedError] for each of the six other
    triples; it raises that error in no other case. *)
Theorem make_query_permission_matrix
    (py : python) (self : Chat) (db : Database)
    (status verb word : str) (fields : dict (list str))
    (func collection : str) :
  In status [s_customer; s_realtor] ->
  classify_operation self verb = Ok func ->
  classify_collection self word = Ok collection ->
  In func [s_select; s_insert]
  /\ In collection [s_appartments; s_workers; s_requests]
  /\ make_query py self db status verb word fields
     = (if allowed status func collection
        then if Str.eqb func s_select
             then fields <- fix_search_fields py self fields ;;
                  Ok (Cursor (find db collection fields), collection, func)
             else fields <- fix_insertion_fields py self fields collection ;;
                  Ok (InsertOneResult (insert_one db collection fields),
                      collection, func)
        else Err PermissionDeniedError)
  /\ (make_query py self db status verb word fields = Err PermissionDeniedError
      <-> allowed status func collection = false).
Proof.
  intros Hs Ho Hc.
  assert (forall e, fix_search_fields py self fields = Err e ->
                    e <> PermissionDeniedError) as Hsearch.
  { intros e H. apply search_loop_error in H. destruct H as [b ->].
    discriminate. }
  assert (forall c e, fix_insertion_fields py self fields c = Err e ->
                      e <> PermissionDeniedError) as Hins.
  { intros c e H. apply fix_insertion_fields_error in H.
    destruct H as [w ->]. discriminate. }
  unfold make_query. rewrite Hc, Ho. cbn [bind].
  unfold classify_operation in Ho. unfold classify_collection in Hc.
  assert (func = s_select \/ func = s_insert) as Hf.
  { destruct (mem verb (get_verbs (_patterns self)));
      [left; congruence|].
    destruct (mem verb (insert_verbs (_patterns self)));
      [right; congruence | discriminate Ho]. }
  assert (collection = s_appartments \/ collection = s_workers
          \/ collection = s_requests) as Hcol.
  { destruct (mem word (realty (_patterns self))); [left; congruence|].
    destruct (mem word (worker (_patterns self)));
      [right; left; congruence|].
    destruct (mem word (request (_patterns self)));
      [right; right; congruence | discriminate Hc]. }
  clear Ho Hc.
  split; [destruct Hf as [-> | ->]; simpl; auto|].
  split; [destruct Hcol as [-> | [-> | ->]]; simpl; auto|].
  destruct Hs as [<- | [<- | []]];
    destruct Hf as [-> | ->];
    destruct Hcol as [-> | [-> | ->]];
    eval_tests;
    (split; [reflexivity|]);
    try (split; intros; reflexivity).
  all: split; [|discriminate]; intros H; exfalso; revert H;
    match goal with
    | |- bind ?m (fun f => Ok (@?k f)) = _ -> False =>
        apply (@bind_not_denied _ _ m k);
        first [exact Hsearch | exact (Hins _)]
    end.
Qed.

Lemma make_query_permission_matrix_witness :
  make_query Demo.py Demo.chat Demo.db s_customer
    (lit "додати") (lit "нерухомість") []
  = Err PermissionDeniedError.
Proof.
  apply (proj2 (proj2 (proj2
           (@make_query_permission_matrix Demo.py Demo.chat Demo.db
              s_customer (lit "додати") (lit "нерухомість") []
              s_insert s_appartments
              (or_introl eq_refl) eq_refl eq_refl)))).
  vm_compute. reflexivity.
Defined.

(** The twelve triples, one by one. *)
Example permission_matrix_table :
  map (fun t => allowed (fst (fst t)) (snd (fst t)) (snd t))
    [ (s_customer, s_select, s_appartments); (s_customer, s_select, s_workers);
      (s_customer, s_select, s_requests);
      (s_customer, s_insert, s_appartments); (s_customer, s_insert, s_workers);
      (s_customer, s_insert, s_requests);
      (s_realtor, s_select, s_appartments); (s_realtor, s_select, s_workers);
      (s_realtor, s_select, s_requests);
      (s_realtor, s_insert, s_appartments); (s_realtor, s_insert, s_workers);
      (s_realtor, s_insert, s_requests) ]
  = [ true; true; false;  false; false; true;
      true; false; true;  true; false; false ].
Proof. vm_compute. reflexivity. Qed.

Example make_query_customer_select :
  make_query Demo.py Demo.chat Demo.db s_customer
    (lit "показати") (lit "нерухомість")
    [(s_address, [lit "вулиця"; lit "шевченка"])]
  = Ok (Cursor (find Demo.db s_appartments
                  [(s_norm_address,
                    VElemMatchIn [lit "вулиця"; lit "шевченка"])]),
        s_appartments, s_select).
Proof. vm_compute. reflexivity. Qed.

(* ================================================================== *)
(** * The Response Renderer *)

(** C8, as the code has it.  [format_response] raises
    [UnknownRenderTargetError] whenever the operation is neither select
    nor insert, and whenever the operation is select, the collection is
    none of the three and the result holds a document. *)
Theorem format_response_unknown_target
    (py : python) (res : db_result) (collection func : str) :
  ~ In func [s_select; s_insert]
  \/ (func = s_select
      /\ ~ In collection [s_appartments; s_workers; s_requests]
      /\ exists data docs, res = Cursor (data :: docs)) ->
  exists what,
    format_response py res collection func
    = Err (UnknownRenderTargetError what).
Proof.
  intros [H | (-> & H & data & docs & ->)].
  - exists UnknownOperation. unfold format_response.
    assert (Str.eqb func s_select = false) as ->
        by (apply eqb_neq; intros ->; apply H; simpl; auto).
    assert (Str.eqb func s_insert = false) as ->
        by (apply eqb_neq; intros ->; apply H; simpl; auto).
    reflexivity.
  - exists UnknownCollection. unfold format_response. eval_tests.
    cbn [render_loop]. unfold render_document.
    assert (Str.eqb collection s_appartments = false) as ->
        by (apply eqb_neq; intros ->; apply H; simpl; auto).
    assert (Str.eqb collection s_workers = false) as ->
        by (apply eqb_neq; intros ->; apply H; simpl; auto).
    assert (Str.eqb collection s_requests = false) as ->
        by (apply eqb_neq; intros ->; apply H; simpl; auto).
    reflexivity.
Qed.

Lemma format_response_unknown_target_witness :
  exists what,
    format_response Demo.py (Cursor [[(s_price, VList [lit "100"])]])
      (lit "archive") s_select
    = Err (UnknownRenderTargetError what).
Proof.
  apply format_response_unknown_target.
  right. split; [reflexivity|]. split.
  - intros [H | [H | [H | []]]]; vm_compute in H; discriminate H.
  - eexists. eexists. reflexivity.
Defined.

(** C8, as the claim words it, fails: an insertion into a collection
    that is none of the three is acknowledged with the identifier. *)
Lemma format_response_renders_unknown_collection :
  ~ (forall res collection func,
        ~ In collection [s_appartments; s_workers; s_requests]
        \/ ~ In func [s_select; s_insert] ->
        exists what,
          format_response Demo.py res collection func
          = Err (UnknownRenderTargetError what)).
Proof.
  intros H.
  destruct (H (InsertOneResult (VStr (lit "id1"))) (lit "archive") s_insert)
    as [what E].
  - left. intros [E | [E | [E | []]]]; vm_compute in E; discriminate E.
  - vm_compute in E. discriminate E.
Qed.

(** An insertion outside [requests] is acknowledged whatever the
    collection is called. *)
Lemma format_response_insert_elsewhere
    (py : python) (inserted_id : value) (collection : str) :
  collection <> s_requests ->
  format_response py (InsertOneResult inserted_id) collection s_insert
  = Ok (lit "Було успішно внесено запит у колекцію " ++ collection
        ++ lit " з ідентифікатором " ++ format py inserted_id ++ nl).
Proof.
  intros H. unfold format_response. eval_tests.
  apply eqb_neq in H. rewrite H. reflexivity.
Qed.

(** A selection that returns no document is rendered whatever the
    collection is called. *)
Example format_response_empty_selection :
  format_response Demo.py (Cursor []) (lit "archive") s_select
  = Ok (lit "Було знайдено наступні дані:" ++ nl ++ nl).
Proof. vm_compute. reflexivity. Qed.

(* ================================================================== *)
(** * The Field Transformer, search mode *)

Lemma fold_min_spec (l : list Z) :
  forall x, In (fold_left Z.min l x) (x :: l)
            /\ forall v, In v (x :: l) -> (fold_left Z.min l x <= v)%Z.
Proof.
  induction l as [|y l IH]; intros x; simpl.
  - split; [auto|]. intros v [<- | []]. lia.
  - destruct (IH (Z.min x y)) as [H1 H2]. split.
    + destruct H1 as [H1 | H1]; [|auto].
      rewrite <- H1. destruct (Z.min_spec x y) as [[_ ->] | [_ ->]]; auto.
    + intros v [<- | [<- | Hv]].
      * specialize (H2 (Z.min x y) (or_introl eq_refl)). lia.
      * specialize (H2 (Z.min x y) (or_introl eq_refl)). lia.
      * apply H2. right. assumption.
Qed.

Lemma fold_max_spec (l : list Z) :
  forall x, In (fold_left Z.max l x) (x :: l)
            /\ forall v, In v (x :: l) -> (v <= fold_left Z.max l x)%Z.
Proof.
  induction l as [|y l IH]; intros x; simpl.
  - split; [auto|]. intros v [<- | []]. lia.
  - destruct (IH (Z.max x y)) as [H1 H2]. split.
    + destruct H1 as [H1 | H1]; [|auto].
      rewrite <- H1. destruct (Z.max_spec x y) as [[_ ->] | [_ ->]]; auto.
    + intros v [<- | [<- | Hv]].
      * specialize (H2 (Z.max x y) (or_introl eq_refl)). lia.
      * specialize (H2 (Z.max x y) (or_introl eq_refl)). lia.
      * apply H2. right. assumption.
Qed.

(** [min] and [max] of a list that is not empty. *)
Lemma py_min_max (values : list Z) :
  values <> [] ->
  exists lo hi,
    py_min values = Ok lo /\ py_max values = Ok hi
    /\ In lo values /\ (forall v, In v values -> (lo <= v)%Z)
    /\ In hi values /\ (forall v, In v values -> (v <= hi)%Z).
Proof.
  destruct values as [|x l]; [congruence|]. intros _.
  exists (fold_left Z.min l x), (fold_left Z.max l x).
  destruct (fold_min_spec l x), (fold_max_spec l x). simpl py_min.
  simpl py_max. auto 10.
Qed.

(** A turn of the loop for the key [k] leaves the other entries as they
    are, the two derived keys apart. *)
Lemma search_step_frame (py : python) (k : str) (nf nf1 : dict value) :
  search_step py k nf = Ok nf1 ->
  forall k', k' <> k -> k' <> s_norm_description -> k' <> s_norm_address ->
             get k' nf1 = get k' nf.
Proof.
  unfold search_step. cbv zeta. intros H k' N1 N2 N3.
  destruct (Str.eqb k s_description).
  { apply bind_Ok in H. destruct H as (ws & _ & H). injection H as <-.
    rewrite get_remove_other, get_update_other; congruence. }
  destruct (Str.eqb k s_fullname).
  { apply bind_Ok in H. destruct H as (ws & _ & H). injection H as <-.
    rewrite get_update_other; congruence. }
  destruct (Str.eqb k s_address).
  { apply bind_Ok in H. destruct H as (ws & _ & H). injection H as <-.
    rewrite get_remove_other, get_update_other; congruence. }
  destruct (mem k [s_timestamp; s_level]).
  { apply bind_Ok in H. destruct H as (v & _ & H). injection H as <-.
    rewrite get_update_other; congruence. }
  destruct (Str.eqb k s_price).
  { apply bind_Ok in H. destruct H as (ws & _ & H).
    apply bind_Ok in H. destruct H as (values & _ & H).
    apply bind_Ok in H. destruct H as (lo & _ & H).
    apply bind_Ok in H. destruct H as (hi & _ & H). injection H as <-.
    rewrite get_update_other; congruence. }
  injection H as <-. reflexivity.
Qed.

(** A turn for a key other than [price] whose entry is still a bucket
    does not raise. *)
Lemma search_step_succeeds (py : python) (k : str) (nf : dict value) :
  (k <> s_norm_description -> k <> s_norm_address ->
   exists l, get k nf = Some (VList l)) ->
  k <> s_price ->
  exists nf1, search_step py k nf = Ok nf1.
Proof.
  intros Hk Np. unfold search_step, item_list, item. cbv zeta.
  destruct (Str.eqb k s_description) eqn:E1.
  { apply eqb_eq in E1. subst k.
    destruct Hk as [l ->]; try differ. simpl. eauto. }
  destruct (Str.eqb k s_fullname) eqn:E2.
  { apply eqb_eq in E2. subst k.
    destruct Hk as [l ->]; try differ. simpl. eauto. }
  destruct (Str.eqb k s_address) eqn:E3.
  { apply eqb_eq in E3. subst k.
    destruct Hk as [l ->]; try differ. simpl. eauto. }
  destruct (mem k [s_timestamp; s_level]) eqn:E4.
  { apply mem_In in E4.
    destruct Hk as [l ->].
    - destruct E4 as [<- | [<- | []]]; differ.
    - destruct E4 as [<- | [<- | []]]; differ.
    - simpl. eauto. }
  destruct (Str.eqb k s_price) eqn:E5.
  { apply eqb_eq in E5. contradiction. }
  eauto.
Qed.

(** The turn for [price], when no run of digits is over the limit of
    [int()]. *)
Lemma search_step_price (py : python) (nf : dict value) (ws : list str)
    (lo hi : Z) :
  get s_price nf = Some (VList ws) ->
  (forall r, In r (price_runs py ws) -> over_digit_limit py r = false) ->
  py_min (price_values py ws) = Ok lo ->
  py_max (price_values py ws) = Ok hi ->
  search_step py s_price nf = Ok (update s_price (VRange lo hi) nf).
Proof.
  intros Hg Hr Hlo Hhi. unfold search_step, item_list. eval_tests.
  rewrite Hg. cbn [bind]. cbv zeta.
  fold (price_runs py ws).
  rewrite (@comprehension_int_within py (price_runs py ws) Hr). cbn [bind].
  fold (price_values py ws). rewrite Hlo, Hhi. reflexivity.
Qed.

(** The loop, from any point on: the entries of the keys to come are
    buckets, and [price] is a bucket while its turn is to come and the
    range after it. *)
Lemma search_loop_price (py : python) (ws : list str) (lo hi : Z) (ks : list str) :
  (forall r, In r (price_runs py ws) -> over_digit_limit py r = false) ->
  py_min (price_values py ws) = Ok lo ->
  py_max (price_values py ws) = Ok hi ->
  forall nf,
    NoDup ks ->
    (forall k, In k ks -> k <> s_norm_description -> k <> s_norm_address ->
               exists l, get k nf = Some (VList l)) ->
    (In s_price ks -> get s_price nf = Some (VList ws)) ->
    (~ In s_price ks -> get s_price nf = Some (VRange lo hi)) ->
    exists nf',
      search_loop py ks nf = Ok nf'
      /\ get s_price nf' = Some (VRange lo hi).
Proof.
  intros Hr Hlo Hhi. induction ks as [|k ks IH]; intros nf Hnd Hb Hin Hout.
  - exists nf. split; [reflexivity|]. apply Hout. intros [].
  - inversion Hnd as [|? ? Hk Hnd']; subst. cbn [search_loop].
    destruct (Str.eqb k s_price) eqn:Ep.
    + apply eqb_eq in Ep. subst k.
      rewrite (@search_step_price py nf ws lo hi) by (simpl in Hin; auto).
      cbn [bind]. apply IH; try assumption.
      * intros k Hik N1 N2. rewrite get_update_other.
        -- apply Hb; simpl; auto.
        -- intros <-. contradiction.
      * intros Hp. contradiction.
      * intros _. apply get_update_same.
    + apply eqb_neq in Ep.
      destruct (@search_step_succeeds py k nf) as [nf1 E1].
      { intros N1 N2. apply Hb; simpl; auto. }
      { assumption. }
      rewrite E1. cbn [bind].
      pose proof (@search_step_frame _ _ _ _ E1) as Fr.
      apply IH; try assumption.
      * intros k' Hik N1 N2. rewrite Fr; try assumption.
        -- apply Hb; simpl; auto.
        -- intros ->. contradiction.
      * intros Hp. rewrite Fr; try differ.
        -- apply Hin. simpl. auto.
        -- congruence.
      * intros Hp. rewrite Fr; try differ.
        -- apply Hout. intros [H | H]; [congruence | contradiction].
        -- congruence.
Qed.

(** C5.  When the field map has a price bucket whose joined text holds
    a run of digits, and no run has more digits than [int()] converts
    (the limit [sys.get_int_max_str_digits()] of the interpreter),
    [fix_search_fields] returns a map whose price entry is the range
    from the least to the greatest of the integers read from the runs
    of digits, both bounds included. *)
Theorem fix_search_fields_price
    (py : python) (self : Chat) (fields : dict (list str)) (ws : list str) :
  NoDup (keys fields) ->
  get s_price fields = Some ws ->
  price_runs py ws <> [] ->
  (forall r, In r (price_runs py ws) -> over_digit_limit py r = false) ->
  exists nfields lo hi,
    fix_search_fields py self fields = Ok nfields
    /\ get s_price nfields = Some (VRange lo hi)
    /\ In lo (price_values py ws)
    /\ (forall v, In v (price_values py ws) -> (lo <= v)%Z)
    /\ In hi (price_values py ws)
    /\ (forall v, In v (price_values py ws) -> (v <= hi)%Z).
Proof.
  intros Hnd Hp Hv Hr.
  assert (price_values py ws <> []) as Hv'.
  { unfold price_values. destruct (price_runs py ws); [congruence|].
    discriminate. }
  destruct (py_min_max Hv') as (lo & hi & Hlo & Hhi & Hrest).
  assert (In s_price (keys fields)) as Hin.
  { destruct (in_dec (list_eq_dec N.eq_dec) s_price (keys fields)) as [H|H];
      [assumption|].
    apply get_None_keys in H. congruence. }
  destruct (@search_loop_price py ws lo hi (keys fields) Hr Hlo Hhi
              (copy fields))
    as (nf & E & G).
  - assumption.
  - intros k Hk _ _. rewrite get_copy.
    destruct (get k fields) as [l|] eqn:Eg; [simpl; eauto|].
    apply get_None_keys in Eg. contradiction.
  - intros _. rewrite get_copy, Hp. reflexivity.
  - intros H. contradiction.
  - exists nf, lo, hi. split; [exact E|]. split; [exact G|]. exact Hrest.
Qed.

Lemma fix_search_fields_price_witness :
  let ws := [lit "від"; lit "100"; lit "до"; lit "200"; lit "грн"] in
  exists nfields lo hi,
    fix_search_fields Demo.py Demo.chat [(s_price, ws)] = Ok nfields
    /\ get s_price nfields = Some (VRange lo hi)
    /\ In lo [100%Z; 200%Z] /\ (forall v, In v [100%Z; 200%Z] -> (lo <= v)%Z)
    /\ In hi [100%Z; 200%Z] /\ (forall v, In v [100%Z; 200%Z] -> (v <= hi)%Z).
Proof.
  intros ws.
  apply (@fix_search_fields_price Demo.py Demo.chat [(s_price, ws)] ws).
  - constructor; [intros [] | constructor].
  - vm_compute. reflexivity.
  - vm_compute. discriminate.
  - intros r Hr. vm_compute in Hr.
    destruct Hr as [<- | [<- | []]]; vm_compute; reflexivity.
Defined.

(** A price bucket with a run of 4301 digits: [int()] refuses the run
    under the limit of 4300 digits, and no range is built. *)
Lemma price_run_over_digit_limit :
  ~ (forall (fields : dict (list str)) (ws : list str),
        NoDup (keys fields) ->
        get s_price fields = Some ws ->
        price_runs Demo.py ws <> [] ->
        exists nfields lo hi,
          fix_search_fields Demo.py Demo.chat fields = Ok nfields
          /\ get s_price nfields = Some (VRange lo hi)).
Proof.
  intros H.
  destruct (H [(s_price, [repeat 49%N 4301])] [repeat 49%N 4301])
    as (nfields & lo & hi & E & _).
  - constructor; [intros [] | constructor].
  - reflexivity.
  - vm_compute. discriminate.
  - vm_compute in E. discriminate E.
Qed.

Example fix_search_fields_price_over_limit :
  fix_search_fields Demo.py Demo.chat [(s_price, [repeat 49%N 4301])]
  = Err (Builtin (IntegerStringLimit 4300 4301)).
Proof. vm_compute. reflexivity. Qed.

(** With the limit switched off the same bucket is converted. *)
Example fix_search_fields_price_unlimited :
  exists lo,
    fix_search_fields
      {| word_char := Demo.is_word; space_char := Demo.is_space;
         decimal := Demo.digit_value; int_max_str_digits := 0;
         format := Demo.show; today := [] |}
      Demo.chat [(s_price, [repeat 49%N 4301])]
    = Ok [(s_price, VRange lo lo)].
Proof. eexists. vm_compute. reflexivity. Qed.

(** The two buckets of the specification. *)
Example fix_search_fields_price_range :
  fix_search_fields Demo.py Demo.chat
    [(s_price, [lit "від"; lit "100"; lit "до"; lit "200"; lit "грн"])]
  = Ok [(s_price, VRange 100 200)].
Proof. vm_compute. reflexivity. Qed.

Example fix_search_fields_price_single :
  fix_search_fields Demo.py Demo.chat [(s_price, [lit "100"])]
  = Ok [(s_price, VRange 100 100)].
Proof. vm_compute. reflexivity. Qed.

(** Without a digit in the bucket [min] raises. *)
Example fix_search_fields_price_without_digits :
  fix_search_fields Demo.py Demo.chat [(s_price, [lit "дешево"])]
  = Err (Builtin EmptySequence).
Proof. vm_compute. reflexivity. Qed.

(* ================================================================== *)
(** * The matcher and the language of a pattern *)

Section ListFacts.
Variable A : Type.
Implicit Types (l u w : list A).

Lemma firstn_plus l : forall n m,
  firstn (n + m) l = firstn n l ++ firstn m (skipn n l).
Proof.
  induction l as [|x l IH]; intros [|n] m; simpl;
    rewrite ?firstn_nil; try reflexivity.
  rewrite IH. reflexivity.
Qed.

Lemma firstn_prefix u w : firstn (List.length u) (u ++ w) = u.
Proof. induction u as [|x u IH]; simpl; [|rewrite IH]; reflexivity. Qed.

Lemma skipn_prefix u w : skipn (List.length u) (u ++ w) = w.
Proof. induction u as [|x u IH]; simpl; auto. Qed.

Lemma cut_at l n :
  n <= List.length l ->
  l = firstn n l ++ skipn n l /\ List.length (firstn n l) = n.
Proof.
  intros H. split; [symmetry; apply firstn_skipn | apply firstn_length_le, H].
Qed.

End ListFacts.

Lemma run_spec (f : char -> bool) :
  forall hi s n,
    n <= Re.run f hi s
    <-> n <= hi /\ n <= List.length s /\ forallb f (firstn n s) = true.
Proof.
  induction hi as [|h IH]; intros s n.
  - simpl. split.
    + intros H. assert (n = 0) as -> by lia. simpl. auto with arith.
    + intros [H _]. assumption.
  - destruct s as [|x t]; simpl.
    + split.
      * intros H. assert (n = 0) as -> by lia. simpl. auto with arith.
      * intros (_ & H & _). assumption.
    + destruct n as [|n]; simpl.
      * split; [auto with arith | lia].
      * destruct (f x); simpl.
        -- rewrite <- !Nat.succ_le_mono, IH. tauto.
        -- split; [lia | intros (_ & _ & H); discriminate H].
Qed.

Lemma In_downward (lo m n : nat) :
  In n (rev (seq lo (S m - lo))) <-> lo <= n <= m.
Proof. rewrite <- in_rev, in_seq. lia. Qed.

(** The matcher is sound and complete: it returns the length [n] for
    [s] exactly when the pattern matches the first [n] characters. *)
Lemma ends_spec (r : Re.regex) :
  forall s n,
    In n (Re.ends r s)
    <-> n <= List.length s /\ Re.matches r (firstn n s).
Proof.
  induction r as [|c|f|a IHa b IHb|a IHa b IHb|f lo hi]; intros s n;
    cbn [Re.ends Re.matches].
  - split.
    + intros [<- | []]. split; [lia | reflexivity].
    + intros [H E]. left.
      apply (f_equal (@List.length _)) in E.
      rewrite firstn_length_le in E by assumption. simpl in E. auto.
  - destruct s as [|x t].
    + split; [intros [] | intros [_ E]; rewrite firstn_nil in E; discriminate E].
    + destruct (N.eqb x c) eqn:Ex.
      * apply N.eqb_eq in Ex. subst x. split.
        -- intros [<- | []]. simpl. split; [lia | reflexivity].
        -- intros [H E]. left.
           apply (f_equal (@List.length _)) in E.
           rewrite firstn_length_le in E by assumption. simpl in E. auto.
      * apply N.eqb_neq in Ex. split; [intros []|].
        intros [_ E]. destruct n; simpl in E; [discriminate E|].
        injection E as E _. contradiction.
  - destruct s as [|x t].
    + split; [intros []|].
      intros [_ (y & E & _)]. rewrite firstn_nil in E. discriminate E.
    + destruct (f x) eqn:Ex.
      * split.
        -- intros [<- | []]. simpl. split; [lia | eauto].
        -- intros [H (y & E & _)]. left.
           apply (f_equal (@List.length _)) in E.
           rewrite firstn_length_le in E by assumption. simpl in E. auto.
      * split; [intros []|].
        intros [_ (y & E & Hy)]. destruct n; simpl in E; [discriminate E|].
        injection E as E _. congruence.
  - rewrite in_flat_map. split.
    + intros (n1 & H1 & H2). apply in_map_iff in H2.
      destruct H2 as (n2 & <- & H2).
      apply IHa in H1. apply IHb in H2. destruct H1 as [L1 M1], H2 as [L2 M2].
      rewrite length_skipn in L2. split; [lia|].
      exists (firstn n1 s), (firstn n2 (skipn n1 s)).
      split; [apply firstn_plus | auto].
    + intros [L (u & v & E & Mu & Mv)].
      destruct (cut_at s L) as [Es Ln]. rewrite E in Es.
      rewrite E, length_app in Ln.
      exists (List.length u). split.
      * apply IHa. split; [lia|].
        rewrite Es, <- app_assoc, firstn_prefix. assumption.
      * apply in_map_iff. exists (List.length v). split; [lia|].
        apply IHb. rewrite Es at 1 2. rewrite <- app_assoc, skipn_prefix.
        rewrite firstn_prefix, length_app. split; [lia | assumption].
  - rewrite in_app_iff, IHa, IHb. tauto.
  - rewrite In_downward. split.
    + intros [L1 L2]. apply run_spec in L2. destruct L2 as (L2 & L3 & F).
      rewrite firstn_length_le by assumption. auto.
    + intros (L & [L1 L2] & F). rewrite firstn_length_le in L1, L2 by assumption.
      split; [assumption|]. apply run_spec. auto.
Qed.

(** [s] holds, somewhere, a string of the language of [r]. *)
Lemma ends_nonempty (r : Re.regex) (s : str) :
  Re.ends r s <> []
  <-> exists w post, s = w ++ post /\ Re.matches r w.
Proof.
  split.
  - destruct (Re.ends r s) as [|n l] eqn:E; [congruence|]. intros _.
    assert (In n (Re.ends r s)) as H by (rewrite E; left; reflexivity).
    apply ends_spec in H. destruct H as [L M].
    exists (firstn n s), (skipn n s). split; [|assumption].
    symmetry. apply firstn_skipn.
  - intros (w & post & -> & M) E.
    assert (In (List.length w) (Re.ends r (w ++ post))) as H.
    { apply ends_spec. rewrite firstn_prefix, length_app. split; [lia | assumption]. }
    rewrite E in H. contradiction.
Qed.

(** [re.search] fails exactly when the matcher fails at every
    position. *)
Lemma search_from_None (r : Re.regex) :
  forall s i,
    Re.search_from r i s = None
    <-> forall j, j <= List.length s -> Re.ends r (skipn j s) = [].
Proof.
  induction s as [|x t IH]; intros i; simpl.
  - destruct (Re.ends r []) as [|n l] eqn:E.
    + split; [|reflexivity]. intros _ j _. rewrite skipn_nil. assumption.
    + split; [discriminate|]. intros H. specialize (H 0 (le_n 0)).
      simpl in H. congruence.
  - destruct (Re.ends r (x :: t)) as [|n l] eqn:E.
    + rewrite IH. split.
      * intros H [|j] L; [assumption|]. simpl. apply H. simpl in L. lia.
      * intros H j L. apply (H (S j)). simpl. lia.
    + split; [discriminate|]. intros H. specialize (H 0 (Nat.le_0_l _)).
      simpl in H. congruence.
Qed.

(** [re.search] succeeds at the first position at which the matcher
    succeeds, with the matcher's first length. *)
Lemma search_from_Some (r : Re.regex) :
  forall s i p n,
    Re.search_from r i s = Some (p, n) ->
    exists j,
      p = i + j /\ j <= List.length s
      /\ (exists l, Re.ends r (skipn j s) = n :: l)
      /\ forall j', j' < j -> Re.ends r (skipn j' s) = [].
Proof.
  induction s as [|x t IH]; intros i p n; simpl.
  - destruct (Re.ends r []) as [|n0 l] eqn:E; [discriminate|].
    intros H. injection H as <- <-. exists 0. simpl.
    repeat split; [lia | lia | eauto | lia].
  - destruct (Re.ends r (x :: t)) as [|n0 l] eqn:E.
    + intros H. apply IH in H. destruct H as (j & -> & L & Hm & Hf).
      exists (S j). simpl. repeat split; [lia | lia | assumption |].
      intros [|j'] Hj; [assumption|]. simpl. apply Hf. lia.
    + intros H. injection H as <- <-. exists 0. simpl.
      repeat split; [lia | lia | eauto | lia].
Qed.

(* ================================================================== *)
(** * [split], [join] and [replace] *)

Lemma split_not_nil (c : char) (s : str) : split c s <> [].
Proof.
  destruct s as [|x t]; simpl; [discriminate|].
  destruct (N.eqb x c); [discriminate|].
  destruct (split c t); discriminate.
Qed.

Lemma join_cons (sep w : str) (l : list str) :
  l <> [] -> join sep (w :: l) = w ++ sep ++ join sep l.
Proof. destruct l; [congruence | reflexivity]. Qed.

(** Joining the pieces of a split gives the string back. *)
Lemma join_split (c : char) (s : str) : join [c] (split c s) = s.
Proof.
  induction s as [|x t IH]; simpl; [reflexivity|].
  destruct (N.eqb x c) eqn:E.
  - apply N.eqb_eq in E. subst x.
    rewrite join_cons by apply split_not_nil. rewrite IH. reflexivity.
  - destruct (split c t) as [|w ws] eqn:Es.
    + exfalso. eapply split_not_nil; eassumption.
    + rewrite <- IH. destruct ws; reflexivity.
Qed.

(** No piece of a split holds the separator. *)
Lemma split_no_separator (c : char) (s : str) :
  Forall (fun t => ~ In c t) (split c s).
Proof.
  induction s as [|x t IH]; simpl.
  - constructor; [intros [] | constructor].
  - destruct (N.eqb x c) eqn:E.
    + constructor; [intros [] | assumption].
    + apply N.eqb_neq in E. destruct (split c t) as [|w ws].
      * constructor; [|constructor]. intros [H | []]. congruence.
      * inversion IH as [|? ? Hw Hws]; subst. constructor; [|assumption].
        intros [H | H]; [congruence | contradiction].
Qed.

Lemma filter_nonempty (l : list str) :
  Forall (fun w => w <> []) (filter nonempty l).
Proof.
  apply Forall_forall. intros w H. apply filter_In in H.
  destruct H as [_ H]. destruct w; [discriminate H | discriminate].
Qed.

Lemma prefixb_spec (old s : str) :
  prefixb old s = true <-> exists rest, s = old ++ rest.
Proof.
  revert s. induction old as [|x old IH]; intros s; simpl.
  - split; eauto.
  - destruct s as [|y s].
    + split; [discriminate | intros [rest E]; discriminate E].
    + rewrite andb_true_iff, N.eqb_eq, IH. split.
      * intros [-> [rest ->]]. eauto.
      * intros [rest E]. injection E as -> ->. eauto.
Qed.

Lemma prefixb_app (old rest : str) : prefixb old (old ++ rest) = true.
Proof. apply prefixb_spec. eauto. Qed.

Lemma occurs_spec (old s : str) :
  occurs old s = true <-> exists a b, s = a ++ old ++ b.
Proof.
  induction s as [|x t IH]; simpl.
  - rewrite orb_false_r, prefixb_spec. split.
    + intros [rest E]. exists [], rest. assumption.
    + intros (a & b & E). destruct a; [eauto|discriminate E].
  - rewrite orb_true_iff, prefixb_spec, IH. split.
    + intros [[rest E] | (a & b & E)].
      * exists [], rest. assumption.
      * exists (x :: a), b. rewrite E. reflexivity.
    + intros (a & b & E). destruct a as [|y a].
      * left. eauto.
      * right. injection E as _ E. eauto.
Qed.

(** With nothing to look for and nothing to put, [replace] returns the
    string. *)
Lemma replace_nothing (s : str) : replace [] [] s = s.
Proof.
  unfold replace. rewrite app_nil_r.
  induction s as [|c s IH]; simpl in *; [|rewrite IH]; reflexivity.
Qed.

Lemma replace_scan_skip (old new : str) :
  forall s k,
    k <= List.length s ->
    replace_scan old new k s = replace_scan old new 0 (skipn k s).
Proof.
  induction s as [|x t IH]; intros [|k] L; simpl in *; try reflexivity.
  apply IH. lia.
Qed.

(** The scan at an occurrence: the occurrence goes, the scan resumes
    behind it. *)
Lemma replace_scan_hit (old new rest : str) :
  old <> [] ->
  replace_scan old new 0 (old ++ rest) = new ++ replace_scan old new 0 rest.
Proof.
  intros H. destruct old as [|o old]; [congruence|].
  change ((o :: old) ++ rest) with (o :: (old ++ rest)).
  cbn [replace_scan].
  change (o :: old ++ rest) with ((o :: old) ++ rest).
  rewrite prefixb_app. f_equal.
  replace (List.length (o :: old) - 1) with (List.length old)
    by (simpl; lia).
  rewrite replace_scan_skip by (rewrite length_app; lia).
  rewrite skipn_prefix. reflexivity.
Qed.

(** The scan elsewhere: the character stays. *)
Lemma replace_scan_miss (old new : str) (x : char) (t : str) :
  prefixb old (x :: t) = false ->
  replace_scan old new 0 (x :: t) = x :: replace_scan old new 0 t.
Proof. intros H. cbn [replace_scan]. rewrite H. reflexivity. Qed.

Lemma join_head (sep g : str) (gs : list str) :
  exists rest, join sep (g :: gs) = g ++ rest.
Proof.
  destruct gs as [|g' gs]; simpl.
  - exists []. symmetry. apply app_nil_r.
  - eauto.
Qed.

Lemma join_push (sep : str) (x : char) (g : str) (gs : list str) :
  join sep ((x :: g) :: gs) = x :: join sep (g :: gs).
Proof. destruct gs; reflexivity. Qed.

Lemma second_copy (old rest a b c : str) :
  old ++ rest = a ++ old ++ b ++ old ++ c ->
  exists a', rest = a' ++ old ++ c.
Proof.
  intros E. exists (skipn (List.length old) (a ++ old ++ b)).
  rewrite <- (skipn_prefix old rest), E.
  replace (a ++ old ++ b ++ old ++ c) with ((a ++ old ++ b) ++ old ++ c)
    by (rewrite <- !app_assoc; reflexivity).
  rewrite skipn_app.
  replace (List.length old - List.length (a ++ old ++ b)) with 0
    by (rewrite !length_app; lia).
  reflexivity.
Qed.

(** What [replace] deletes.  The string is cut at the occurrences that
    the scan meets: it is the pieces joined by the deleted string, the
    result is the pieces put together, no piece holds the deleted
    string, one occurrence anywhere makes two pieces at least, two
    occurrences apart make three, and each deleted occurrence is the
    first one behind the piece before it. *)
Lemma replace_gaps (old : str) :
  old <> [] ->
  forall n s,
    List.length s <= n ->
    exists gaps,
      gaps <> []
      /\ s = join old gaps
      /\ replace old [] s = List.concat gaps
      /\ Forall (fun g => occurs old g = false) gaps
      /\ (forall a b, s = a ++ old ++ b -> 2 <= List.length gaps)
      /\ (forall a b c, s = a ++ old ++ b ++ old ++ c ->
                        3 <= List.length gaps)
      /\ (forall gs1 g gs2,
            gaps = gs1 ++ g :: gs2 -> gs2 <> [] ->
            forall a b, g ++ old = a ++ old ++ b -> b = []).
Proof.
  intros Hold.
  assert (forall s, replace old [] s = replace_scan old [] 0 s) as Hrep
      by (intros s; destruct old; [congruence | reflexivity]).
  assert (occurs old [] = false) as Hnil
      by (destruct old; [congruence | reflexivity]).
  assert (forall a b, [] <> a ++ old ++ b) as Hempty.
  { intros a b E. apply (f_equal (@List.length _)) in E.
    rewrite !length_app in E. destruct old; [congruence | simpl in E; lia]. }
  assert (forall (gs1 : list str) (g : str) (gs2 : list str),
             [[]] = gs1 ++ g :: gs2 -> gs2 <> [] -> False) as Hone.
  { intros [|g1 gs1] g gs2 E N; simpl in E.
    - injection E as _ E. apply N. symmetry. exact E.
    - injection E as _ E. destruct gs1; discriminate E. }
  induction n as [|n IH]; intros s L.
  - destruct s; [|simpl in L; lia].
    exists [[]]. split; [discriminate|]. split; [reflexivity|].
    split; [rewrite Hrep; reflexivity|].
    split; [constructor; [assumption | constructor]|].
    split; [intros a b E; destruct (Hempty _ _ E)|].
    split; [intros a b c E; destruct (Hempty _ _ E)|].
    intros gs1 g gs2 E N. destruct (Hone _ _ _ E N).
  - destruct s as [|x t].
    { exists [[]]. split; [discriminate|]. split; [reflexivity|].
      split; [rewrite Hrep; reflexivity|].
      split; [constructor; [assumption | constructor]|].
      split; [intros a b E; destruct (Hempty _ _ E)|].
      split; [intros a b c E; destruct (Hempty _ _ E)|].
      intros gs1 g gs2 E N. destruct (Hone _ _ _ E N). }
    destruct (prefixb old (x :: t)) eqn:Ep.
    + apply prefixb_spec in Ep. destruct Ep as [rest Es].
      assert (List.length rest <= n) as Lr.
      { apply (f_equal (@List.length _)) in Es. rewrite length_app in Es.
        simpl in L, Es. destruct old; [congruence | simpl in Es; lia]. }
      destruct (IH rest Lr) as (gaps & Hne & Hj & Hr & Hf & H2 & H3 & H4).
      exists ([] :: gaps). rewrite Es.
      split; [discriminate|].
      split; [rewrite join_cons by assumption; rewrite <- Hj; reflexivity|].
      split; [rewrite Hrep, replace_scan_hit by assumption;
              rewrite <- Hrep, Hr; reflexivity|].
      split; [constructor; assumption|].
      split; [intros _ _ _; destruct gaps; [congruence | simpl; lia]|].
      split.
      * intros a b c E. apply second_copy in E. destruct E as [a' E].
        specialize (H2 _ _ E). simpl. lia.
      * intros gs1 g gs2 Eg Hg2 a b Eab.
        destruct gs1 as [|g1 gs1].
        -- simpl in Eg. injection Eg as <- _. simpl in Eab.
           apply (f_equal (@List.length _)) in Eab.
           rewrite !length_app in Eab.
           destruct b; [reflexivity | simpl in Eab; lia].
        -- simpl in Eg. injection Eg as _ Eg.
           apply (H4 _ _ _ Eg Hg2 a b Eab).
    + simpl in L. assert (List.length t <= n) as Lt by lia.
      destruct (IH t Lt) as (gaps & Hne & Hj & Hr & Hf & H2 & H3 & H4).
      destruct gaps as [|g gs]; [congruence|].
      exists ((x :: g) :: gs).
      split; [discriminate|].
      split; [rewrite join_push, <- Hj; reflexivity|].
      split; [rewrite Hrep, replace_scan_miss by assumption;
              rewrite <- Hrep, Hr; reflexivity|].
      split; [|split; [|split]].
      * inversion Hf as [|? ? Hg Hgs]; subst. constructor; [|assumption].
        simpl. rewrite Hg, orb_false_r.
        destruct (prefixb old (x :: g)) eqn:Eg; [|reflexivity].
        apply prefixb_spec in Eg. destruct Eg as [r Eg].
        destruct (join_head old g gs) as [r' Er'].
        assert (prefixb old (x :: join old (g :: gs)) = true) as Hp.
        { apply prefixb_spec. exists (r ++ r').
          rewrite Er', app_assoc, <- Eg. reflexivity. }
        congruence.
      * intros a b E. destruct a as [|y a].
        -- simpl in E. rewrite E, prefixb_app in Ep. discriminate Ep.
        -- injection E as _ E. apply (H2 _ _ E).
      * intros a b c E. destruct a as [|y a].
        -- simpl in E. rewrite E, prefixb_app in Ep. discriminate Ep.
        -- injection E as _ E. apply (H3 _ _ _ E).
      * intros gs1 g' gs2 Eg Hg2 a b Eab.
        destruct gs1 as [|g1 gs1].
        -- simpl in Eg. injection Eg as <- <-.
           destruct a as [|y a].
           ++ exfalso. simpl in Eab.
              assert (prefixb old (x :: t) = true) as Hp.
              { apply prefixb_spec. exists (b ++ join old gs).
                rewrite Hj, join_cons by assumption.
                change (x :: g ++ old ++ join old gs)
                  with ((x :: g) ++ old ++ join old gs).
                rewrite app_assoc.
                change ((x :: g) ++ old) with (x :: g ++ old).
                rewrite Eab, <- app_assoc. reflexivity. }
              congruence.
           ++ simpl in Eab. injection Eab as _ Eab.
              apply (H4 [] g gs eq_refl Hg2 a b Eab).
        -- simpl in Eg. injection Eg as _ Eg.
           apply (H4 (g :: gs1) g' gs2) with (a := a); [|assumption|assumption].
           rewrite Eg. reflexivity.
Qed.

(* ================================================================== *)
(** * The Action Locator *)

(** [re.search] fails exactly when no substring is in the language of
    the pattern. *)
Lemma search_None (r : Re.regex) (s : str) :
  Re.search r s = None
  <-> ~ exists pre w post, s = pre ++ w ++ post /\ Re.matches r w.
Proof.
  unfold Re.search. rewrite search_from_None. split.
  - intros H (pre & w & post & E & M).
    assert (Re.ends r (skipn (List.length pre) s) <> []) as Hn.
    { apply ends_nonempty. exists w, post. rewrite E, skipn_prefix. auto. }
    apply Hn, H. rewrite E, length_app. lia.
  - intros H j L.
    destruct (Re.ends r (skipn j s)) as [|n l] eqn:E; [reflexivity|].
    exfalso. apply H.
    assert (Re.ends r (skipn j s) <> []) as Hn by congruence.
    apply ends_nonempty in Hn. destruct Hn as (w & post & Ew & M).
    exists (firstn j s), w, post. rewrite <- Ew, firstn_skipn. auto.
Qed.

(** A successful [re.search] returns a substring of the language of the
    pattern, and no such substring starts further left. *)
Lemma search_Some (r : Re.regex) (s : str) (m : nat * nat) :
  Re.search r s = Some m ->
  exists pre post,
    s = pre ++ Re.group0 s m ++ post
    /\ List.length pre = fst m
    /\ Re.matches r (Re.group0 s m)
    /\ forall pre' w post',
         s = pre' ++ w ++ post' -> Re.matches r w ->
         List.length pre <= List.length pre'.
Proof.
  destruct m as [p n]. unfold Re.search, Re.group0. intros H.
  apply search_from_Some in H. simpl in H.
  destruct H as (j & -> & L & [l E] & Hf). simpl fst. simpl snd.
  assert (In n (Re.ends r (skipn j s))) as Hn by (rewrite E; left; reflexivity).
  apply ends_spec in Hn. destruct Hn as [Ln M].
  exists (firstn j s), (skipn n (skipn j s)).
  rewrite firstn_skipn, firstn_skipn.
  rewrite firstn_length_le by assumption.
  repeat split; try assumption.
  intros pre' w post' Es Mw.
  destruct (Nat.le_gt_cases j (List.length pre')) as [Hle | Hlt];
    [assumption|].
  exfalso.
  assert (Re.ends r (skipn (List.length pre') s) <> []) as Hne.
  { apply ends_nonempty. exists w, post'. rewrite Es, skipn_prefix. auto. }
  apply Hne, Hf. assumption.
Qed.

(** The language of [self._search_action]. *)
Lemma matches_search_action (py : python) (self : Chat) (w : str) :
  Re.matches (_search_action py self) w
  <-> exists v f a,
        w = v ++ f ++ a
        /\ Re.matches (rverbs (_patterns self)) v
        /\ List.length f <= 20
        /\ forallb (fun c => word_char py c || space_char py c) f = true
        /\ Re.matches (raction_words (_patterns self)) a.
Proof.
  unfold _search_action. cbn [Re.matches]. split.
  - intros (v & x & -> & Mv & f & a & -> & [[_ Lf] Ff] & Ma).
    exists v, f, a. auto.
  - intros (v & f & a & -> & Mv & Lf & Ff & Ma).
    exists v, (f ++ a). repeat split; try assumption.
    exists f, a. repeat split; try assumption. lia.
Qed.

(** The first success of a matcher that tries its candidates in
    order: the candidates before it fail. *)
Lemma hd_flat_map (A B : Type) (g : A -> list B) (l : list A) (x : B)
    (rest : list B) :
  flat_map g l = x :: rest ->
  exists l1 y l2 r,
    l = l1 ++ y :: l2
    /\ (forall z, In z l1 -> g z = [])
    /\ g y = x :: r.
Proof.
  induction l as [|y l IH]; simpl; intros H; [discriminate H|].
  destruct (g y) as [|x' r] eqn:E.
  - destruct (IH H) as (l1 & y' & l2 & r & -> & Hl1 & Hy).
    exists (y :: l1), y', l2, r. repeat split; try assumption.
    intros z [<- | Hz]; [assumption | apply Hl1; assumption].
  - simpl in H. injection H as -> _.
    exists [], y, l, r. repeat split; try assumption. intros z [].
Qed.

Lemma ends_Seq (a b : Re.regex) (s : str) :
  Re.ends (Re.Seq a b) s
  = flat_map (fun n => map (Nat.add n) (Re.ends b (skipn n s))) (Re.ends a s).
Proof. reflexivity. Qed.

(** A greedy repetition tries the longer runs first. *)
Lemma downward_split (m : nat) :
  forall d1 n d2,
    rev (seq 0 (S m)) = d1 ++ n :: d2 ->
    forall z, n < z <= m -> In z d1.
Proof.
  induction m as [|m IH]; intros d1 n d2 E z Hz.
  - destruct d1 as [|x d1]; simpl in E.
    + injection E as <- _. lia.
    + injection E as _ E. destruct d1; discriminate E.
  - assert (rev (seq 0 (S (S m))) = S m :: rev (seq 0 (S m))) as Er
        by (rewrite seq_S, rev_app_distr; reflexivity).
    rewrite Er in E.
    destruct d1 as [|x d1]; cbn [app] in E.
    + injection E as <- _. lia.
    + assert (x = S m /\ rev (seq 0 (S m)) = d1 ++ n :: d2) as [-> E']
          by (split; congruence).
      assert (In n (rev (seq 0 (S m)))) as Hn by (rewrite E'; apply in_elt).
      apply (In_downward 0 m n) in Hn.
      destruct (Nat.eq_dec z (S m)) as [-> | Hne]; [left; reflexivity|].
      right. apply (IH _ _ _ E'). lia.
Qed.

(** The match that [re.search] returns for [self._search_action]. *)
Lemma search_action_first (py : python) (self : Chat) (s : str) (m : nat * nat) :
  Re.search (_search_action py self) s = Some m ->
  exists pre v f a post,
    s = pre ++ (v ++ f ++ a) ++ post
    /\ Re.group0 s m = v ++ f ++ a
    /\ first_match py self pre v f a post.
Proof.
  destruct m as [p n]. unfold Re.search. intros H.
  apply search_from_Some in H.
  destruct H as (j & Ep & L & [l E] & Hleft). simpl in Ep. subst p.
  pose proof (firstn_skipn j s) as Es.
  remember (skipn j s) as s1 eqn:Es1.
  unfold _search_action in E. rewrite ends_Seq in E.
  apply hd_flat_map in E.
  destruct E as (earlier & nv & later & r1 & Ev & Hearlier & E).
  apply map_eq_cons in E. destruct E as (k & r1' & E & Hk & _).
  pose proof (firstn_skipn nv s1) as Es1'.
  remember (skipn nv s1) as s2 eqn:Es2.
  rewrite ends_Seq in E. apply hd_flat_map in E.
  destruct E as (longer & nf & shorter & r2 & Ef & Hlonger & E).
  apply map_eq_cons in E. destruct E as (na & r3 & Ea & Hna & _).
  pose proof (firstn_skipn nf s2) as Es2'.
  remember (skipn nf s2) as s3 eqn:Es3.
  pose proof (firstn_skipn na s3) as Es3'.
  cbn [Re.ends] in Ef. rewrite Nat.sub_0_r in Ef.
  assert (In nv (Re.ends (rverbs (_patterns self)) s1)) as Iv
      by (rewrite Ev; apply in_elt).
  apply ends_spec in Iv. destruct Iv as [Lv Mv].
  assert (In nf (rev (seq 0 (S (Re.run
             (fun c => word_char py c || space_char py c) 20 s2) - 0))))
    as If by (rewrite Nat.sub_0_r, Ef; apply in_elt).
  apply In_downward in If. destruct If as [_ If].
  apply run_spec in If. destruct If as (Lf20 & Lf & Ff).
  assert (In na (Re.ends (raction_words (_patterns self)) s3)) as Ia
      by (rewrite Ea; left; reflexivity).
  apply ends_spec in Ia. destruct Ia as [La Ma].
  set (pre := firstn j s) in *.
  set (v := firstn nv s1) in *.
  set (f := firstn nf s2) in *.
  set (a := firstn na s3) in *.
  set (post := skipn na s3) in *.
  assert (List.length pre = j) as Lpre by (apply firstn_length_le; assumption).
  assert (List.length v = nv) as Lnv by (apply firstn_length_le; assumption).
  assert (List.length f = nf) as Lnf by (apply firstn_length_le; assumption).
  assert (List.length a = na) as Lna by (apply firstn_length_le; assumption).
  assert (s2 = f ++ a ++ post) as E2 by (rewrite Es3'; symmetry; exact Es2').
  assert (s1 = v ++ f ++ a ++ post) as E1 by (rewrite <- E2; symmetry; exact Es1').
  assert (s = pre ++ (v ++ f ++ a) ++ post) as E0.
  { rewrite <- !app_assoc, <- E1. symmetry. exact Es. }
  exists pre, v, f, a, post. split; [exact E0|]. split.
  { unfold Re.group0. simpl fst. simpl snd. rewrite <- Es1.
    rewrite E1. subst n k.
    replace (nv + (nf + na)) with (List.length (v ++ f ++ a))
      by (rewrite !length_app; lia).
    replace (v ++ f ++ a ++ post) with ((v ++ f ++ a) ++ post)
      by (rewrite <- !app_assoc; reflexivity).
    apply firstn_prefix. }
  unfold first_match, filler.
  split; [exact Mv|]. split; [split; [lia | exact Ff]|].
  split; [exact Ma|]. split; [|split; [|split]].
  - intros pre' m' post' Em Mm.
    destruct (Nat.le_gt_cases (List.length pre) (List.length pre'))
      as [Hle | Hlt]; [assumption|].
    exfalso. rewrite Lpre in Hlt.
    assert (Re.ends (_search_action py self) (skipn (List.length pre') s)
            <> []) as Hne.
    { apply ends_nonempty. exists m', post'.
      rewrite E0, Em, skipn_prefix. auto. }
    apply Hne, Hleft. assumption.
  - exists earlier, later. rewrite <- E1, Lnv. split; [exact Ev|].
    intros n0 Hn0 (f' & a' & post' & Ec & [Lf' Ff'] & Ma').
    specialize (Hearlier _ Hn0). apply map_eq_nil in Hearlier.
    assert (Re.ends (Re.Seq
                       (Re.Rep (fun c => word_char py c || space_char py c)
                          0 20)
                       (raction_words (_patterns self))) (skipn n0 s1) <> [])
      as Hne.
    { apply ends_nonempty. exists (f' ++ a'), post'.
      split; [rewrite Ec, <- app_assoc; reflexivity|].
      cbn [Re.matches]. exists f', a'. repeat split; try assumption. lia. }
    apply Hne. exact Hearlier.
  - intros f' a' post' Ec [Lf' Ff'] Ma'.
    destruct (Nat.le_gt_cases (List.length f') (List.length f))
      as [Hle | Hlt]; [assumption|].
    exfalso. rewrite <- E2 in Ec.
    assert (List.length f'
            <= Re.run (fun c => word_char py c || space_char py c) 20 s2)
      as Hrun.
    { apply run_spec. rewrite Ec, firstn_prefix, length_app.
      repeat split; [assumption | lia | assumption]. }
    assert (In (List.length f') longer) as Hin.
    { apply (@downward_split _ _ _ _ Ef). lia. }
    specialize (Hlonger _ Hin). apply map_eq_nil in Hlonger.
    assert (Re.ends (raction_words (_patterns self))
              (skipn (List.length f') s2) <> []) as Hne.
    { apply ends_nonempty. exists a', post'.
      rewrite Ec, skipn_prefix. auto. }
    apply Hne. exact Hlonger.
  - exists r3. rewrite Es3', Lna. exact Ea.
Qed.

(** The pieces of [split(" ")]. *)
Lemma split_space_pieces (s : str) : space_pieces s (split space s).
Proof.
  unfold space_pieces. split; [apply split_not_nil|].
  split; [apply join_split | apply split_no_separator].
Qed.

(** Where the space is the only whitespace character, the
    whitespace-delimited tokens are the pieces between the spaces that
    are not empty. *)
Lemma findall_runs_split (g : char -> bool) (s : str) :
  (forall c, In c s -> g c = negb (N.eqb c space)) ->
  forall cur,
    Re.findall_runs g cur s
    = filter nonempty
        (match split space s with
         | w :: ws => (cur ++ w) :: ws
         | [] => [cur]
         end).
Proof.
  induction s as [|x t IH]; intros Hg cur.
  - simpl. rewrite app_nil_r. destruct (nonempty cur); reflexivity.
  - cbn [Re.findall_runs split].
    rewrite (Hg x) by (left; reflexivity).
    assert (forall c, In c t -> g c = negb (N.eqb c space)) as Hg'
        by (intros c Hc; apply Hg; right; exact Hc).
    destruct (N.eqb x space); cbn [negb].
    + rewrite (IH Hg' []). rewrite app_nil_r.
      cbn [filter]. destruct (split space t) as [|w ws] eqn:Et.
      * exfalso. eapply split_not_nil. eassumption.
      * simpl app. destruct (nonempty cur); reflexivity.
    + rewrite (IH Hg' (cur ++ [x])).
      destruct (split space t) as [|w ws] eqn:Et.
      * exfalso. eapply split_not_nil. eassumption.
      * rewrite <- app_assoc. reflexivity.
Qed.

Lemma whitespace_tokens_spaces (py : python) (s : str) :
  space_char py space = true ->
  (forall c, In c s -> space_char py c = true -> c = space) ->
  whitespace_tokens py s = filter nonempty (split space s).
Proof.
  intros Hs Hc. unfold whitespace_tokens, Re.findall_class_plus.
  rewrite (@findall_runs_split (fun c => negb (space_char py c)) s).
  - destruct (split space s) as [|w ws] eqn:E; [|reflexivity].
    exfalso. eapply split_not_nil. eassumption.
  - intros c Hin. f_equal. destruct (N.eqb c space) eqn:E.
    + apply N.eqb_eq in E. subst c. exact Hs.
    + destruct (space_char py c) eqn:E'; [|reflexivity].
      apply N.eqb_neq in E. destruct E. apply Hc; assumption.
Qed.

Lemma hd_filter_nonempty (l : list str) :
  hd [] l <> [] -> hd [] (filter nonempty l) = hd [] l.
Proof.
  destruct l as [|w l]; simpl; [reflexivity|].
  destruct w; [congruence | reflexivity].
Qed.

Lemma last_filter_nonempty (l : list str) :
  last l [] <> [] -> last (filter nonempty l) [] = last l [].
Proof.
  induction l as [|w l IH]; [reflexivity|].
  destruct l as [|w' l].
  - simpl. destruct w; [congruence | reflexivity].
  - intros H. change (last (w :: w' :: l) []) with (last (w' :: l) []) in *.
    specialize (IH H). cbn [filter]. cbn [filter] in IH.
    destruct (nonempty w); [|exact IH].
    destruct (if nonempty w' then w' :: filter nonempty l
              else filter nonempty l) as [|y ys] eqn:E.
    + exfalso. apply H. rewrite <- IH. reflexivity.
    + exact IH.
Qed.

(** What [replace] leaves of the sentence. *)
Lemma replace_deleted_copies (m s : str) :
  exists gaps,
    deleted_copies m s gaps
    /\ replace m [] s = List.concat gaps
    /\ (m <> [] -> forall a b, s = a ++ m ++ b -> 2 <= List.length gaps).
Proof.
  unfold deleted_copies. destruct m as [|x m'].
  - exists [s]. split; [|split].
    + split; [reflexivity|]. split; [discriminate|].
      split; [reflexivity | congruence].
    + rewrite replace_nothing. simpl. rewrite app_nil_r. reflexivity.
    + congruence.
  - destruct (@replace_gaps (x :: m') ltac:(discriminate)
                (List.length s) s (le_n _))
      as (gaps & Hne & Hj & Hr & Hf & H2 & _ & H4).
    exists gaps. split; [|split].
    + split; [exact Hj|]. split; [exact Hne|].
      split; [discriminate|]. intros _. split; assumption.
    + exact Hr.
    + intros _. exact H2.
Qed.

(** The two descriptions leave no choice: the pieces between the spaces
    are those of [split], and the stretches kept are those [replace]
    puts together. *)
Lemma split_whole (c : char) (w : str) : ~ In c w -> split c w = [w].
Proof.
  induction w as [|x w IH]; intros H; simpl; [reflexivity|].
  destruct (N.eqb x c) eqn:E.
  - apply N.eqb_eq in E. destruct H. left. exact E.
  - rewrite IH; [reflexivity|]. intros Hin. apply H. right. exact Hin.
Qed.

Lemma split_cut (c : char) (w rest : str) :
  ~ In c w -> split c (w ++ c :: rest) = w :: split c rest.
Proof.
  induction w as [|x w IH]; intros H; simpl.
  - rewrite N.eqb_refl. reflexivity.
  - destruct (N.eqb x c) eqn:E.
    + apply N.eqb_eq in E. destruct H. left. exact E.
    + rewrite IH; [reflexivity|]. intros Hin. apply H. right. exact Hin.
Qed.

Lemma space_pieces_unique (s : str) (pieces : list str) :
  space_pieces s pieces -> pieces = split space s.
Proof.
  unfold space_pieces. intros (Hne & Hj & Hf). subst s.
  induction pieces as [|w p IH]; [congruence|].
  inversion Hf as [|? ? Hw Hp]; subst.
  destruct p as [|w' p].
  - simpl. symmetry. apply split_whole. exact Hw.
  - rewrite join_cons by discriminate. cbn [app].
    rewrite split_cut by exact Hw. f_equal.
    apply IH; [discriminate | exact Hp].
Qed.

Lemma shifted_copy (m d t t' : str) :
  m ++ t = d ++ m ++ t' ->
  exists b, d ++ m = m ++ b /\ List.length b = List.length d.
Proof.
  intros E. exists (firstn (List.length d) t).
  assert (d ++ m = m ++ firstn (List.length d) t) as Eq.
  { rewrite <- (firstn_prefix (d ++ m) t').
    rewrite <- app_assoc, <- E, firstn_app, length_app.
    rewrite firstn_all2 by lia. f_equal. f_equal. lia. }
  split; [exact Eq|].
  apply (f_equal (@List.length _)) in Eq. rewrite !length_app in Eq. lia.
Qed.

Lemma gaps_unique (m : str) :
  m <> [] ->
  forall g1 g2 : list str,
    join m g1 = join m g2 ->
    g1 <> [] -> g2 <> [] ->
    Forall (fun g => occurs m g = false) g1 ->
    Forall (fun g => occurs m g = false) g2 ->
    (forall gs1 g gs2, g1 = gs1 ++ g :: gs2 -> gs2 <> [] ->
                       forall a b, g ++ m = a ++ m ++ b -> b = []) ->
    (forall gs1 g gs2, g2 = gs1 ++ g :: gs2 -> gs2 <> [] ->
                       forall a b, g ++ m = a ++ m ++ b -> b = []) ->
    g1 = g2.
Proof.
  intros Hm.
  assert (forall (x d : str) (r : list str) (t t' : str),
             r <> [] ->
             (forall gs1 g gs2, x :: r = gs1 ++ g :: gs2 -> gs2 <> [] ->
                                forall a b, g ++ m = a ++ m ++ b -> b = []) ->
             forall x', x = x' ++ d -> m ++ t' = d ++ m ++ t -> d = [])
    as Hshift.
  { intros x d r t t' Hr Hl x' Ex E.
    apply shifted_copy in E. destruct E as (b & Eb & Lb).
    assert (b = []) as ->.
    { apply (Hl [] x r eq_refl Hr x' b).
      rewrite Ex, <- app_assoc, Eb. reflexivity. }
    destruct d; [reflexivity | discriminate Lb]. }
  induction g1 as [|x1 r1 IH]; intros g2 Ej N1 N2 F1 F2 L1 L2; [congruence|].
  destruct g2 as [|x2 r2]; [congruence|].
  inversion F1 as [|? ? Fx1 Fr1]; subst.
  inversion F2 as [|? ? Fx2 Fr2]; subst.
  destruct r1 as [|y1 r1], r2 as [|y2 r2].
  - simpl in Ej. congruence.
  - exfalso. rewrite (@join_cons m x2 (y2 :: r2)) in Ej by discriminate.
    change (join m [x1]) with x1 in Ej.
    assert (occurs m x1 = true) as Ho.
    { apply occurs_spec. exists x2, (join m (y2 :: r2)). exact Ej. }
    congruence.
  - exfalso. rewrite (@join_cons m x1 (y1 :: r1)) in Ej by discriminate.
    change (join m [x2]) with x2 in Ej.
    assert (occurs m x2 = true) as Ho.
    { apply occurs_spec. exists x1, (join m (y1 :: r1)). symmetry. exact Ej. }
    congruence.
  - rewrite (@join_cons m x1 (y1 :: r1)) in Ej by discriminate.
    rewrite (@join_cons m x2 (y2 :: r2)) in Ej by discriminate.
    assert (x1 = x2) as ->.
    { apply app_eq_app in Ej. destruct Ej as (d & [[E1 E2] | [E1 E2]]).
      - assert (d = []) as ->.
        { apply (@Hshift x1 d (y1 :: r1) (join m (y1 :: r1))
                   (join m (y2 :: r2)) ltac:(discriminate) L1 x2 E1 E2). }
        rewrite app_nil_r in E1. exact E1.
      - assert (d = []) as ->.
        { apply (@Hshift x2 d (y2 :: r2) (join m (y2 :: r2))
                   (join m (y1 :: r1)) ltac:(discriminate) L2 x1 E1 E2). }
        rewrite app_nil_r in E1. symmetry. exact E1. }
    f_equal. apply app_inv_head in Ej. apply app_inv_head in Ej.
    apply IH; try assumption; try discriminate.
    + intros gs1 g gs2 Eg. apply (L1 (x2 :: gs1) g gs2). rewrite Eg.
      reflexivity.
    + intros gs1 g gs2 Eg. apply (L2 (x2 :: gs1) g gs2). rewrite Eg.
      reflexivity.
Qed.

Lemma deleted_copies_unique (m s : str) (g1 g2 : list str) :
  deleted_copies m s g1 -> deleted_copies m s g2 -> g1 = g2.
Proof.
  unfold deleted_copies.
  intros (E1 & N1 & Z1 & H1) (E2 & N2 & Z2 & H2).
  destruct m as [|x m'].
  - rewrite Z1, Z2; reflexivity.
  - destruct H1 as [F1 L1]; [discriminate|].
    destruct H2 as [F2 L2]; [discriminate|].
    apply (@gaps_unique (x :: m')); try assumption; [discriminate|].
    rewrite <- E1, <- E2. reflexivity.
Qed.

Lemma deleted_copies_replace (m s : str) (gaps : list str) :
  deleted_copies m s gaps -> List.concat gaps = replace m [] s.
Proof.
  intros H. destruct (replace_deleted_copies m s) as (gaps' & H' & Hr & _).
  rewrite Hr. f_equal. apply (deleted_copies_unique H H').
Qed.

(** C3, as the code has it.  [split_on_parts] raises
    [PatternNotFoundError], and no other error, exactly when the joined
    sentence has no substring made of a match of the verb fragment, at
    most twenty word or whitespace characters and a match of the
    action-word fragment.  Otherwise the action phrase is the first
    match: the leftmost one, and at that position the one the engine
    finds first, the filler as long as it can be.  The verb and the
    target are the first and the last of the pieces of the phrase
    between its spaces U+0020, the separator of the join; they are the
    first and last whitespace-delimited tokens of the phrase when the
    space is its only whitespace character and it neither begins nor
    ends with one.  The field words are the pieces between the spaces
    of the sentence from which [replace] has deleted the copies of the
    phrase, the empty pieces dropped. *)
Theorem split_on_parts_spec
    (py : python) (self : Chat) (splited_sentence : list str) :
  (split_on_parts py self splited_sentence = Err PatternNotFoundError
   <-> ~ exists pre v f a post,
         join [space] splited_sentence = pre ++ (v ++ f ++ a) ++ post
         /\ Re.matches (rverbs (_patterns self)) v
         /\ List.length f <= 20
         /\ forallb (fun c => word_char py c || space_char py c) f = true
         /\ Re.matches (raction_words (_patterns self)) a)
  /\ (forall e, split_on_parts py self splited_sentence = Err e ->
                e = PatternNotFoundError)
  /\ (forall fields verb target,
        split_on_parts py self splited_sentence = Ok (fields, (verb, target)) ->
        exists pre v f a post tokens gaps pieces,
          join [space] splited_sentence = pre ++ (v ++ f ++ a) ++ post
          /\ action_phrase py self splited_sentence = Some (v ++ f ++ a)
          /\ Re.matches (_search_action py self) (v ++ f ++ a)
          /\ first_match py self pre v f a post
          /\ space_pieces (v ++ f ++ a) tokens
          /\ verb = hd [] tokens
          /\ target = last tokens []
          /\ (space_char py space = true ->
              (forall c, In c (v ++ f ++ a) ->
                         space_char py c = true -> c = space) ->
              verb <> [] -> target <> [] ->
              verb = hd [] (whitespace_tokens py (v ++ f ++ a))
              /\ target = last (whitespace_tokens py (v ++ f ++ a)) [])
          /\ deleted_copies (v ++ f ++ a) (join [space] splited_sentence) gaps
          /\ (v ++ f ++ a <> [] -> 2 <= List.length gaps)
          /\ space_pieces (List.concat gaps) pieces
          /\ fields = filter nonempty pieces
          /\ Forall (fun w => w <> []) fields).
Proof.
  unfold split_on_parts, action_phrase.
  set (joined := join [space] splited_sentence).
  destruct (Re.search (_search_action py self) joined) as [m|] eqn:Es.
  - split; [|split].
    + split; [discriminate|]. intros H. exfalso. apply H.
      apply search_Some in Es.
      destruct Es as (pre & post & E & _ & M & _).
      apply matches_search_action in M.
      destruct M as (v & f & a & Em & Mv & Lf & Ff & Ma).
      exists pre, v, f, a, post. rewrite <- Em. auto.
    + discriminate.
    + intros fields verb target H. cbv zeta in H.
      injection H as <- <- <-.
      pose proof (search_Some _ _ Es) as (_ & _ & _ & _ & M & _).
      apply search_action_first in Es.
      destruct Es as (pre & v & f & a & post & E & Eg & Hfirst).
      rewrite Eg in *.
      destruct (replace_deleted_copies (v ++ f ++ a) joined)
        as (gaps & Hd & Hr & H2).
      exists pre, v, f, a, post, (split space (v ++ f ++ a)), gaps,
        (split space (List.concat gaps)).
      split; [exact E|].
      split; [cbn [option_map]; rewrite Eg; reflexivity|].
      split; [exact M|].
      split; [exact Hfirst|]. split; [apply split_space_pieces|].
      split; [reflexivity|]. split; [reflexivity|]. split.
      { intros Hs Hc Hv Ht.
        rewrite (@whitespace_tokens_spaces py _ Hs Hc).
        rewrite hd_filter_nonempty by exact Hv.
        rewrite last_filter_nonempty by exact Ht.
        split; reflexivity. }
      split; [exact Hd|]. split.
      { intros Hm. apply (H2 Hm pre post). exact E. }
      split; [apply split_space_pieces|].
      split; [rewrite Hr; reflexivity|].
      apply filter_nonempty.
  - split; [|split].
    + split; [|reflexivity]. intros _ (pre & v & f & a & post & E & H).
      apply search_None in Es. apply Es.
      exists pre, (v ++ f ++ a), post. split; [assumption|].
      apply matches_search_action. exists v, f, a. auto.
    + intros e H. injection H as <-. reflexivity.
    + discriminate.
Qed.

(** The verb and the target of a sentence, read off the theorem. *)
Lemma split_on_parts_spec_witness :
  let ws := [lit "показати"; lit "рієлтор"; lit "нерухомість";
             lit "ціна"; lit "100"] in
  exists pre v f a post tokens gaps pieces,
    join [space] ws = pre ++ (v ++ f ++ a) ++ post
    /\ action_phrase Demo.py Demo.chat ws = Some (v ++ f ++ a)
    /\ Re.matches (_search_action Demo.py Demo.chat) (v ++ f ++ a)
    /\ first_match Demo.py Demo.chat pre v f a post
    /\ space_pieces (v ++ f ++ a) tokens
    /\ lit "показати" = hd [] tokens
    /\ lit "нерухомість" = last tokens []
    /\ (space_char Demo.py space = true ->
        (forall c, In c (v ++ f ++ a) ->
                   space_char Demo.py c = true -> c = space) ->
        lit "показати" <> [] -> lit "нерухомість" <> [] ->
        lit "показати" = hd [] (whitespace_tokens Demo.py (v ++ f ++ a))
        /\ lit "нерухомість"
           = last (whitespace_tokens Demo.py (v ++ f ++ a)) [])
    /\ deleted_copies (v ++ f ++ a) (join [space] ws) gaps
    /\ (v ++ f ++ a <> [] -> 2 <= List.length gaps)
    /\ space_pieces (List.concat gaps) pieces
    /\ [lit "ціна"; lit "100"] = filter nonempty pieces
    /\ Forall (fun w => w <> []) [lit "ціна"; lit "100"].
Proof.
  intros ws.
  destruct (@split_on_parts_spec Demo.py Demo.chat ws) as (_ & _ & H).
  apply (H [lit "ціна"; lit "100"] (lit "показати") (lit "нерухомість")).
  vm_compute. reflexivity.
Defined.

(** C3, as the claim words it, fails: the phrase is cut at the space
    U+0020 only.  Behind a verb that a no-break space follows, the verb
    returned keeps the no-break space, and is not the first
    whitespace-delimited token of the match. *)
Lemma verb_not_whitespace_token :
  ~ (forall ws fields verb target m,
        split_on_parts Demo.py Demo.chat ws = Ok (fields, (verb, target)) ->
        action_phrase Demo.py Demo.chat ws = Some m ->
        verb = hd [] (whitespace_tokens Demo.py m)
        /\ target = last (whitespace_tokens Demo.py m) []).
Proof.
  intros H.
  destruct (H [lit "показати" ++ [160%N]; lit "нерухомість"]
              _ _ _ _ eq_refl eq_refl) as [Hv _].
  vm_compute in Hv. discriminate Hv.
Qed.

Example split_on_parts_no_break_space :
  split_on_parts Demo.py Demo.chat
    [lit "показати" ++ [160%N]; lit "нерухомість"]
  = Ok ([], (lit "показати" ++ [160%N], lit "нерухомість"))
  /\ whitespace_tokens Demo.py
       (lit "показати" ++ [160%N] ++ [space] ++ lit "нерухомість")
     = [lit "показати"; lit "нерухомість"].
Proof. split; vm_compute; reflexivity. Qed.

(** The filler is greedy: with two action words behind the verb the
    target is the later one. *)
Example split_on_parts_greedy_filler :
  split_on_parts Demo.py Demo.chat
    [lit "показати"; lit "рієлтор"; lit "нерухомість"]
  = Ok ([], (lit "показати", lit "нерухомість")).
Proof. vm_compute. reflexivity. Qed.

Example split_on_parts_show_realty :
  split_on_parts Demo.py Demo.chat
    [lit "показати"; lit "нерухомість"; lit "адреса"; lit "вулиця";
     lit "шевченка"]
  = Ok ([lit "адреса"; lit "вулиця"; lit "шевченка"],
        (lit "показати", lit "нерухомість")).
Proof. vm_compute. reflexivity. Qed.

Example split_on_parts_without_phrase :
  split_on_parts Demo.py Demo.chat [lit "адреса"; lit "вулиця"]
  = Err PatternNotFoundError.
Proof. vm_compute. reflexivity. Qed.

(** C10, as the code has it.  The sentence is the pieces that the scan
    of [replace] leaves, joined by the copies of the action phrase that
    it deletes, and the field words are the pieces between the spaces of
    what is left, the empty ones dropped.  For a phrase that is not
    empty, the copy at the match is deleted, a second copy standing
    apart from a first is deleted as well, and no piece left holds the
    phrase. *)
Theorem split_on_parts_deletes_phrase
    (py : python) (self : Chat) (splited_sentence : list str)
    (m : str) (fields : list str) (action : str * str) :
  action_phrase py self splited_sentence = Some m ->
  split_on_parts py self splited_sentence = Ok (fields, action) ->
  exists gaps,
    join [space] splited_sentence = join m gaps
    /\ fields = filter nonempty (split space (List.concat gaps))
    /\ (m <> [] ->
        2 <= List.length gaps
        /\ Forall (fun g => occurs m g = false) gaps
        /\ forall a b c,
             join [space] splited_sentence = a ++ m ++ b ++ m ++ c ->
             3 <= List.length gaps).
Proof.
  unfold action_phrase, split_on_parts.
  set (joined := join [space] splited_sentence).
  destruct (Re.search (_search_action py self) joined) as [mt|] eqn:Es;
    [|discriminate].
  simpl option_map. intros Hm H. injection Hm as Hm.
  cbv zeta in H. rewrite Hm in H. injection H as <- _.
  destruct m as [|x m'].
  - exists [joined]. split; [reflexivity|]. split; [|congruence].
    rewrite replace_nothing. simpl List.concat. rewrite app_nil_r.
    reflexivity.
  - destruct (@replace_gaps (x :: m') ltac:(discriminate)
                (List.length joined) joined (le_n _))
      as (gaps & Hne & Hj & Hr & Hf & H2 & H3 & _).
    exists gaps. split; [assumption|]. split; [rewrite Hr; reflexivity|].
    intros _. split; [|split; assumption].
    apply search_Some in Es. destruct Es as (pre & post & E & _).
    rewrite Hm in E. eapply H2. exact E.
Qed.

Lemma split_on_parts_deletes_phrase_witness :
  let ws := [lit "показати"; lit "нерухомість"; lit "ціна"; lit "100";
             lit "показати"; lit "нерухомість"; lit "адреса"] in
  exists gaps,
    join [space] ws = join (lit "показати нерухомість") gaps
    /\ [lit "ціна"; lit "100"; lit "адреса"]
       = filter nonempty (split space (List.concat gaps))
    /\ (lit "показати нерухомість" <> [] ->
        2 <= List.length gaps
        /\ Forall (fun g => occurs (lit "показати нерухомість") g = false) gaps
        /\ forall a b c,
             join [space] ws
             = a ++ lit "показати нерухомість" ++ b
                 ++ lit "показати нерухомість" ++ c ->
             3 <= List.length gaps).
Proof.
  intros ws.
  apply (@split_on_parts_deletes_phrase Demo.py Demo.chat ws
           (lit "показати нерухомість")
           [lit "ціна"; lit "100"; lit "адреса"]
           (lit "показати", lit "нерухомість")).
  - vm_compute. reflexivity.
  - vm_compute. reflexivity.
Defined.

(** C10, as the claim words it, fails: the words around a deleted copy
    can make the phrase again.  Here the phrase stands twice in the
    sentence, both copies are deleted, and the field words returned are
    the words of the phrase. *)
Lemma phrase_left_in_field_words :
  ~ (forall ws m fields action,
        action_phrase Demo.py Demo.chat ws = Some m ->
        split_on_parts Demo.py Demo.chat ws = Ok (fields, action) ->
        2 <= List.length (positions m (join [space] ws) 0) ->
        occurs m (join [space] fields) = false).
Proof.
  intros H.
  specialize (H [lit "показати"; lit "двокімнатна";
                 lit "показати"; lit "двокімнатна"; lit "нерухомість";
                 lit "нерухомість";
                 lit "показати"; lit "двокімнатна"; lit "нерухомість"]
                _ _ _ eq_refl eq_refl).
  vm_compute in H. specialize (H (le_n 2)). discriminate H.
Qed.

Example split_on_parts_phrase_again :
  split_on_parts Demo.py Demo.chat
    [lit "показати"; lit "двокімнатна";
     lit "показати"; lit "двокімнатна"; lit "нерухомість";
     lit "нерухомість";
     lit "показати"; lit "двокімнатна"; lit "нерухомість"]
  = Ok ([lit "показати"; lit "двокімнатна"; lit "нерухомість"],
        (lit "показати", lit "нерухомість")).
Proof. vm_compute. reflexivity. Qed.

(** The pipeline on the scenario of the specification. *)
Example answer_show_realty :
  answer Demo.py Demo.chat Demo.db s_customer
    [lit "показати"; lit "нерухомість"; lit "адреса"; lit "вулиця";
     lit "шевченка"]
  = Ok (lit "Було знайдено наступні дані:" ++ nl ++ nl).
Proof. vm_compute. reflexivity. Qed.

(* ================================================================== *)
(** * The search filter, field by field *)

Section MoreDictFacts.
Variable V : Type.
Implicit Types (d : dict V) (k : str).

Lemma keys_remove_incl k k' d : In k' (keys (remove k d)) -> In k' (keys d).
Proof.
  induction d as [|[k0 v0] d IH]; simpl; [auto|].
  destruct (Str.eqb k k0); simpl; intuition.
Qed.

Lemma NoDup_remove k d : NoDup (keys d) -> NoDup (keys (remove k d)).
Proof.
  induction d as [|[k0 v0] d IH]; simpl; intros H; [assumption|].
  inversion H as [|? ? Hn Hd]; subst.
  destruct (Str.eqb k k0); simpl; [assumption|].
  constructor; [|auto]. intros Hin. apply Hn.
  eapply keys_remove_incl. eassumption.
Qed.

Lemma get_remove_same k d : NoDup (keys d) -> get k (remove k d) = None.
Proof.
  induction d as [|[k0 v0] d IH]; simpl; intros H; [reflexivity|].
  inversion H as [|? ? Hn Hd]; subst.
  destruct (Str.eqb k k0) eqn:E; simpl.
  - apply eqb_eq in E. subst k0. apply get_None_keys. assumption.
  - rewrite E. auto.
Qed.

Lemma get_Some_keys k d (v : V) : get k d = Some v -> In k (keys d).
Proof.
  intros H.
  destruct (in_dec (list_eq_dec N.eq_dec) k (keys d)) as [Hin|Hin];
    [assumption|].
  apply get_None_keys in Hin. congruence.
Qed.

End MoreDictFacts.

Lemma NoDup_copy (fields : dict (list str)) :
  NoDup (keys fields) -> NoDup (keys (copy fields)).
Proof. rewrite keys_copy. auto. Qed.

Lemma search_loop_app (py : python) (a b : list str) :
  forall nf,
    search_loop py (a ++ b) nf
    = (nf0 <- search_loop py a nf ;; search_loop py b nf0).
Proof.
  induction a as [|k a IH]; intros nf; simpl; [reflexivity|].
  destruct (search_step py k nf); simpl; auto.
Qed.

(** A key without a branch of its own is passed over. *)
Lemma search_step_inert (py : python) (k : str) (nf : dict value) :
  transformed k = false -> search_step py k nf = Ok nf.
Proof.
  unfold transformed. intros H. apply mem_not_In in H.
  unfold search_step. cbv zeta.
  assert (forall c, In c [s_description; s_fullname; s_address;
                          s_timestamp; s_level; s_price] ->
                    Str.eqb k c = false) as Hc.
  { intros c Hin. apply eqb_neq. intros ->. contradiction. }
  rewrite !Hc by (simpl; auto 10).
  assert (mem k [s_timestamp; s_level] = false) as ->.
  { apply mem_not_In. intros Hin. apply H. simpl in *. intuition. }
  reflexivity.
Qed.

(** A turn of the loop for the key [k] changes the entry of [k] and,
    for [description] and [address], the entry of the derived key;
    every other entry stays. *)
Lemma search_step_keeps (py : python) (k k' : str) (nf nf1 : dict value) :
  search_step py k nf = Ok nf1 ->
  (k = k' -> transformed k' = false) ->
  (k = s_description -> k' <> s_norm_description) ->
  (k = s_address -> k' <> s_norm_address) ->
  get k' nf1 = get k' nf.
Proof.
  intros H Hsame Hd Ha.
  destruct (Str.eqb k k') eqn:E.
  { apply eqb_eq in E. subst k'.
    rewrite search_step_inert in H by auto. congruence. }
  apply eqb_neq in E. revert H. unfold search_step. cbv zeta.
  destruct (Str.eqb k s_description) eqn:E1.
  { apply eqb_eq in E1. intros H.
    apply bind_Ok in H. destruct H as (ws & _ & H). injection H as <-.
    rewrite get_remove_other, get_update_other; auto.
    intros <-. apply (Hd E1). reflexivity. }
  destruct (Str.eqb k s_fullname).
  { intros H. apply bind_Ok in H. destruct H as (ws & _ & H).
    injection H as <-. rewrite get_update_other; auto. }
  destruct (Str.eqb k s_address) eqn:E3.
  { apply eqb_eq in E3. intros H.
    apply bind_Ok in H. destruct H as (ws & _ & H). injection H as <-.
    rewrite get_remove_other, get_update_other; auto.
    intros <-. apply (Ha E3). reflexivity. }
  destruct (mem k [s_timestamp; s_level]).
  { intros H. apply bind_Ok in H. destruct H as (v & _ & H).
    injection H as <-. rewrite get_update_other; auto. }
  destruct (Str.eqb k s_price).
  { intros H. apply bind_Ok in H. destruct H as (ws & _ & H).
    apply bind_Ok in H. destruct H as (values & _ & H).
    apply bind_Ok in H. destruct H as (lo & _ & H).
    apply bind_Ok in H. destruct H as (hi & _ & H). injection H as <-.
    rewrite get_update_other; auto. }
  intros H. injection H as <-. reflexivity.
Qed.

Lemma search_loop_keeps (py : python) (k' : str) (ks : list str) :
  forall nf nf',
    search_loop py ks nf = Ok nf' ->
    (In k' ks -> transformed k' = false) ->
    (In s_description ks -> k' <> s_norm_description) ->
    (In s_address ks -> k' <> s_norm_address) ->
    get k' nf' = get k' nf.
Proof.
  induction ks as [|k ks IH]; intros nf nf' H Hs Hd Ha; simpl in H.
  - congruence.
  - apply bind_Ok in H. destruct H as (nf1 & H1 & H).
    rewrite (IH _ _ H) by (simpl in *; auto).
    apply (search_step_keeps _ _ H1).
    + intros ->. apply Hs. simpl. auto.
    + intros ->. apply Hd. simpl. auto.
    + intros ->. apply Ha. simpl. auto.
Qed.

Lemma search_step_NoDup (py : python) (k : str) (nf nf1 : dict value) :
  search_step py k nf = Ok nf1 -> NoDup (keys nf) -> NoDup (keys nf1).
Proof.
  unfold search_step. cbv zeta. intros H Hn.
  destruct (Str.eqb k s_description).
  { apply bind_Ok in H. destruct H as (ws & _ & H). injection H as <-.
    apply NoDup_remove, NoDup_update, Hn. }
  destruct (Str.eqb k s_fullname).
  { apply bind_Ok in H. destruct H as (ws & _ & H). injection H as <-.
    apply NoDup_update, Hn. }
  destruct (Str.eqb k s_address).
  { apply bind_Ok in H. destruct H as (ws & _ & H). injection H as <-.
    apply NoDup_remove, NoDup_update, Hn. }
  destruct (mem k [s_timestamp; s_level]).
  { apply bind_Ok in H. destruct H as (v & _ & H). injection H as <-.
    apply NoDup_update, Hn. }
  destruct (Str.eqb k s_price).
  { apply bind_Ok in H. destruct H as (ws & _ & H).
    apply bind_Ok in H. destruct H as (values & _ & H).
    apply bind_Ok in H. destruct H as (lo & _ & H).
    apply bind_Ok in H. destruct H as (hi & _ & H). injection H as <-.
    apply NoDup_update, Hn. }
  injection H as <-. assumption.
Qed.

Lemma search_loop_NoDup (py : python) (ks : list str) :
  forall nf nf',
    search_loop py ks nf = Ok nf' -> NoDup (keys nf) -> NoDup (keys nf').
Proof.
  induction ks as [|k ks IH]; intros nf nf' H Hn; simpl in H.
  - congruence.
  - apply bind_Ok in H. destruct H as (nf1 & H1 & H).
    eapply IH; [eassumption|]. eapply search_step_NoDup; eassumption.
Qed.

(** The loop around the turn of one key: the turns before it leave its
    bucket alone, the turns after it leave alone what its turn wrote. *)
Lemma search_loop_turn (py : python) (self : Chat) (k : str)
    (fields : dict (list str)) (ws : list str) (nf : dict value) :
  NoDup (keys fields) ->
  get k fields = Some ws ->
  fix_search_fields py self fields = Ok nf ->
  exists before after nf0 nf1,
    keys fields = before ++ k :: after
    /\ ~ In k before /\ ~ In k after
    /\ search_loop py before (copy fields) = Ok nf0
    /\ search_step py k nf0 = Ok nf1
    /\ search_loop py after nf1 = Ok nf
    /\ NoDup (keys nf0).
Proof.
  intros Hn Hg H. unfold fix_search_fields in H.
  apply get_Some_keys in Hg. apply in_split in Hg.
  destruct Hg as (before & after & E). rewrite E in H, Hn.
  rewrite search_loop_app in H. apply bind_Ok in H.
  destruct H as (nf0 & H0 & H). cbn [search_loop] in H.
  apply bind_Ok in H. destruct H as (nf1 & H1 & H).
  exists before, after, nf0, nf1.
  pose proof (NoDup_remove_2 _ _ _ Hn) as Hk. rewrite in_app_iff in Hk.
  repeat split; try assumption; try tauto.
  eapply search_loop_NoDup; [eassumption|].
  rewrite keys_copy, E. assumption.
Qed.

(** The loop does not raise when [price] is not among the keys and the
    entries of the keys are buckets. *)
Lemma search_loop_succeeds (py : python) (ks : list str) :
  forall nf,
    NoDup ks -> ~ In s_price ks ->
    (forall k, In k ks -> k <> s_norm_description -> k <> s_norm_address ->
               exists l, get k nf = Some (VList l)) ->
    exists nf', search_loop py ks nf = Ok nf'.
Proof.
  induction ks as [|k ks IH]; intros nf Hn Hp Hb.
  - exists nf. reflexivity.
  - inversion Hn as [|? ? Hk Hn']; subst. cbn [search_loop].
    destruct (@search_step_succeeds py k nf) as [nf1 E1].
    { intros N1 N2. apply Hb; simpl; auto. }
    { intros ->. apply Hp. simpl. auto. }
    rewrite E1. cbn [bind]. apply IH; try assumption.
    + intros Hin. apply Hp. simpl. auto.
    + intros k' Hin N1 N2.
      rewrite (@search_step_frame _ _ _ _ E1 k'); auto.
      * apply Hb; simpl; auto.
      * intros ->. contradiction.
Qed.

Lemma bucket_of_key (fields : dict (list str)) (k : str) :
  In k (keys fields) -> exists l, get k (copy fields) = Some (VList l).
Proof.
  intros H. rewrite get_copy.
  destruct (get k fields) as [l|] eqn:E; [simpl; eauto|].
  apply get_None_keys in E. contradiction.
Qed.

(** The turn for [price] on the bucket [ws]. *)
Lemma price_turn (py : python) (nf : dict value) (ws : list str) :
  get s_price nf = Some (VList ws) ->
  search_step py s_price nf
  = (values <- comprehension (int py) (price_runs py ws) ;;
     lo <- py_min values ;;
     hi <- py_max values ;;
     Ok (update s_price (VRange lo hi) nf)).
Proof.
  intros Hg. unfold search_step, item_list. eval_tests.
  rewrite Hg. reflexivity.
Qed.

(** The refusal of a price bucket, read off the comprehension. *)
Lemma price_refused_iff (py : python) (ws : list str) (e : error) :
  price_refused py ws e <->
  match comprehension (int py) (price_runs py ws) with
  | Err e' => e = e'
  | Ok [] => e = Builtin EmptySequence
  | Ok (_ :: _) => False
  end.
Proof.
  unfold price_refused.
  destruct (comprehension (int py) (price_runs py ws)) as [vs|e'] eqn:E.
  - destruct (@comprehension_int_Ok py _ _ E) as [-> Hw].
    destruct (price_runs py ws) as [|r0 l] eqn:Er; simpl.
    + split.
      * intros [[_ ->] | (b & r & a & Hl & _)]; [reflexivity|].
        destruct b; discriminate Hl.
      * intros ->. left. split; reflexivity.
    + split; [|intros []].
      intros [[Hn _] | (b & r & a & Hl & Hb & Hr & _)]; [discriminate Hn|].
      assert (over_digit_limit py r = false) as Hf.
      { apply Hw. rewrite Hl. apply in_elt. }
      congruence.
  - split.
    + intros [[Hn ->] | Hd].
      * rewrite Hn in E. discriminate E.
      * apply comprehension_int_Err in Hd. congruence.
    + intros ->. right. apply comprehension_int_Err. exact E.
Qed.

(** The turn for [price] raises exactly when the bucket is refused. *)
Lemma price_turn_Err (py : python) (nf : dict value) (ws : list str)
    (e : error) :
  get s_price nf = Some (VList ws) ->
  (search_step py s_price nf = Err e <-> price_refused py ws e).
Proof.
  intros Hg. rewrite (@price_turn py nf ws Hg), price_refused_iff.
  destruct (comprehension (int py) (price_runs py ws)) as [[|v vs]|e'];
    simpl.
  - split; [intros H; injection H as <-; reflexivity | intros ->; reflexivity].
  - split; [discriminate | intros []].
  - split; congruence.
Qed.

(** A price bucket is refused, or it holds a run of digits and every
    run is within the limit. *)
Lemma price_refused_or_not (py : python) (ws : list str) :
  (exists e, price_refused py ws e)
  \/ (price_runs py ws <> []
      /\ forall r, In r (price_runs py ws) -> over_digit_limit py r = false).
Proof.
  destruct (comprehension (int py) (price_runs py ws)) as [[|v vs]|e'] eqn:E.
  - left. exists (Builtin EmptySequence). apply price_refused_iff.
    rewrite E. reflexivity.
  - right. destruct (@comprehension_int_Ok py _ _ E) as [Hv Hw].
    split; [|exact Hw]. intros Hn. rewrite Hn in Hv. discriminate Hv.
  - left. exists e'. apply price_refused_iff. rewrite E. reflexivity.
Qed.

Lemma price_not_refused (py : python) (ws : list str) (e : error) :
  price_runs py ws <> [] ->
  (forall r, In r (price_runs py ws) -> over_digit_limit py r = false) ->
  ~ price_refused py ws e.
Proof.
  intros Hne Hw H. apply price_refused_iff in H.
  rewrite (@comprehension_int_within py _ Hw) in H.
  destruct (price_runs py ws); [congruence | exact H].
Qed.

Lemma price_refused_unique (py : python) (ws : list str) (e e' : error) :
  price_refused py ws e -> price_refused py ws e' -> e = e'.
Proof.
  rewrite !price_refused_iff.
  destruct (comprehension (int py) (price_runs py ws)) as [[|v vs]|e0];
    try congruence; intros [].
Qed.

(** When a search filter is refused. *)
Lemma search_fields_refused
    (py : python) (self : Chat) (fields : dict (list str)) (e : error) :
  NoDup (keys fields) ->
  (fix_search_fields py self fields = Err e
   <-> exists ws, get s_price fields = Some ws /\ price_refused py ws e).
Proof.
  intros Hn. unfold fix_search_fields.
  destruct (get s_price fields) as [ws|] eqn:Hp.
  - pose proof (get_Some_keys _ _ Hp) as Hin.
    destruct (price_refused_or_not py ws) as [[e0 Hr] | [Hne Hw]].
    + assert (search_loop py (keys fields) (copy fields) = Err e0) as Hf.
      { apply in_split in Hin. destruct Hin as (before & after & E).
        rewrite E in *. rewrite search_loop_app.
        pose proof (NoDup_remove_2 _ _ _ Hn) as Hk.
        rewrite in_app_iff in Hk.
        destruct (@search_loop_succeeds py before (copy fields)) as [nf0 E0].
        - apply NoDup_remove_1 in Hn. apply NoDup_app_remove_r in Hn.
          assumption.
        - tauto.
        - intros k Hk' _ _. apply bucket_of_key. rewrite E.
          apply in_or_app. auto.
        - rewrite E0. cbn [bind search_loop].
          assert (search_step py s_price nf0 = Err e0) as ->.
          { apply (@price_turn_Err py nf0 ws e0); [|exact Hr].
            rewrite (@search_loop_keeps py s_price _ _ _ E0).
            + rewrite get_copy, Hp. reflexivity.
            + tauto.
            + intros _. differ.
            + intros _. differ. }
          reflexivity. }
      rewrite Hf. split.
      * intros H. injection H as <-. eauto.
      * intros (ws' & Hw' & Hr'). injection Hw' as <-.
        rewrite (price_refused_unique Hr Hr'). reflexivity.
    + assert (price_values py ws <> []) as Hv.
      { unfold price_values. destruct (price_runs py ws); [congruence|].
        discriminate. }
      destruct (py_min_max Hv) as (lo & hi & Hlo & Hhi & _).
      destruct (@search_loop_price py ws lo hi (keys fields) Hw Hlo Hhi
                  (copy fields)) as (nf & E & _); try assumption.
      * intros k Hk _ _. apply bucket_of_key. assumption.
      * intros _. rewrite get_copy, Hp. reflexivity.
      * intros H. contradiction.
      * rewrite E. split; [discriminate|].
        intros (ws' & Hw' & Hr'). injection Hw' as <-.
        exfalso. exact (price_not_refused Hne Hw Hr').
  - destruct (@search_loop_succeeds py (keys fields) (copy fields))
      as [nf E]; try assumption.
    + apply get_None_keys. assumption.
    + intros k Hk _ _. apply bucket_of_key. assumption.
    + rewrite E. split; [discriminate|].
      intros (ws' & Hw & _). discriminate Hw.
Qed.

(** X4. A search filter is refused in two cases only, both of the price
    bucket: its joined text holds no digit, and [min] raises on the
    empty list of values; or one of its runs of digits is longer than
    [int()] converts, and [int()] raises at the first such run.  In
    every other case a filter is returned. *)
Theorem fix_search_fields_refusals
    (py : python) (self : Chat) (fields : dict (list str)) (e : error) :
  NoDup (keys fields) ->
  (fix_search_fields py self fields = Err e
   <-> exists ws,
         get s_price fields = Some ws
         /\ ((price_runs py ws = [] /\ e = Builtin EmptySequence)
             \/ exists before r after,
                  price_runs py ws = before ++ r :: after
                  /\ (forall r', In r' before ->
                                 over_digit_limit py r' = false)
                  /\ over_digit_limit py r = true
                  /\ e = Builtin (IntegerStringLimit (int_max_str_digits py)
                                    (List.length r)))).
Proof.
  intros Hn. split.
  - intros H. apply search_fields_refused in H; assumption.
  - intros H. apply search_fields_refused; assumption.
Qed.

Lemma fix_search_fields_refusals_witness :
  fix_search_fields Demo.py Demo.chat
    [(s_address, [lit "вулиця"]); (s_price, [lit "дешево"])]
  = Err (Builtin EmptySequence).
Proof.
  apply (@fix_search_fields_refusals Demo.py Demo.chat
           [(s_address, [lit "вулиця"]); (s_price, [lit "дешево"])]
           (Builtin EmptySequence)).
  - constructor; [|constructor; [intros [] | constructor]].
    intros [H | []]. vm_compute in H. discriminate H.
  - exists [lit "дешево"]. split; [vm_compute; reflexivity|].
    left. split; vm_compute; reflexivity.
Defined.

(** The turn for [description] or [address]: the bucket, followed by
    the bucket that the derived key already holds, goes under the
    derived key as an element match, and the key itself is deleted. *)
Lemma search_fields_normalized (py : python) (self : Chat)
    (k nk : str) (fields : dict (list str)) (ws : list str) (nf : dict value) :
  (k = s_description /\ nk = s_norm_description)
  \/ (k = s_address /\ nk = s_norm_address) ->
  NoDup (keys fields) ->
  get k fields = Some ws ->
  fix_search_fields py self fields = Ok nf ->
  get nk nf
  = Some (VElemMatchIn
            (ws ++ match get nk fields with Some l => l | None => [] end))
  /\ get k nf = None.
Proof.
  intros Hk Hn Hg H.
  destruct (@search_loop_turn py self k fields ws nf Hn Hg H)
    as (before & after & nf0 & nf1 & E & Hb & Ha & H0 & H1 & H2 & Hn0).
  assert (get k nf0 = Some (VList ws)) as Gk.
  { rewrite (@search_loop_keeps py k _ _ _ H0).
    - rewrite get_copy, Hg. reflexivity.
    - intros Hin. contradiction.
    - intros _. destruct Hk as [[-> _] | [-> _]]; differ.
    - intros _. destruct Hk as [[-> _] | [-> _]]; differ. }
  assert (or_empty (get nk nf0)
          = match get nk fields with Some l => l | None => [] end) as Gn.
  { rewrite (@search_loop_keeps py nk _ _ _ H0).
    - rewrite get_copy. destruct (get nk fields); reflexivity.
    - intros _. destruct Hk as [[_ ->] | [_ ->]]; reflexivity.
    - intros Hin. destruct Hk as [[-> _] | [_ ->]]; [contradiction | differ].
    - intros Hin. destruct Hk as [[_ ->] | [-> _]]; [differ | contradiction]. }
  assert (nf1 = remove k (update nk (VElemMatchIn
                                       (ws ++ or_empty (get nk nf0))) nf0))
    as E1.
  { revert H1. unfold search_step, item_list. cbv zeta.
    destruct Hk as [[-> ->] | [-> ->]]; eval_tests; rewrite Gk;
      cbn [bind]; congruence. }
  assert (k <> nk) as Hd by (destruct Hk as [[-> ->] | [-> ->]]; differ).
  split.
  - rewrite (@search_loop_keeps py nk _ _ _ H2).
    + rewrite E1, get_remove_other, get_update_same, Gn by assumption.
      reflexivity.
    + intros _. destruct Hk as [[_ ->] | [_ ->]]; reflexivity.
    + intros Hin. destruct Hk as [[-> _] | [_ ->]]; [contradiction | differ].
    + intros Hin. destruct Hk as [[_ ->] | [-> _]]; [differ | contradiction].
  - rewrite (@search_loop_keeps py k _ _ _ H2).
    + rewrite E1. apply get_remove_same, NoDup_update, Hn0.
    + intros Hin. contradiction.
    + intros _. destruct Hk as [[-> _] | [-> _]]; differ.
    + intros _. destruct Hk as [[-> _] | [-> _]]; differ.
Qed.

(** X5. A description bucket becomes a filter on [norm_description]:
    the stored list must hold one of the words of the bucket, or of a
    [norm_description] bucket that the field map brings; the filter has
    no [description] entry. *)
Theorem fix_search_fields_description
    (py : python) (self : Chat) (fields : dict (list str)) (ws : list str)
    (nf : dict value) :
  NoDup (keys fields) ->
  get s_description fields = Some ws ->
  fix_search_fields py self fields = Ok nf ->
  get s_norm_description nf
  = Some (VElemMatchIn
            (ws ++ match get s_norm_description fields with
                   | Some l => l
                   | None => []
                   end))
  /\ get s_description nf = None.
Proof. apply search_fields_normalized. auto. Qed.

Lemma fix_search_fields_description_witness :
  let fields := [(s_description, [lit "гарна"; lit "квартира"]);
                 (s_price, [lit "100"])] in
  get s_norm_description
    [(s_price, VRange 100 100);
     (s_norm_description, VElemMatchIn [lit "гарна"; lit "квартира"])]
  = Some (VElemMatchIn
            ([lit "гарна"; lit "квартира"]
             ++ match get s_norm_description fields with
                | Some l => l
                | None => []
                end))
  /\ get s_description
       [(s_price, VRange 100 100);
        (s_norm_description, VElemMatchIn [lit "гарна"; lit "квартира"])]
     = None.
Proof.
  intros fields.
  apply (@fix_search_fields_description Demo.py Demo.chat fields
           [lit "гарна"; lit "квартира"]).
  - constructor; [|constructor; [intros [] | constructor]].
    intros [H | []]. vm_compute in H. discriminate H.
  - vm_compute. reflexivity.
  - vm_compute. reflexivity.
Defined.

(** X6. An address bucket becomes, in the same way, a filter on
    [norm_address], and the filter has no [address] entry. *)
Theorem fix_search_fields_address
    (py : python) (self : Chat) (fields : dict (list str)) (ws : list str)
    (nf : dict value) :
  NoDup (keys fields) ->
  get s_address fields = Some ws ->
  fix_search_fields py self fields = Ok nf ->
  get s_norm_address nf
  = Some (VElemMatchIn
            (ws ++ match get s_norm_address fields with
                   | Some l => l
                   | None => []
                   end))
  /\ get s_address nf = None.
Proof. apply search_fields_normalized. auto. Qed.

Lemma fix_search_fields_address_witness :
  let fields := [(s_address, [lit "вулиця"; lit "шевченка"])] in
  get s_norm_address
    [(s_norm_address, VElemMatchIn [lit "вулиця"; lit "шевченка"])]
  = Some (VElemMatchIn
            ([lit "вулиця"; lit "шевченка"]
             ++ match get s_norm_address fields with
                | Some l => l
                | None => []
                end))
  /\ get s_address
       [(s_norm_address, VElemMatchIn [lit "вулиця"; lit "шевченка"])]
     = None.
Proof.
  intros fields.
  apply (@fix_search_fields_address Demo.py Demo.chat fields
           [lit "вулиця"; lit "шевченка"]).
  - constructor; [intros [] | constructor].
  - vm_compute. reflexivity.
  - vm_compute. reflexivity.
Defined.

(** The fragment that the turn of [k] leaves under [k] is the one the
    filter has, and the turn read the bucket of the field map. *)
Lemma search_fields_own_entry (py : python) (self : Chat) (k : str)
    (fields : dict (list str)) (ws : list str) (nf : dict value) :
  NoDup (keys fields) ->
  get k fields = Some ws ->
  k <> s_norm_description -> k <> s_norm_address ->
  fix_search_fields py self fields = Ok nf ->
  exists nf0 nf1,
    get k nf0 = Some (VList ws)
    /\ search_step py k nf0 = Ok nf1
    /\ get k nf = get k nf1.
Proof.
  intros Hn Hg N1 N2 H.
  destruct (@search_loop_turn py self k fields ws nf Hn Hg H)
    as (before & after & nf0 & nf1 & E & Hb & Ha & H0 & H1 & H2 & Hn0).
  exists nf0, nf1. repeat split; try assumption.
  - rewrite (@search_loop_keeps py k _ _ _ H0); auto.
    + rewrite get_copy, Hg. reflexivity.
    + intros Hin. contradiction.
  - apply (@search_loop_keeps py k _ _ _ H2); auto.
    intros Hin. contradiction.
Qed.

(** X7. A full-name bucket becomes a case-insensitive regular
    expression: the words of the bucket joined by single spaces. *)
Theorem fix_search_fields_fullname
    (py : python) (self : Chat) (fields : dict (list str)) (ws : list str)
    (nf : dict value) :
  NoDup (keys fields) ->
  get s_fullname fields = Some ws ->
  fix_search_fields py self fields = Ok nf ->
  get s_fullname nf = Some (VRegexI (join [space] ws)).
Proof.
  intros Hn Hg H.
  destruct (@search_fields_own_entry py self s_fullname fields ws nf Hn Hg
              ltac:(differ) ltac:(differ) H)
    as (nf0 & nf1 & G0 & H1 & ->).
  revert H1. unfold search_step, item_list. eval_tests. rewrite G0.
  cbn [bind]. intros H1. injection H1 as <-. apply get_update_same.
Qed.

Lemma fix_search_fields_fullname_witness :
  get s_fullname
    [(s_fullname, VRegexI (lit "іван петренко")); (s_level, VIn (VList [lit "5"]))]
  = Some (VRegexI (join [space] [lit "іван"; lit "петренко"])).
Proof.
  apply (@fix_search_fields_fullname Demo.py Demo.chat
           [(s_fullname, [lit "іван"; lit "петренко"]); (s_level, [lit "5"])]).
  - constructor; [|constructor; [intros [] | constructor]].
    intros [H | []]. vm_compute in H. discriminate H.
  - vm_compute. reflexivity.
  - vm_compute. reflexivity.
Defined.

(** X8. A [timestamp] or [level] bucket becomes a membership test: the
    stored value must be one of the words of the bucket. *)
Theorem fix_search_fields_membership
    (py : python) (self : Chat) (k : str) (fields : dict (list str))
    (ws : list str) (nf : dict value) :
  In k [s_timestamp; s_level] ->
  NoDup (keys fields) ->
  get k fields = Some ws ->
  fix_search_fields py self fields = Ok nf ->
  get k nf = Some (VIn (VList ws)).
Proof.
  intros Hk Hn Hg H.
  assert (k <> s_norm_description /\ k <> s_norm_address) as [N1 N2]
      by (destruct Hk as [<- | [<- | []]]; split; differ).
  destruct (@search_fields_own_entry py self k fields ws nf Hn Hg N1 N2 H)
    as (nf0 & nf1 & G0 & H1 & ->).
  revert H1. unfold search_step, item.
  destruct Hk as [<- | [<- | []]]; eval_tests; rewrite G0;
    cbn [bind]; intros H1; injection H1 as <-; apply get_update_same.
Qed.

Lemma fix_search_fields_membership_witness :
  get s_level
    [(s_fullname, VRegexI (lit "іван")); (s_level, VIn (VList [lit "5"; lit "4"]))]
  = Some (VIn (VList [lit "5"; lit "4"])).
Proof.
  apply (@fix_search_fields_membership Demo.py Demo.chat s_level
           [(s_fullname, [lit "іван"]); (s_level, [lit "5"; lit "4"])]).
  - simpl. auto.
  - constructor; [|constructor; [intros [] | constructor]].
    intros [H | []]. vm_compute in H. discriminate H.
  - vm_compute. reflexivity.
  - vm_compute. reflexivity.
Defined.

(** X9. Every other key goes into the filter as it is, a bucket with
    its list of words, and a key that the field map does not have is not
    added; the two derived keys are among these keys when the field map
    has no [description], respectively no [address]. *)
Theorem fix_search_fields_passes_other_fields
    (py : python) (self : Chat) (k : str) (fields : dict (list str))
    (nf : dict value) :
  transformed k = false ->
  (k = s_norm_description -> get s_description fields = None) ->
  (k = s_norm_address -> get s_address fields = None) ->
  fix_search_fields py self fields = Ok nf ->
  get k nf = option_map VList (get k fields).
Proof.
  intros Ht Hd Ha H. unfold fix_search_fields in H.
  rewrite (@search_loop_keeps py k _ _ _ H).
  - apply get_copy.
  - auto.
  - intros Hin E. apply get_None_keys in Hd; auto.
  - intros Hin E. apply get_None_keys in Ha; auto.
Qed.

Lemma fix_search_fields_passes_other_fields_witness :
  get (lit "rooms")
    [(lit "rooms", VList [lit "2"]); (s_price, VRange 100 100)]
  = option_map VList
      (get (lit "rooms") [(lit "rooms", [lit "2"]); (s_price, [lit "100"])]).
Proof.
  apply (@fix_search_fields_passes_other_fields Demo.py Demo.chat (lit "rooms")
           [(lit "rooms", [lit "2"]); (s_price, [lit "100"])]).
  - vm_compute. reflexivity.
  - intros H. vm_compute in H. discriminate H.
  - intros H. vm_compute in H. discriminate H.
  - vm_compute. reflexivity.
Defined.

Lemma int_nonneg (py : python) (r : str) : (0 <= int_value py r)%Z.
Proof.
  unfold int_value.
  assert (forall acc, (0 <= acc)%Z ->
            (0 <= fold_left
                    (fun acc c =>
                       (acc * 10 + match decimal py c with
                                   | Some d => Z.of_N d
                                   | None => 0
                                   end)%Z) r acc)%Z) as H.
  { induction r as [|c r IH]; intros acc Ha; simpl; [assumption|].
    apply IH. destruct (decimal py c); lia. }
  apply H. lia.
Qed.

(** X10. The range of a price filter is well formed: its lower bound is
    not negative, since a run of digits carries no sign, and is not
    above its upper bound. *)
Theorem fix_search_fields_price_bounds
    (py : python) (self : Chat) (fields : dict (list str)) (ws : list str)
    (nf : dict value) :
  NoDup (keys fields) ->
  get s_price fields = Some ws ->
  fix_search_fields py self fields = Ok nf ->
  exists lo hi,
    get s_price nf = Some (VRange lo hi) /\ (0 <= lo <= hi)%Z.
Proof.
  intros Hn Hp H.
  destruct (price_refused_or_not py ws) as [[e Hr] | [Hne Hw]].
  - assert (fix_search_fields py self fields = Err e) as Hf.
    { apply search_fields_refused; [assumption|]. eauto. }
    congruence.
  - assert (price_values py ws <> []) as Hv.
    { unfold price_values. destruct (price_runs py ws); [congruence|].
      discriminate. }
    destruct (py_min_max Hv) as (lo & hi & Hlo & Hhi & Il & Bl & Ih & Bh).
    destruct (@search_loop_price py ws lo hi (keys fields) Hw Hlo Hhi
                (copy fields)) as (nf' & E & G); try assumption.
    + intros k Hk _ _. apply bucket_of_key. assumption.
    + intros _. rewrite get_copy, Hp. reflexivity.
    + intros Hc. exfalso. apply Hc. eapply get_Some_keys. eassumption.
    + unfold fix_search_fields in H. rewrite E in H. injection H as <-.
      exists lo, hi. split; [assumption|]. split.
      * unfold price_values in Il. apply in_map_iff in Il.
        destruct Il as (r & <- & _). apply int_nonneg.
      * apply Bl. assumption.
Qed.

Lemma fix_search_fields_price_bounds_witness :
  exists lo hi,
    get s_price [(s_price, VRange 100 200)] = Some (VRange lo hi)
    /\ (0 <= lo <= hi)%Z.
Proof.
  apply (@fix_search_fields_price_bounds Demo.py Demo.chat
           [(s_price, [lit "від"; lit "-100"; lit "до"; lit "200"])]
           [lit "від"; lit "-100"; lit "до"; lit "200"]).
  - constructor; [intros [] | constructor].
  - vm_compute. reflexivity.
  - vm_compute. reflexivity.
Defined.

(* ================================================================== *)
(** * The insertion document *)

(** X11. The document of an insertion carries the date of the day under
    [timestamp], whatever the field map held there, and every other
    bucket of the field map as it came, [description], [address] and
    [price] among them; only [norm_description] and [tags] can differ. *)
Theorem fix_insertion_fields_keeps_buckets
    (py : python) (self : Chat) (fields : dict (list str)) (collection : str)
    (doc : dict value) :
  fix_insertion_fields py self fields collection = Ok doc ->
  get s_timestamp doc = Some (VStr (today py))
  /\ forall k,
       k <> s_timestamp -> k <> s_tags -> k <> s_norm_description ->
       get k doc = option_map VList (get k fields).
Proof.
  intros H. apply fix_insertion_fields_Ok in H. subst doc.
  destruct (store_normalized self s_description (copy fields)) as [d nf1] eqn:E1.
  destruct (store_normalized self s_address nf1) as [a nf2] eqn:E2.
  split; [apply get_update_same|].
  intros k N1 N2 N3.
  assert (forall b nf x nf', store_normalized self b nf = (x, nf') ->
                             get k nf' = get k nf) as Hs.
  { intros b nf x nf'. unfold store_normalized.
    destruct (or_empty (get b nf)); intros E; injection E as _ <-;
      [reflexivity|].
    apply get_update_other. congruence. }
  rewrite get_update_other by congruence.
  assert (get k nf2 = option_map VList (get k fields)) as G.
  { rewrite (Hs _ _ _ _ E2), (Hs _ _ _ _ E1). apply get_copy. }
  destruct (d ++ a); [assumption|].
  rewrite get_update_other by congruence. assumption.
Qed.

Lemma fix_insertion_fields_keeps_buckets_witness :
  exists doc,
    fix_insertion_fields Demo.py Demo.chat
      [(s_fullname, [lit "іван"]); (s_timestamp, [lit "учора"])] s_requests
    = Ok doc
    /\ get s_timestamp doc = Some (VStr (today Demo.py)).
Proof.
  eexists. split; [vm_compute; reflexivity|].
  apply (@fix_insertion_fields_keeps_buckets Demo.py Demo.chat
           [(s_fullname, [lit "іван"]); (s_timestamp, [lit "учора"])]
           s_requests).
  vm_compute. reflexivity.
Defined.

(* ================================================================== *)
(** * The Intent Resolver: words, roles and results *)

(** After the two chains, for any role: the transformer and the storage
    call for a triple of the permission matrix, the refusal for any
    other. *)
Lemma make_query_after_classification
    (py : python) (self : Chat) (db : Database)
    (status verb word : str) (fields : dict (list str))
    (func collection : str) :
  classify_collection self word = Ok collection ->
  classify_operation self verb = Ok func ->
  make_query py self db status verb word fields
  = if allowed status func collection
    then if Str.eqb func s_select
         then fields <- fix_search_fields py self fields ;;
              Ok (Cursor (find db collection fields), collection, func)
         else fields <- fix_insertion_fields py self fields collection ;;
              Ok (InsertOneResult (insert_one db collection fields),
                  collection, func)
    else Err PermissionDeniedError.
Proof.
  intros Hc Ho. unfold make_query. rewrite Hc, Ho. cbn [bind].
  assert (func = s_select \/ func = s_insert) as Hf.
  { unfold classify_operation in Ho.
    destruct (mem verb (get_verbs (_patterns self)));
      [left; congruence|].
    destruct (mem verb (insert_verbs (_patterns self)));
      [right; congruence | discriminate Ho]. }
  assert (collection = s_appartments \/ collection = s_workers
          \/ collection = s_requests) as Hcol.
  { unfold classify_collection in Hc.
    destruct (mem word (realty (_patterns self))); [left; congruence|].
    destruct (mem word (worker (_patterns self)));
      [right; left; congruence|].
    destruct (mem word (request (_patterns self)));
      [right; right; congruence | discriminate Hc]. }
  clear Hc Ho. unfold allowed, permission_matrix. cbn [existsb fst snd].
  destruct (Str.eqb status s_customer) eqn:E1.
  - apply eqb_eq in E1. subst status.
    destruct Hf as [-> | ->]; destruct Hcol as [-> | [-> | ->]];
      eval_tests; reflexivity.
  - destruct (Str.eqb status s_realtor) eqn:E2.
    + apply eqb_eq in E2. subst status.
      destruct Hf as [-> | ->]; destruct Hcol as [-> | [-> | ->]];
        eval_tests; reflexivity.
    + cbn [andb orb]. reflexivity.
Qed.

Lemma bind_not_error (A B : Type) (m : result A) (k : A -> B) (e0 : error) :
  (forall e, m = Err e -> e <> e0) ->
  (x <- m ;; Ok (k x)) <> Err e0.
Proof.
  intros Hm. destruct m as [x|e]; simpl.
  - discriminate.
  - intros H. injection H as ->. eapply Hm; reflexivity.
Qed.

(** Past the two chains [make_query] raises the refusal or an error of
    a transformer. *)
Lemma make_query_late_error
    (py : python) (self : Chat) (db : Database)
    (status verb word : str) (fields : dict (list str))
    (func collection : str) (e : error) :
  classify_collection self word = Ok collection ->
  classify_operation self verb = Ok func ->
  make_query py self db status verb word fields = Err e ->
  e = PermissionDeniedError
  \/ fix_search_fields py self fields = Err e
  \/ fix_insertion_fields py self fields collection = Err e.
Proof.
  intros Hc Ho.
  rewrite (@make_query_after_classification py self db status verb word
             fields func collection Hc Ho).
  destruct (allowed status func collection);
    [|intros H; injection H as <-; auto].
  destruct (Str.eqb func s_select).
  - destruct (fix_search_fields py self fields); simpl; [discriminate|].
    intros H. injection H as <-. auto.
  - destruct (fix_insertion_fields py self fields collection); simpl;
      [discriminate|].
    intros H. injection H as <-. auto.
Qed.

Lemma classify_collection_cases (self : Chat) (word : str) :
  (classify_collection self word = Err UnknownTargetError
   /\ mem word (realty (_patterns self)) = false
   /\ mem word (worker (_patterns self)) = false
   /\ mem word (request (_patterns self)) = false)
  \/ exists collection,
       classify_collection self word = Ok collection
       /\ (mem word (realty (_patterns self))
           || mem word (worker (_patterns self))
           || mem word (request (_patterns self))) = true.
Proof.
  unfold classify_collection.
  destruct (mem word (realty (_patterns self))); [right; eauto|].
  destruct (mem word (worker (_patterns self))); [right; eauto|].
  destruct (mem word (request (_patterns self))); [right; eauto|].
  left. auto.
Qed.

Lemma classify_operation_cases (self : Chat) (verb : str) :
  (classify_operation self verb = Err UnknownVerbError
   /\ mem verb (get_verbs (_patterns self)) = false
   /\ mem verb (insert_verbs (_patterns self)) = false)
  \/ exists func,
       classify_operation self verb = Ok func
       /\ (mem verb (get_verbs (_patterns self))
           || mem verb (insert_verbs (_patterns self))) = true.
Proof.
  unfold classify_operation.
  destruct (mem verb (get_verbs (_patterns self))); [right; eauto|].
  destruct (mem verb (insert_verbs (_patterns self))); [right; eauto|].
  left. auto.
Qed.

(** X1. [make_query] looks at the target word first: a word of none of
    the three lists gives [UnknownTargetError] whatever the verb, the
    role and the fields are, and this is the only way to that error.
    With a known word, a verb of neither list gives [UnknownVerbError],
    and this is the only way to that one. *)
Theorem make_query_unknown_words
    (py : python) (self : Chat) (db : Database)
    (status verb word : str) (fields : dict (list str)) :
  (make_query py self db status verb word fields = Err UnknownTargetError
   <-> mem word (realty (_patterns self)) = false
       /\ mem word (worker (_patterns self)) = false
       /\ mem word (request (_patterns self)) = false)
  /\ (make_query py self db status verb word fields = Err UnknownVerbError
      <-> (mem word (realty (_patterns self))
           || mem word (worker (_patterns self))
           || mem word (request (_patterns self))) = true
          /\ mem verb (get_verbs (_patterns self)) = false
          /\ mem verb (insert_verbs (_patterns self)) = false).
Proof.
  destruct (classify_collection_cases self word)
    as [(Hc & R1 & R2 & R3) | (collection & Hc & R)].
  - assert (make_query py self db status verb word fields
            = Err UnknownTargetError) as ->
        by (unfold make_query; rewrite Hc; reflexivity).
    rewrite R1, R2, R3. split; split; auto; try discriminate.
    intros (H & _). discriminate H.
  - destruct (classify_operation_cases self verb)
      as [(Ho & V1 & V2) | (func & Ho & V)].
    + assert (make_query py self db status verb word fields
              = Err UnknownVerbError) as ->
          by (unfold make_query; rewrite Hc, Ho; reflexivity).
      split; split; auto; try discriminate.
      intros (H1 & H2 & H3). rewrite H1, H2, H3 in R. discriminate R.
    + split; split.
      * intros H. exfalso.
        destruct (@make_query_late_error py self db status verb word fields
                    func collection _ Hc Ho H) as [E | [Hs | Hi]].
        -- discriminate E.
        -- apply search_loop_error in Hs. destruct Hs as [b E].
           discriminate E.
        -- apply fix_insertion_fields_error in Hi. destruct Hi as [w E].
           discriminate E.
      * intros (H1 & H2 & H3). rewrite H1, H2, H3 in R. discriminate R.
      * intros H. exfalso.
        destruct (@make_query_late_error py self db status verb word fields
                    func collection _ Hc Ho H) as [E | [Hs | Hi]].
        -- discriminate E.
        -- apply search_loop_error in Hs. destruct Hs as [b E].
           discriminate E.
        -- apply fix_insertion_fields_error in Hi. destruct Hi as [w E].
           discriminate E.
      * intros (_ & H2 & H3). rewrite H2, H3 in V. discriminate V.
Qed.

Example make_query_unknown_target :
  make_query Demo.py Demo.chat Demo.db s_realtor (lit "купити") (lit "авто") []
  = Err UnknownTargetError.
Proof. vm_compute. reflexivity. Qed.

(** What a successful [make_query] has done. *)
Lemma make_query_Ok
    (py : python) (self : Chat) (db : Database)
    (status verb word : str) (fields : dict (list str))
    (res : db_result) (collection func : str) :
  make_query py self db status verb word fields = Ok (res, collection, func) ->
  allowed status func collection = true
  /\ classify_collection self word = Ok collection
  /\ classify_operation self verb = Ok func
  /\ ((func = s_select
       /\ exists filter,
            fix_search_fields py self fields = Ok filter
            /\ res = Cursor (find db collection filter))
      \/ (func = s_insert
          /\ exists doc,
               fix_insertion_fields py self fields collection = Ok doc
               /\ res = InsertOneResult (insert_one db collection doc))).
Proof.
  intros H.
  destruct (classify_collection self word) as [c|ec] eqn:Hc;
    [|unfold make_query in H; rewrite Hc in H; discriminate H].
  destruct (classify_operation self verb) as [f|eo] eqn:Ho;
    [|unfold make_query in H; rewrite Hc, Ho in H; discriminate H].
  rewrite (@make_query_after_classification py self db status verb word
             fields f c Hc Ho) in H.
  destruct (allowed status f c) eqn:Ha; [|discriminate H].
  assert (f = s_select \/ f = s_insert) as Hf.
  { unfold classify_operation in Ho.
    destruct (mem verb (get_verbs (_patterns self)));
      [left; congruence|].
    destruct (mem verb (insert_verbs (_patterns self)));
      [right; congruence | discriminate Ho]. }
  destruct Hf as [-> | ->]; revert H; eval_tests; intros H;
    apply bind_Ok in H; destruct H as (x & Hx & H);
    injection H as <- <- <-; repeat split; eauto 6.
Qed.

(** X2. [make_query] returns only for a triple of the permission
    matrix, whatever string the role is: a role other than customer and
    realtor gets nothing from storage.  A selection returns the cursor
    of [find] on the filter of [fix_search_fields], an insertion the
    acknowledgment of [insert_one] on the document of
    [fix_insertion_fields]. *)
Theorem make_query_returns_permitted
    (py : python) (self : Chat) (db : Database)
    (status verb word : str) (fields : dict (list str))
    (res : db_result) (collection func : str) :
  make_query py self db status verb word fields = Ok (res, collection, func) ->
  In (status, func, collection) permission_matrix
  /\ ((func = s_select
       /\ exists filter,
            fix_search_fields py self fields = Ok filter
            /\ res = Cursor (find db collection filter))
      \/ (func = s_insert
          /\ exists doc,
               fix_insertion_fields py self fields collection = Ok doc
               /\ res = InsertOneResult (insert_one db collection doc))).
Proof.
  intros H. apply make_query_Ok in H. destruct H as (Ha & _ & _ & Hr).
  split; [|assumption].
  unfold allowed in Ha. apply existsb_exists in Ha.
  destruct Ha as ([[s f] c] & Hin & Ht). simpl in Ht.
  apply andb_true_iff in Ht. destruct Ht as [Ht E3].
  apply andb_true_iff in Ht. destruct Ht as [E1 E2].
  apply eqb_eq in E1, E2, E3. subst. assumption.
Qed.

Lemma make_query_returns_permitted_witness :
  In (s_customer, s_select, s_appartments) permission_matrix
  /\ ((s_select = s_select
       /\ exists filter,
            fix_search_fields Demo.py Demo.chat [] = Ok filter
            /\ Cursor [] = Cursor (find Demo.db s_appartments filter))
      \/ (s_select = s_insert
          /\ exists doc,
               fix_insertion_fields Demo.py Demo.chat [] s_appartments = Ok doc
               /\ Cursor []
                  = InsertOneResult (insert_one Demo.db s_appartments doc))).
Proof.
  apply (@make_query_returns_permitted Demo.py Demo.chat Demo.db
           s_customer (lit "показати") (lit "нерухомість") []).
  vm_compute. reflexivity.
Defined.

(* ================================================================== *)
(** * The Response Renderer on what storage returns *)

Lemma render_document_known
    (py : python) (collection : str) (i : nat) (data : dict value) :
  In collection [s_appartments; s_workers; s_requests] ->
  exists rest,
    render_document py collection i data
    = Ok (format py (VInt (Z.of_nat (i + 1))) ++ lit "." ++ nl ++ rest).
Proof.
  intros H. unfold render_document. cbv zeta.
  destruct H as [<- | [<- | [<- | []]]]; eval_tests;
    rewrite <- !app_assoc; eexists; reflexivity.
Qed.

(** The loop over the documents adds one block for each of them. *)
Lemma render_loop_blocks (py : python) (collection : str)
    (docs : list (dict value)) :
  In collection [s_appartments; s_workers; s_requests] ->
  forall i text,
  exists blocks,
    render_loop py collection i docs text = Ok (text ++ List.concat blocks)
    /\ List.length blocks = List.length docs
    /\ forall j data,
         nth_error docs j = Some data ->
         exists b,
           nth_error blocks j = Some b
           /\ render_document py collection (i + j) data = Ok b.
Proof.
  intros Hc. induction docs as [|data docs IH]; intros i text.
  - exists []. simpl. rewrite app_nil_r. repeat split.
    intros [|j] d H; discriminate H.
  - destruct (@render_document_known py collection i data Hc) as [rest E].
    cbn [render_loop]. rewrite E. cbn [bind].
    destruct (IH (S i)
                (text ++ format py (VInt (Z.of_nat (i + 1))) ++ lit "."
                      ++ nl ++ rest))
      as (blocks & Hl & Hn & Hb).
    exists ((format py (VInt (Z.of_nat (i + 1))) ++ lit "." ++ nl ++ rest)
              :: blocks).
    repeat split.
    + rewrite Hl. simpl. rewrite <- !app_assoc. reflexivity.
    + simpl. congruence.
    + intros [|j] d H; simpl in H.
      * injection H as <-. eexists. split; [reflexivity|].
        rewrite Nat.add_0_r. assumption.
      * destruct (Hb j d H) as (b & Hb1 & Hb2).
        exists b. split; [assumption|].
        rewrite <- Nat.add_succ_comm. assumption.
Qed.

(** X12. A selection from one of the three collections is always
    rendered: the heading, then one block for each document in the
    order of the cursor, the block of the document at index [j]
    beginning with the number [j + 1] and a full stop. *)
Theorem format_response_select_blocks
    (py : python) (collection : str) (docs : list (dict value)) :
  In collection [s_appartments; s_workers; s_requests] ->
  exists blocks,
    format_response py (Cursor docs) collection s_select
    = Ok (lit "Було знайдено наступні дані:" ++ nl ++ nl
          ++ List.concat blocks)
    /\ List.length blocks = List.length docs
    /\ forall j data,
         nth_error docs j = Some data ->
         exists rest,
           nth_error blocks j
           = Some (format py (VInt (Z.of_nat (j + 1))) ++ lit "." ++ nl
                   ++ rest).
Proof.
  intros Hc. unfold format_response. eval_tests.
  destruct (@render_loop_blocks py collection docs Hc 0
              (lit "Було знайдено наступні дані:" ++ nl ++ nl))
    as (blocks & Hl & Hn & Hb).
  exists blocks. rewrite Hl, <- !app_assoc.
  repeat split; [assumption|].
  intros j data H. destruct (Hb j data H) as (b & Hb1 & Hb2).
  destruct (@render_document_known py collection j data Hc) as [rest E].
  simpl in Hb2. rewrite E in Hb2. injection Hb2 as <-.
  exists rest. assumption.
Qed.

Lemma format_response_select_blocks_witness :
  exists blocks,
    format_response Demo.py
      (Cursor [[(s_fullname, VStr (lit "іван"))]; []]) s_workers s_select
    = Ok (lit "Було знайдено наступні дані:" ++ nl ++ nl
          ++ List.concat blocks)
    /\ List.length blocks = 2.
Proof.
  destruct (@format_response_select_blocks Demo.py s_workers
              [[(s_fullname, VStr (lit "іван"))]; []])
    as (blocks & H1 & H2 & _).
  - simpl. auto.
  - exists blocks. split; assumption.
Defined.

(** What [make_query] returns can be rendered. *)
Lemma make_query_renders
    (py : python) (self : Chat) (db : Database)
    (status verb word : str) (fields : dict (list str))
    (res : db_result) (collection func : str) :
  make_query py self db status verb word fields = Ok (res, collection, func) ->
  exists text, format_response py res collection func = Ok text.
Proof.
  intros H. apply make_query_Ok in H.
  destruct H as (_ & Hc & _ & Hr).
  assert (In collection [s_appartments; s_workers; s_requests]) as Hin.
  { unfold classify_collection in Hc.
    destruct (mem word (realty (_patterns self)));
      [injection Hc as <-; simpl; auto|].
    destruct (mem word (worker (_patterns self)));
      [injection Hc as <-; simpl; auto|].
    destruct (mem word (request (_patterns self)));
      [injection Hc as <-; simpl; auto | discriminate Hc]. }
  destruct Hr as [(-> & filter & _ & ->) | (-> & doc & _ & ->)].
  - unfold format_response. eval_tests.
    destruct (@render_loop_blocks py collection (find db collection filter)
                Hin 0
                (lit "Було знайдено наступні дані:" ++ nl ++ nl))
      as (blocks & Hl & _).
    eauto.
  - unfold format_response. eval_tests.
    destruct (Str.eqb collection s_requests); eauto.
Qed.

(** X3. The two stages fit: whatever [make_query] returns,
    [format_response] renders it.  The errors of the renderer, an
    unknown collection or operation and a result of the wrong kind,
    cannot arise behind [make_query]. *)
Theorem format_response_after_make_query
    (py : python) (self : Chat) (db : Database)
    (status verb word : str) (fields : dict (list str))
    (r : db_result * str * str) :
  make_query py self db status verb word fields = Ok r ->
  exists text,
    format_response py (fst (fst r)) (snd (fst r)) (snd r) = Ok text.
Proof.
  destruct r as [[res collection] func]. simpl. intros H.
  eapply make_query_renders. eassumption.
Qed.

Lemma format_response_after_make_query_witness :
  exists text,
    format_response Demo.py (InsertOneResult (VStr (lit "id1")))
      s_appartments s_insert
    = Ok text.
Proof.
  apply (@format_response_after_make_query Demo.py Demo.chat Demo.db
           s_realtor (lit "додати") (lit "нерухомість")
           [(s_address, [lit "вулиця"]); (s_price, [lit "100"])]
           (InsertOneResult (VStr (lit "id1")), s_appartments, s_insert)).
  vm_compute. reflexivity.
Defined.

(* ================================================================== *)
(** * The quit query *)

Lemma join_app (sep : str) (a b : list str) :
  a <> [] -> b <> [] ->
  join sep (a ++ b) = join sep a ++ sep ++ join sep b.
Proof.
  intros Ha Hb. induction a as [|w a IH]; [congruence|].
  destruct a as [|w' a].
  - simpl. destruct b; [congruence | reflexivity].
  - change ((w :: w' :: a) ++ b) with (w :: ((w' :: a) ++ b)).
    rewrite join_cons by discriminate.
    rewrite IH by discriminate.
    rewrite (@join_cons sep w (w' :: a)) by discriminate.
    rewrite <- !app_assoc. reflexivity.
Qed.

(** The joined text of a part of a sequence stands in the joined text
    of the sequence. *)
Lemma join_infix (sep : str) (a q b : list str) :
  exists pre post, join sep (a ++ q ++ b) = pre ++ join sep q ++ post.
Proof.
  destruct q as [|w q].
  - exists [], (join sep (a ++ [] ++ b)). reflexivity.
  - destruct a as [|x a], b as [|y b].
    + exists [], []. rewrite !app_nil_l, !app_nil_r. reflexivity.
    + exists [], (sep ++ join sep (y :: b)). rewrite !app_nil_l.
      rewrite join_app by discriminate. reflexivity.
    + exists (join sep (x :: a) ++ sep), []. rewrite !app_nil_r.
      rewrite join_app by discriminate. rewrite <- app_assoc. reflexivity.
    + exists (join sep (x :: a) ++ sep), (sep ++ join sep (y :: b)).
      rewrite join_app by discriminate.
      rewrite (@join_app sep (w :: q) (y :: b)) by discriminate.
      rewrite <- !app_assoc. reflexivity.
Qed.

Lemma is_quit_matches (self : Chat) (query : list str) :
  is_quit self query = true
  <-> exists pre w post,
        join [space] query = pre ++ w ++ post
        /\ Re.matches (rquit_verbs (_patterns self)) w.
Proof.
  unfold is_quit.
  destruct (Re.search (rquit_verbs (_patterns self)) (join [space] query))
    as [m|] eqn:E.
  - split; [|reflexivity]. intros _.
    apply search_Some in E. destruct E as (pre & post & E & _ & M & _).
    eauto.
  - split; [discriminate|]. intros H. apply search_None in E.
    contradiction.
Qed.

(** X13. [is_quit] holds exactly when the text of the query, its words
    joined by spaces, has a substring that the quit pattern matches;
    so a query is still a quit query with any words put before and
    after it. *)
Theorem is_quit_anywhere (self : Chat) (before query after : list str) :
  (is_quit self query = true
   <-> exists pre w post,
         join [space] query = pre ++ w ++ post
         /\ Re.matches (rquit_verbs (_patterns self)) w)
  /\ (is_quit self query = true ->
      is_quit self (before ++ query ++ after) = true).
Proof.
  split; [apply is_quit_matches|].
  intros H. apply is_quit_matches in H.
  destruct H as (pre & w & post & E & M).
  apply is_quit_matches.
  destruct (join_infix [space] before query after) as (p & q & Ej).
  exists (p ++ pre), w, (post ++ q). split; [|assumption].
  rewrite Ej, E, <- !app_assoc. reflexivity.
Qed.

Lemma is_quit_anywhere_witness :
  is_quit Demo.chat
    ([lit "дякую"] ++ [lit "вийти"] ++ [lit "будь"; lit "ласка"]) = true.
Proof.
  apply (proj2 (@is_quit_anywhere Demo.chat [lit "дякую"] [lit "вийти"]
                  [lit "будь"; lit "ласка"])).
  vm_compute. reflexivity.
Defined.

(* ================================================================== *)
(** * The Field Classifier: what it accepts, what it keeps *)

Lemma split_fields_loop_error (self : Chat) (query : list str) :
  forall fields row e,
    split_fields_loop self query fields row = Err e ->
    e = MalformedQueryError.
Proof.
  induction query as [|word rest IH]; intros fields row e H; simpl in H.
  - discriminate H.
  - destruct (mem word (field_words (_patterns self))).
    + destruct (get word (field_names (_patterns self)));
        [eapply IH; eassumption | congruence].
    + destruct row; [eapply IH; eassumption | congruence].
Qed.

Lemma split_fields_error (self : Chat) (query : list str) (e : error) :
  split_fields self query = Err e -> e = MalformedQueryError.
Proof.
  unfold split_fields.
  destruct (split_fields_loop self query [] None) as [st|e'] eqn:E; simpl.
  - destruct (snd st); discriminate.
  - intros H. injection H as <-. eapply split_fields_loop_error. eassumption.
Qed.

(** With a bucket open the loop goes through exactly when every field
    keyword to come has its entry in the catalog. *)
Lemma split_fields_loop_open (self : Chat) (query : list str) :
  forall fields cur,
    (exists st, split_fields_loop self query fields (Some cur) = Ok st)
    <-> forall word,
          In word query ->
          mem word (field_words (_patterns self)) = true ->
          get word (field_names (_patterns self)) <> None.
Proof.
  induction query as [|word rest IH]; intros fields cur; simpl.
  - split; [intros _ w [] | eauto].
  - destruct (mem word (field_words (_patterns self))) eqn:Ek.
    + destruct (get word (field_names (_patterns self))) as [name|] eqn:En.
      * rewrite IH. split.
        -- intros H w [<- | Hw] Hm; [congruence | auto].
        -- intros H w Hw Hm. auto.
      * split.
        -- intros [st H]. discriminate H.
        -- intros H. exfalso. apply (H word); auto.
    + rewrite IH. split.
      * intros H w [<- | Hw] Hm; [congruence | auto].
      * intros H w Hw Hm. auto.
Qed.

(** X14. [split_fields] accepts a sequence exactly when it is empty, or
    begins with a field keyword and every field keyword in it has its
    top-level entry in the catalog; what it raises otherwise is always
    [MalformedQueryError]. *)
Theorem split_fields_accepts
    (self : Chat) (query : list str) :
  ((exists fields, split_fields self query = Ok fields)
   <-> query = []
       \/ (exists word rest,
             query = word :: rest
             /\ mem word (field_words (_patterns self)) = true)
          /\ forall word,
               In word query ->
               mem word (field_words (_patterns self)) = true ->
               get word (field_names (_patterns self)) <> None)
  /\ forall e, split_fields self query = Err e -> e = MalformedQueryError.
Proof.
  split; [|intros e; apply split_fields_error].
  destruct query as [|word rest].
  - split; [auto|]. intros _. exists []. reflexivity.
  - assert ((exists fields, split_fields self (word :: rest) = Ok fields)
            <-> exists st,
                  split_fields_loop self (word :: rest) [] None = Ok st)
      as ->.
    { unfold split_fields. split.
      - intros [fields H]. apply bind_Ok in H. destruct H as (st & H & _).
        eauto.
      - intros [st H]. rewrite H. cbn [bind].
        destruct (snd st); eauto. }
    cbn [split_fields_loop].
    destruct (mem word (field_words (_patterns self))) eqn:Ek.
    + destruct (get word (field_names (_patterns self))) as [name|] eqn:En.
      * rewrite split_fields_loop_open. split.
        -- intros H. right. split; [eauto|].
           intros w [<- | Hw] Hm; [congruence | auto].
        -- intros [H | [_ H]]; [discriminate H|].
           intros w Hw Hm. apply H; simpl; auto.
      * split.
        -- intros [st H]. discriminate H.
        -- intros [H | [_ H]]; [discriminate H|].
           exfalso. apply (H word); simpl; auto.
    + split.
      * intros [st H]. discriminate H.
      * intros [H | [(w & r & E & Hm) _]]; [discriminate H|].
        injection E as <- <-. congruence.
Qed.

Example split_fields_keyword_without_entry :
  split_fields
    {| _patterns :=
         {| rverbs := Re.Eps; raction_words := Re.Eps; rquit_verbs := Re.Eps;
            field_words := [lit "ціна"; lit "поверх"];
            field_names := [(lit "ціна", s_price)];
            get_verbs := []; insert_verbs := [];
            realty := []; worker := []; request := [] |};
       normalize := fun _ => [] |}
    [lit "ціна"; lit "100"; lit "поверх"; lit "3"]
  = Err MalformedQueryError.
Proof. vm_compute. reflexivity. Qed.

Lemma runs_of_nil (k : str) (rs : list (str * list str)) :
  runs_of k rs = [] <-> ~ In k (map fst rs).
Proof.
  induction rs as [|r rs IH]; simpl.
  - split; [intros _ [] | reflexivity].
  - rewrite runs_of_cons. destruct (Str.eqb (fst r) k) eqn:E.
    + apply eqb_eq in E. split; [discriminate | intros H; exfalso; auto].
    + apply eqb_neq in E. rewrite IH. tauto.
Qed.

(** The words of the runs are the words of the sequence that are not
    field keywords. *)
Lemma runs_from_words (self : Chat) (query : list str) :
  forall cur r w,
    In r (runs_from self cur query) -> In w (snd r) ->
    In w (snd cur)
    \/ (In w query /\ mem w (field_words (_patterns self)) = false).
Proof.
  induction query as [|word rest IH]; intros cur r w Hr Hw; simpl in Hr.
  - destruct Hr as [<- | []]. auto.
  - destruct (mem word (field_words (_patterns self))) eqn:Ek.
    + destruct Hr as [<- | Hr]; [auto|].
      destruct (IH _ _ _ Hr Hw) as [[] | [H1 H2]].
      right. simpl. auto.
    + destruct (IH _ _ _ Hr Hw) as [H | [H1 H2]].
      * simpl in H. apply in_app_or in H.
        destruct H as [H | [<- | []]]; [auto|]. right. simpl. auto.
      * right. simpl. auto.
Qed.

(** X15. The keys of the map that [split_fields] returns are the field
    names of the keywords of the sequence, and the words of its buckets
    are words of the sequence that are not field keywords: a keyword
    never ends up as a value. *)
Theorem split_fields_keys_and_words
    (self : Chat) (query : list str) (fields : dict (list str)) :
  split_fields self query = Ok fields ->
  (forall k, In k (keys fields) <-> In k (map fst (runs self query)))
  /\ forall k ws w,
       get k fields = Some ws -> In w ws ->
       In w query /\ mem w (field_words (_patterns self)) = false.
Proof.
  intros H. apply split_fields_runs in H.
  destruct H as [[-> ->] | (done & open & E & ->)].
  - split; [simpl; tauto|]. intros k ws w Hg. discriminate Hg.
  - assert (forall r w, In r (done ++ [open]) -> In w (snd r) ->
              In w query /\ mem w (field_words (_patterns self)) = false)
      as Hw.
    { intros r w Hr Hin. rewrite <- E in Hr. unfold runs in Hr.
      destruct query as [|word rest]; [destruct Hr|].
      destruct (runs_from_words _ _ _ _ _ Hr Hin) as [[] | [H1 H2]].
      split; [right|]; assumption. }
    split.
    + intros k. rewrite E, map_app, in_app_iff. simpl.
      rewrite keys_update.
      set (F := fold_left (fun f r => commit r f) done []).
      assert (In k (keys F) <-> In k (map fst done)) as HF.
      { pose proof (get_commit_all k done []) as G. fold F in G.
        pose proof (runs_of_nil k done) as Hr. simpl in G.
        destruct (runs_of k done) eqn:Er.
        - apply get_None_keys in G. split; [contradiction|].
          intros Hin. exfalso. apply Hr; auto.
        - split.
          + intros _.
            destruct (in_dec (list_eq_dec N.eq_dec) k (map fst done))
              as [Hin|Hin]; [assumption|].
            apply Hr in Hin. discriminate Hin.
          + intros _. eapply get_Some_keys. eassumption. }
      destruct (has (fst open) F) eqn:Hh.
      * rewrite HF. split; [auto|]. intros [Hk | [<- | []]]; [assumption|].
        apply HF. apply mem_In. assumption.
      * rewrite in_app_iff, HF. simpl. tauto.
    + intros k ws w Hg Hin. rewrite get_update in Hg.
      destruct (Str.eqb (fst open) k).
      * injection Hg as <-. apply (Hw open); [|assumption].
        apply in_or_app. right. left. reflexivity.
      * rewrite get_commit_all in Hg.
        destruct (runs_of k done) as [|l0 l] eqn:Er;
          [simpl in Hg; discriminate Hg|].
        injection Hg as <-. apply in_app_or in Hin.
        destruct Hin as [Hin | Hin]; [|simpl in Hin; contradiction].
        apply in_concat in Hin. destruct Hin as (run & Hrun & Hin).
        change (rev l ++ [l0]) with (rev (l0 :: l)) in Hrun.
        rewrite <- in_rev, <- Er in Hrun. unfold runs_of in Hrun.
        apply in_map_iff in Hrun. destruct Hrun as (r & <- & Hr).
        apply filter_In in Hr. destruct Hr as [Hr _].
        apply (Hw r); [|assumption]. apply in_or_app. auto.
Qed.

Lemma split_fields_keys_and_words_witness :
  let query := [lit "ціна"; lit "100"; lit "адреса"; lit "вул"] in
  exists fields,
    split_fields Demo.chat query = Ok fields
    /\ (In s_price (keys fields) <-> In s_price (map fst (runs Demo.chat query))).
Proof.
  intros query. eexists. split; [vm_compute; reflexivity|].
  apply (@split_fields_keys_and_words Demo.chat query).
  vm_compute. reflexivity.
Defined.

(* ================================================================== *)
(** * The Action Locator: the tokens it hands on *)

Lemma last_In (A : Type) (l : list A) (d : A) : l <> [] -> In (last l d) l.
Proof.
  intros H. destruct (exists_last H) as (l' & a & ->).
  rewrite last_last. apply in_or_app. right. left. reflexivity.
Qed.

(** X16. Whatever [split_on_parts] returns is made of proper tokens: no
    field word is empty or holds a space, and neither the verb nor the
    target holds a space, also when a word of the sequence does. *)
Theorem split_on_parts_tokens
    (py : python) (self : Chat) (splited_sentence fields : list str)
    (verb target : str) :
  split_on_parts py self splited_sentence = Ok (fields, (verb, target)) ->
  Forall (fun w => w <> [] /\ ~ In space w) fields
  /\ ~ In space verb
  /\ ~ In space target.
Proof.
  unfold split_on_parts.
  destruct (Re.search (_search_action py self)
              (join [space] splited_sentence)) as [m|]; [|discriminate].
  cbv zeta. intros H. injection H as <- <- <-.
  set (phrase := Re.group0 (join [space] splited_sentence) m).
  pose proof (split_no_separator space phrase) as Hp.
  rewrite Forall_forall in Hp.
  split; [|split].
  - apply Forall_forall. intros w Hw. apply filter_In in Hw.
    destruct Hw as [Hw Hn]. split.
    + destruct w; [discriminate Hn | discriminate].
    + pose proof (split_no_separator space
                    (replace phrase [] (join [space] splited_sentence)))
        as Hf.
      rewrite Forall_forall in Hf. apply Hf. assumption.
  - apply Hp. destruct (split space phrase) as [|t ts] eqn:E.
    + exfalso. eapply split_not_nil. eassumption.
    + left. reflexivity.
  - apply Hp. apply last_In. apply split_not_nil.
Qed.

Lemma split_on_parts_tokens_witness :
  Forall (fun w => w <> [] /\ ~ In space w)
    [lit "ціна"; lit "100"; lit "200"]
  /\ ~ In space (lit "показати")
  /\ ~ In space (lit "нерухомість").
Proof.
  apply (@split_on_parts_tokens Demo.py Demo.chat
           [lit "показати"; lit "нерухомість"; lit "ціна"; lit "100 200"]).
  vm_compute. reflexivity.
Defined.

(* ================================================================== *)
(** * One query, from the words to the text *)

Lemma split_on_parts_error
    (py : python) (self : Chat) (splited_sentence : list str) (e : error) :
  split_on_parts py self splited_sentence = Err e ->
  e = PatternNotFoundError.
Proof.
  unfold split_on_parts.
  destruct (Re.search (_search_action py self)
              (join [space] splited_sentence)); [discriminate|].
  intros H. injection H as <-. reflexivity.
Qed.

Lemma split_fields_NoDup (self : Chat) (query : list str)
    (fields : dict (list str)) :
  split_fields self query = Ok fields -> NoDup (keys fields).
Proof.
  intros H. apply split_fields_runs in H.
  destruct H as [[-> ->] | (done & open & E & ->)].
  - constructor.
  - apply NoDup_update, NoDup_commit_all. constructor.
Qed.

Lemma make_query_error
    (py : python) (self : Chat) (db : Database)
    (status verb word : str) (fields : dict (list str)) (e : error) :
  NoDup (keys fields) ->
  make_query py self db status verb word fields = Err e ->
  In e [UnknownTargetError; UnknownVerbError; PermissionDeniedError;
        MissingRequiredFieldError PriceAndAddress;
        MissingRequiredFieldError FullName; Builtin EmptySequence]
  \/ exists digits,
       640 < digits /\ 0 < int_max_str_digits py < digits
       /\ e = Builtin (IntegerStringLimit (int_max_str_digits py) digits).
Proof.
  intros Hn H.
  destruct (classify_collection_cases self word)
    as [(Hc & _) | (collection & Hc & _)].
  { unfold make_query in H. rewrite Hc in H. injection H as <-.
    simpl. auto. }
  destruct (classify_operation_cases self verb)
    as [(Ho & _) | (func & Ho & _)].
  { unfold make_query in H. rewrite Hc, Ho in H. injection H as <-.
    simpl. auto. }
  destruct (@make_query_late_error py self db status verb word fields
              func collection e Hc Ho H) as [-> | [Hs | Hi]].
  - simpl. auto.
  - apply search_fields_refused in Hs; [|assumption].
    destruct Hs as (ws & _ & [[_ ->] | (b & r & a & _ & _ & Hr & ->)]).
    + simpl. auto 10.
    + right. exists (List.length r). split; [|split; [|reflexivity]].
      * unfold over_digit_limit in Hr.
        apply andb_prop in Hr. destruct Hr as [Hr _].
        apply andb_prop in Hr. destruct Hr as [Hr _].
        apply Nat.ltb_lt. exact Hr.
      * unfold over_digit_limit in Hr.
        apply andb_prop in Hr. destruct Hr as [Hr H2].
        apply andb_prop in Hr. destruct Hr as [_ H1].
        apply Nat.ltb_lt in H1, H2. split; assumption.
  - apply fix_insertion_fields_error in Hi. destruct Hi as [[] ->];
      simpl; auto 10.
Qed.

(** X17. With a storage that answers, a query can fail in nine ways
    only: no action phrase, a field word before any keyword or a keyword
    without its catalog entry, an unknown target word, an unknown verb,
    a refusal by the permission matrix, a missing required field of the
    two kinds, a price without a digit, and a price with a run of digits
    longer than the limit of [int()] (more than 640 digits and more
    than a limit that is not switched off).  The renderer never fails
    behind the other stages, and no [TypeError], [KeyError] or
    [AttributeError] is raised. *)
Theorem answer_errors
    (py : python) (self : Chat) (db : Database)
    (role : str) (normalized : list str) (e : error) :
  answer py self db role normalized = Err e ->
  In e [PatternNotFoundError; MalformedQueryError;
        UnknownTargetError; UnknownVerbError; PermissionDeniedError;
        MissingRequiredFieldError PriceAndAddress;
        MissingRequiredFieldError FullName; Builtin EmptySequence]
  \/ exists digits,
       640 < digits /\ 0 < int_max_str_digits py < digits
       /\ e = Builtin (IntegerStringLimit (int_max_str_digits py) digits).
Proof.
  unfold answer. intros H.
  destruct (split_on_parts py self normalized) as [parts|e1] eqn:E1;
    simpl in H.
  2: { injection H as <-. apply split_on_parts_error in E1. subst e1.
       simpl. auto. }
  destruct (split_fields self (fst parts)) as [fields|e2] eqn:E2;
    simpl in H.
  2: { injection H as <-. apply split_fields_error in E2. subst e2.
       simpl. auto. }
  apply split_fields_NoDup in E2.
  destruct (make_query py self db role (fst (snd parts)) (snd (snd parts))
              fields) as [r|e3] eqn:E3; simpl in H.
  2: { injection H as <-.
       destruct (@make_query_error py self db role _ _ fields e3 E2 E3)
         as [Hl | Hd]; [left; right; right; exact Hl | right; exact Hd]. }
  destruct r as [[res collection] func]. simpl in H.
  apply make_query_renders in E3. destruct E3 as [text E3].
  congruence.
Qed.

Lemma answer_errors_witness :
  In (MissingRequiredFieldError FullName)
    [PatternNotFoundError; MalformedQueryError;
     UnknownTargetError; UnknownVerbError; PermissionDeniedError;
     MissingRequiredFieldError PriceAndAddress;
     MissingRequiredFieldError FullName; Builtin EmptySequence]
  \/ exists digits,
       640 < digits /\ 0 < 4300 < digits
       /\ MissingRequiredFieldError FullName
          = Builtin (IntegerStringLimit 4300 digits).
Proof.
  apply (@answer_errors Demo.py Demo.chat Demo.db s_customer
           [lit "додати"; lit "запит"; lit "адреса"; lit "вулиця"]).
  vm_compute. reflexivity.
Defined.

(** Failures of the list, with the catalog of the examples. *)
Example answer_no_action_phrase :
  answer Demo.py Demo.chat Demo.db s_customer [lit "ціна"; lit "100"]
  = Err PatternNotFoundError.
Proof. vm_compute. reflexivity. Qed.

Example answer_word_before_keyword :
  answer Demo.py Demo.chat Demo.db s_customer
    [lit "показати"; lit "нерухомість"; lit "дешево"]
  = Err MalformedQueryError.
Proof. vm_compute. reflexivity. Qed.

Example answer_permission_denied :
  answer Demo.py Demo.chat Demo.db s_customer
    [lit "додати"; lit "нерухомість"]
  = Err PermissionDeniedError.
Proof. vm_compute. reflexivity. Qed.

Example answer_missing_price_and_address :
  answer Demo.py Demo.chat Demo.db s_realtor
    [lit "додати"; lit "нерухомість"; lit "ціна"; lit "100"]
  = Err (MissingRequiredFieldError PriceAndAddress).
Proof. vm_compute. reflexivity. Qed.

Example answer_price_without_digits :
  answer Demo.py Demo.chat Demo.db s_customer
    [lit "показати"; lit "нерухомість"; lit "ціна"; lit "дешево"]
  = Err (Builtin EmptySequence).
Proof. vm_compute. reflexivity. Qed.

Example answer_price_over_digit_limit :
  answer Demo.py Demo.chat Demo.db s_customer
    [lit "показати"; lit "нерухомість"; lit "ціна"; repeat 49%N 4301]
  = Err (Builtin (IntegerStringLimit 4300 4301)).
Proof. vm_compute. reflexivity. Qed.

(** What the session prints for it. *)
Example respond_price_over_digit_limit :
  respond Demo.py Demo.chat Demo.db s_customer
    [lit "показати"; lit "нерухомість"; lit "ціна"; repeat 49%N 4301]
  = lit "Помилка: Exceeds the limit (4300 digits) for integer string conversion: value has 4301 digits; use sys.set_int_max_str_digits() to increase the limit".
Proof. vm_compute. reflexivity. Qed.

(* ================================================================== *)
(** * The session *)

Lemma main_loop_answers (py : python) (self : Chat) (db : Database)
    (role : str) (before : list str) :
  (forall text, In text before ->
                is_quit self (normalize self text) = false) ->
  forall rest,
    main_loop py self db role (before ++ rest)
    = (flat_map
         (fun text =>
            [Input s_prompt;
             Print (respond py self db role (normalize self text))])
         before
       ++ fst (main_loop py self db role rest),
       snd (main_loop py self db role rest)).
Proof.
  induction before as [|text before IH]; intros Hq rest.
  - simpl. destruct (main_loop py self db role rest). reflexivity.
  - change ((text :: before) ++ rest) with (text :: (before ++ rest)).
    cbn [main_loop]. rewrite (Hq text) by (simpl; auto).
    rewrite IH by (intros t Ht; apply Hq; simpl; auto).
    reflexivity.
Qed.

(** X18. A session with a permitted role: after the greeting every line
    before the first quit query is prompted for and answered by exactly
    one [print], the text of the result or the text of the error, and
    the loop goes on after an error; at the quit query the farewell is
    printed and [main] returns, without reading the lines behind it. *)
Theorem main_until_quit
    (py : python) (self : Chat) (db : Database) (role : str)
    (before : list str) (quit : str) (after : list str) :
  In role [s_customer; s_realtor] ->
  (forall text, In text before ->
                is_quit self (normalize self text) = false) ->
  is_quit self (normalize self quit) = true ->
  main py self db role (before ++ quit :: after)
  = (Print s_greeting
       :: flat_map
            (fun text =>
               [Input s_prompt;
                Print (respond py self db role (normalize self text))])
            before
       ++ [Input s_prompt; Print s_goodbye],
     Finished).
Proof.
  intros Hr Hb Hq. unfold main.
  apply mem_In in Hr. rewrite Hr. cbn [negb].
  rewrite main_loop_answers by assumption.
  cbn [main_loop]. rewrite Hq. reflexivity.
Qed.

Lemma main_until_quit_witness :
  main Demo.py Demo.chat Demo.db s_customer
    ([lit "показати авто"] ++ lit "вийти" :: [lit "показати нерухомість"])
  = (Print s_greeting
       :: flat_map
            (fun text =>
               [Input s_prompt;
                Print (respond Demo.py Demo.chat Demo.db s_customer
                         (normalize Demo.chat text))])
            [lit "показати авто"]
       ++ [Input s_prompt; Print s_goodbye],
     Finished).
Proof.
  apply (@main_until_quit Demo.py Demo.chat Demo.db s_customer
           [lit "показати авто"] (lit "вийти") [lit "показати нерухомість"]).
  - simpl. auto.
  - intros text [<- | []]. vm_compute. reflexivity.
  - vm_compute. reflexivity.
Defined.

(** X19. Without a quit query among the lines every line is answered
    and [main] ends in the [EOFError] of the prompt that follows the
    last line; with a role other than customer and realtor it ends in
    the [ValueError] of the role check before anything is printed. *)
Theorem main_without_quit
    (py : python) (self : Chat) (db : Database) (role : str)
    (lines : list str) :
  (forall text, In text lines ->
                is_quit self (normalize self text) = false) ->
  main py self db role lines
  = if mem role [s_customer; s_realtor]
    then (Print s_greeting
            :: flat_map
                 (fun text =>
                    [Input s_prompt;
                     Print (respond py self db role (normalize self text))])
                 lines
            ++ [Input s_prompt],
          EndOfInput)
    else ([], RoleError).
Proof.
  intros Hq. unfold main.
  destruct (mem role [s_customer; s_realtor]); cbn [negb]; [|reflexivity].
  rewrite <- (app_nil_r lines) at 1.
  rewrite main_loop_answers by assumption. reflexivity.
Qed.

Lemma main_without_quit_witness :
  main Demo.py Demo.chat Demo.db (lit "admin") [lit "показати нерухомість"]
  = ([], RoleError).
Proof.
  apply (@main_without_quit Demo.py Demo.chat Demo.db (lit "admin")
           [lit "показати нерухомість"]).
  intros text [<- | []]. vm_compute. reflexivity.
Defined.

Example main_session :
  main Demo.py Demo.chat Demo.db s_customer
    [lit "додати нерухомість ціна 100"; lit "вийти"]
  = ([Print s_greeting;
      Input s_prompt;
      Print (s_error ++ message PermissionDeniedError);
      Input s_prompt;
      Print s_goodbye],
     Finished).
Proof. vm_compute. reflexivity. Qed.

(* ================================================================== *)
(** * A word in several lists *)

(** X20. When a target word stands in several lists of the catalog the
    first chain decides: [realty] before [worker] before [request]; and
    a verb in both verb lists selects.  So the collection and the
    operation that [make_query] returns are fixed by the first list
    that holds the word. *)
Theorem make_query_first_list_wins
    (py : python) (self : Chat) (db : Database)
    (status verb word : str) (fields : dict (list str))
    (res : db_result) (collection func : str) :
  make_query py self db status verb word fields = Ok (res, collection, func) ->
  collection
  = (if mem word (realty (_patterns self)) then s_appartments
     else if mem word (worker (_patterns self)) then s_workers
     else s_requests)
  /\ func = (if mem verb (get_verbs (_patterns self)) then s_select
             else s_insert).
Proof.
  intros H. apply make_query_Ok in H. destruct H as (_ & Hc & Ho & _).
  unfold classify_collection in Hc. unfold classify_operation in Ho.
  split.
  - destruct (mem word (realty (_patterns self))); [congruence|].
    destruct (mem word (worker (_patterns self))); [congruence|].
    destruct (mem word (request (_patterns self)));
      [congruence | discriminate Hc].
  - destruct (mem verb (get_verbs (_patterns self))); [congruence|].
    destruct (mem verb (insert_verbs (_patterns self)));
      [congruence | discriminate Ho].
Qed.

Lemma make_query_first_list_wins_witness :
  let self :=
    {| _patterns :=
         {| rverbs := Re.Eps; raction_words := Re.Eps; rquit_verbs := Re.Eps;
            field_words := []; field_names := [];
            get_verbs := [lit "знайти"]; insert_verbs := [lit "знайти"];
            realty := [lit "оголошення"]; worker := [];
            request := [lit "оголошення"] |};
       normalize := fun _ => [] |} in
  s_appartments
  = (if mem (lit "оголошення") (realty (_patterns self)) then s_appartments
     else if mem (lit "оголошення") (worker (_patterns self)) then s_workers
     else s_requests)
  /\ s_select = (if mem (lit "знайти") (get_verbs (_patterns self))
                 then s_select else s_insert).
Proof.
  intros self.
  apply (@make_query_first_list_wins Demo.py self Demo.db s_realtor
           (lit "знайти") (lit "оголошення") [] (Cursor [])).
  vm_compute. reflexivity.
Defined.
